(** * The deflationary bank keeper: transfers, split, pools, supply and genesis

    A shallow embedding of the send keeper of the bank module
    ([x/bank/keeper/send.go]), of the bank parameters
    ([x/bank/types/params.go]) and of genesis import
    ([x/bank/keeper/genesis.go]), followed by the properties of the written
    specification that concern them.

    Conventions of the embedding:
    - [sdk.Int] is an arbitrary-precision integer and is read as [Z]; the
      256-bit ceiling at which the SDK aborts is outside the model.
    - A keeper method is a function from the store to a [Result]: a normal
      return, an error return (a Go [error] value) or a panic.  Go writes to
      the store in place, so both an error and a panic keep the store as the
      writes made before them left it.
    - The four prefix stores (balances, supply, liquidity pool, fee-tax pool)
      are finite maps from the key to the stored amount; the byte encoding of
      the amount is taken to round-trip.
    - Events, telemetry and logging have no reader in the keeper and are
      left out. *)

From Stdlib Require Import ZArith Lia Bool.
From stdpp Require Import gmap strings list fin_maps sorting.

Local Open Scope Z_scope.

(** ** SDK value types: [Coin], [Coins], [Dec]

    The value types of the SDK ([types/coin.go], [types/int.go],
    [types/decimal.go]) are not among the sources of the keeper.  This
    module models the operations the keeper calls, from the data model of
    the specification (section 3) and the contracts the keeper relies on. *)
Module Sdk.

(** Modelled from the spec: [sdk.Coin], a denomination and an amount. *)
Record Coin := NewCoinRaw { Denom : string; Amount : Z }.

(** Modelled from the spec: [sdk.Coins], a slice of [Coin]. *)
Definition Coins := list Coin.

(** Modelled from the spec: the SDK's [Dec] ([types/decimal.go] is not among
    the sources) is a fixed-point number with 18 fractional digits; a [Dec]
    is read as its integer mantissa, the value being [mantissa / 10^18]. *)
Definition Dec := Z.

Definition Precision : Z := 18.
Definition precisionReuse : Z := 10 ^ Precision.
Definition fivePrecision : Z := precisionReuse / 2.

(** Modelled from the spec: [sdk.NewDecFromInt], the integer as a [Dec]. *)
Definition NewDecFromInt (i : Z) : Dec := i * precisionReuse.

(** Modelled from the spec: [sdk.NewDecWithPrec i prec] is [i / 10^prec]. *)
Definition NewDecWithPrec (i : Z) (prec : Z) : Dec :=
  i * 10 ^ (Precision - prec).

Definition OneDec : Dec := precisionReuse.

(** Modelled from the spec: [chopPrecisionAndRound] divides a product of
    two mantissas by [10^18], rounding half to even on the magnitude. *)
Definition chopPrecisionAndRound (d : Z) : Z :=
  let a := Z.abs d in
  let quo := Z.quot a precisionReuse in
  let rem := Z.rem a precisionReuse in
  let r :=
    if rem =? 0 then quo
    else match rem ?= fivePrecision with
         | Lt => quo
         | Gt => quo + 1
         | Eq => if Z.even quo then quo else quo + 1
         end in
  if d <? 0 then - r else r.

(** Modelled from the spec: [Dec.Mul], the rounded product. *)
Definition Dec_Mul (d d2 : Dec) : Dec := chopPrecisionAndRound (d * d2).

(** Modelled from the spec: [Dec.TruncateInt] is the integer part,
    truncated toward zero. *)
Definition Dec_TruncateInt (d : Dec) : Z := Z.quot d precisionReuse.

(** Modelled from the spec: the panics of the SDK value types that the
    keeper can reach. *)
Inductive CoinPanic :=
| InvalidDenomPanic (denom : string)
| NegativeCoinAmount (amount : Z)
| DenomMismatch (d1 d2 : string).

Section WithDenomCheck.
(** Modelled from the spec: [sdk.ValidateDenom] ([types/coin.go] is not
    among the sources) accepts or rejects a denomination name; the check
    itself is a parameter of the embedding. *)
Variable ValidateDenom : string → bool.

(** Modelled from the spec: [Coin.IsValid], a valid name and a
    non-negative amount. *)
Definition Coin_IsValid (c : Coin) : bool :=
  ValidateDenom (Denom c) && (0 <=? Amount c).

(** Modelled from the spec: [sdk.NewCoin] builds the coin and panics when
    it does not validate (the spec, section 3: amount >= 0). *)
Definition NewCoin (denom : string) (amount : Z) : CoinPanic + Coin :=
  if negb (ValidateDenom denom) then inl (InvalidDenomPanic denom)
  else if amount <? 0 then inl (NegativeCoinAmount amount)
  else inr (NewCoinRaw denom amount).

(** Modelled from the spec: [Coins.IsValid] holds of the empty set and of
    a set with valid names in strictly increasing order (hence no
    duplicate) and strictly positive amounts. *)
Fixpoint Coins_IsValid_from (lowDenom : string) (coins : Coins) : bool :=
  match coins with
  | [] => true
  | c :: rest =>
      ValidateDenom (Denom c) && String.ltb lowDenom (Denom c)
      && (0 <? Amount c) && Coins_IsValid_from (Denom c) rest
  end.

Definition Coins_IsValid (coins : Coins) : bool :=
  match coins with
  | [] => true
  | c :: rest =>
      ValidateDenom (Denom c) && (0 <? Amount c)
      && Coins_IsValid_from (Denom c) rest
  end.
End WithDenomCheck.

Definition Coin_IsZero (c : Coin) : bool := Amount c =? 0.
Definition Coin_IsPositive (c : Coin) : bool := 0 <? Amount c.
Definition Coin_IsNegative (c : Coin) : bool := Amount c <? 0.

(** Modelled from the spec: [Coin.Add] panics on different
    denominations. *)
Definition Coin_Add (a b : Coin) : CoinPanic + Coin :=
  if negb (String.eqb (Denom a) (Denom b))
  then inl (DenomMismatch (Denom a) (Denom b))
  else inr (NewCoinRaw (Denom a) (Amount a + Amount b)).

(** Modelled from the spec: [Coin.Sub] panics on different denominations
    and on a negative result (section 3: subtraction fails, it does not
    wrap). *)
Definition Coin_Sub (a b : Coin) : CoinPanic + Coin :=
  if negb (String.eqb (Denom a) (Denom b))
  then inl (DenomMismatch (Denom a) (Denom b))
  else if Amount a - Amount b <? 0
       then inl (NegativeCoinAmount (Amount a - Amount b))
       else inr (NewCoinRaw (Denom a) (Amount a - Amount b)).

Definition removeZeroCoins (coins : Coins) : Coins :=
  filter (λ c, Coin_IsZero c = false) coins.

Definition consNonZero (c : Coin) (sum : Coins) : Coins :=
  if Coin_IsZero c then sum else c :: sum.

(** Modelled from the spec: [Coins.Add] ([safeAdd]) merges two
    denomination-ordered sets, adding the amounts of a common denomination
    and dropping zero coins. *)
Fixpoint safeAdd (coins : Coins) : Coins → Coins :=
  fix go (coinsB : Coins) : Coins :=
    match coins, coinsB with
    | [], _ => removeZeroCoins coinsB
    | _, [] => removeZeroCoins coins
    | coinA :: restA, coinB :: restB =>
        match String.compare (Denom coinA) (Denom coinB) with
        | Lt => consNonZero coinA (safeAdd restA coinsB)
        | Eq => consNonZero
                  (NewCoinRaw (Denom coinA) (Amount coinA + Amount coinB))
                  (safeAdd restA restB)
        | Gt => consNonZero coinB (go restB)
        end
    end.

Definition Coins_Add (coins coinsB : Coins) : Coins := safeAdd coins coinsB.

(** Modelled from the spec: [Coins.negative] negates every amount. *)
Definition Coins_negative (coins : Coins) : Coins :=
  map (λ c, NewCoinRaw (Denom c) (- Amount c)) coins.

Definition Coins_IsAnyNegative (coins : Coins) : bool :=
  existsb Coin_IsNegative coins.

(** Modelled from the spec: [Coins.SafeSub], the safe variant of section 3,
    returns the difference and whether any amount went negative. *)
Definition Coins_SafeSub (coins coinsB : Coins) : Coins * bool :=
  let diff := safeAdd coins (Coins_negative coinsB) in
  (diff, Coins_IsAnyNegative diff).

(** Modelled from the spec: [Coins.IsZero] holds when every coin is zero
    (and of the empty set). *)
Definition Coins_IsZero (coins : Coins) : bool := forallb Coin_IsZero coins.

(** Modelled from the spec: [Coins.Empty] holds of the empty set. *)
Definition Coins_Empty (coins : Coins) : bool :=
  match coins with [] => true | _ => false end.

(** Modelled from the spec: [Coins.AmountOf] is the amount held of a
    denomination, zero when the set has none of it. *)
Fixpoint Coins_AmountOf (coins : Coins) (denom : string) : Z :=
  match coins with
  | [] => 0
  | c :: rest =>
      if String.eqb (Denom c) denom then Amount c
      else Coins_AmountOf rest denom
  end.

(** Modelled from the spec: [Coins.Sort] orders by denomination. *)
Definition Coins_Sort (coins : Coins) : Coins :=
  merge_sort (λ a b, String.le (Denom a) (Denom b)) coins.

Definition Coin_eqb (a b : Coin) : bool :=
  String.eqb (Denom a) (Denom b) && (Amount a =? Amount b).

Fixpoint Coins_eqb (a b : Coins) : bool :=
  match a, b with
  | [], [] => true
  | x :: a', y :: b' => Coin_eqb x y && Coins_eqb a' b'
  | _, _ => false
  end.

(** Modelled from the spec: [Coins.IsEqual] holds when both sets have the
    same length and, once sorted, the same coins position by position. *)
Definition Coins_IsEqual (a b : Coins) : bool :=
  (length a =? length b)%nat && Coins_eqb (Coins_Sort a) (Coins_Sort b).

End Sdk.

(** ** Bank types: parameters, multi-send legs, genesis state *)
Module Types.
Import Sdk.

Definition ModuleName : string := "bank".
Definition Burner : string := "burner".

(** Modelled from the spec: [sdk.AccAddress], read through its text form:
    [addr.String()] is the
    address itself and the empty [sdk.AccAddress{}] prints as the empty
    string. *)
Definition AccAddress := string.
Definition emptyAccAddress : AccAddress := "".

Module SendEnabled.
Record t := mk { Denom : string; Enabled : bool }.
End SendEnabled.

Module SupportDeflationary.
Record t := mk {
  Denom : string;
  Enabled : bool;
  WhitelistedFrom : list string;
  WhitelistedTo : list string;
  BurnPercent : Dec;
  LiquidityPercent : Dec;
  FeeTaxPercent : Dec
}.

Definition IsWhitelistedTo (m : t) (addr : string) : bool :=
  existsb (λ to, String.eqb to addr) (WhitelistedTo m).

Definition IsWhitelistedFrom (m : t) (addr : string) : bool :=
  existsb (λ from, String.eqb from addr) (WhitelistedFrom m).
End SupportDeflationary.

Module Params.
Record t := mk {
  SendEnabled : list SendEnabled.t;
  DefaultSendEnabled : bool;
  SupportDeflationary : list SupportDeflationary.t
}.

Definition DefaultParams : t := mk [] true [].

(** [Params.SendEnabledDenom]: the first override for the denomination,
    the global default when there is none. *)
Fixpoint sendEnabledOf (overrides : list Types.SendEnabled.t)
    (default : bool) (denom : string) : bool :=
  match overrides with
  | [] => default
  | pse :: rest =>
      if String.eqb (Types.SendEnabled.Denom pse) denom
      then Types.SendEnabled.Enabled pse
      else sendEnabledOf rest default denom
  end.

Definition SendEnabledDenom (p : t) (denom : string) : bool :=
  sendEnabledOf (SendEnabled p) (DefaultSendEnabled p) denom.
End Params.

(** [validateSdkDec]: a percentage is accepted between zero and one. *)
Definition validateSdkDec (v : Dec) : bool :=
  negb (v <? 0) && negb (OneDec <? v).

Module Input.
Record t := mk { Address : string; Coins : Sdk.Coins }.
End Input.

Module Output.
Record t := mk { Address : string; Coins : Sdk.Coins }.
End Output.

Module Balance.
Record t := mk { Address : string; Coins : Sdk.Coins }.
End Balance.

Module Metadata.
Record t := mk { Base : string; Description : string }.
End Metadata.

Module GenesisState.
Record t := mk {
  Params : Params.t;
  Balances : list Balance.t;
  Supply : Coins;
  LiquidityPool : Coins;
  FeeTaxPool : Coins;
  DenomMetadata : list Metadata.t
}.
End GenesisState.

Module ModuleAccount.
Record t := mk { Address : AccAddress; Permissions : list string }.

Definition HasPermission (acc : t) (permission : string) : bool :=
  existsb (λ p, String.eqb p permission) (Permissions acc).
End ModuleAccount.

Inductive Error :=
| ErrInvalidCoins (amt : Coins)
| ErrInsufficientFunds (spendable coin : Coin)
| ErrSendDisabled (denom : string)
| ErrInvalidAddress (addr : string)
| ErrInputOutputMismatch.

Inductive PanicMsg :=
| PanicCoin (p : CoinPanic)
| PanicUnknownAddress (moduleName : string)
| PanicUnauthorized (moduleName : string)
| PanicGenesisAddress (addr : string)
| PanicGenesisBalances (e : Error)
| PanicGenesisSupply (expected got : Coins)
| PanicModuleAccountNotSet (moduleName : string)
| PanicModuleHoldings (balances holdings : Coins).

(** Modelled from the spec: [ValidateInputsOutputs] ([types/msgs.go] is not
    among the sources) "validates that the multiset of input amounts equals
    the multiset of output amounts"; it reports a mismatch of the two sums
    as an error. *)
Definition totalIn (inputs : list Input.t) : Coins :=
  fold_left (λ total i, Coins_Add total (Input.Coins i)) inputs [].

Definition totalOut (outputs : list Output.t) : Coins :=
  fold_left (λ total o, Coins_Add total (Output.Coins o)) outputs [].

Definition ValidateInputsOutputs (inputs : list Input.t)
    (outputs : list Output.t) : option Error :=
  if Coins_IsEqual (totalIn inputs) (totalOut outputs) then None
  else Some ErrInputOutputMismatch.

End Types.

(** ** The keeper: store, collaborators and methods *)
Module Keeper.
Import Sdk Types.

(** The persisted state reached through [ctx]: the parameter subspace, the
    four prefix stores of the bank module, the metadata store and the
    accounts known to the account keeper. *)
Record State := mkState {
  paramSpace : Params.t;
  balances : gmap (AccAddress * string) Z;
  supply : gmap string Z;
  liquidityPool : gmap string Z;
  feeTaxPool : gmap string Z;
  denomMetaData : gmap string Metadata.t;
  accounts : gset AccAddress
}.

Definition with_paramSpace (p : Params.t) (s : State) : State :=
  mkState p (balances s) (supply s) (liquidityPool s) (feeTaxPool s)
    (denomMetaData s) (accounts s).
Definition with_balances (b : gmap (AccAddress * string) Z) (s : State)
    : State :=
  mkState (paramSpace s) b (supply s) (liquidityPool s) (feeTaxPool s)
    (denomMetaData s) (accounts s).
Definition with_supply (m : gmap string Z) (s : State) : State :=
  mkState (paramSpace s) (balances s) m (liquidityPool s) (feeTaxPool s)
    (denomMetaData s) (accounts s).
Definition with_liquidityPool (m : gmap string Z) (s : State) : State :=
  mkState (paramSpace s) (balances s) (supply s) m (feeTaxPool s)
    (denomMetaData s) (accounts s).
Definition with_feeTaxPool (m : gmap string Z) (s : State) : State :=
  mkState (paramSpace s) (balances s) (supply s) (liquidityPool s) m
    (denomMetaData s) (accounts s).
Definition with_denomMetaData (m : gmap string Metadata.t) (s : State)
    : State :=
  mkState (paramSpace s) (balances s) (supply s) (liquidityPool s)
    (feeTaxPool s) m (accounts s).
Definition with_accounts (a : gset AccAddress) (s : State) : State :=
  mkState (paramSpace s) (balances s) (supply s) (liquidityPool s)
    (feeTaxPool s) (denomMetaData s) a.

(** The external collaborators of the keeper (the spec, section 6): code
    that is not among the sources and is taken as given. *)
Record Collaborators := mkCollaborators {
(** [sdk.ValidateDenom(denom) == nil] *)
ValidateDenom : string → bool;
(** [sdk.AccAddressFromBech32]: [None] is its error *)
AccAddressFromBech32 : string → option AccAddress;
(** the view keeper's [LockedCoins(ctx, addr)] *)
LockedCoins : AccAddress → Coins;
(** the account keeper's [GetModuleAccount(ctx, name)]: [None] is nil.
    Only the account returned is modelled.  What a lookup does to the
    account keeper's own store is outside the model, so nothing below is
    stated about which accounts exist after a lookup beyond the accounts
    the bank keeper itself sets. *)
GetModuleAccount : string → option ModuleAccount.t;
(** [types.SanitizeGenesisBalances] *)
SanitizeGenesisBalances : list Balance.t → list Balance.t
}.

(** The outcome of a keeper method, each with the store as it stands. *)
Inductive Result (A : Type) :=
| Ret (a : A) (s : State)
| Fail (e : Error) (s : State)
| Panicked (p : PanicMsg) (s : State).
Arguments Ret {A} a s.
Arguments Fail {A} e s.
Arguments Panicked {A} p s.

Definition Keeper (A : Type) : Type := State → Result A.

Definition kret {A} (a : A) : Keeper A := λ s, Ret a s.

Definition kbind {A B} (f : A → Keeper B) (m : Keeper A) : Keeper B :=
  λ s, match m s with
       | Ret a s' => f a s'
       | Fail e s' => Fail e s'
       | Panicked p s' => Panicked p s'
       end.

#[global] Instance Keeper_ret : MRet Keeper := @kret.
#[global] Instance Keeper_bind : MBind Keeper := @kbind.

Definition throw {A} (e : Error) : Keeper A := λ s, Fail e s.
Definition panic {A} (p : PanicMsg) : Keeper A := λ s, Panicked p s.
Definition gets {A} (f : State → A) : Keeper A := λ s, Ret (f s) s.
Definition modify (f : State → State) : Keeper unit := λ s, Ret () (f s).

(** A value of the SDK types, its panic become the keeper's. *)
Definition liftCoin {A} (r : CoinPanic + A) : Keeper A :=
  match r with
  | inl p => panic (PanicCoin p)
  | inr a => mret a
  end.

(** [for _, x := range l { body }] with early exit on error or panic. *)
Fixpoint forEach {A} (l : list A) (body : A → Keeper unit) : Keeper unit :=
  match l with
  | [] => mret ()
  | x :: rest => body x ;; forEach rest body
  end.

(** [if err := m; err != nil { panic(f(err)) }] *)
Definition orPanic {A} (m : Keeper A) (f : Error → PanicMsg) : Keeper A :=
  λ s, match m s with
       | Fail e s' => Panicked (f e) s'
       | r => r
       end.

Section WithCollaborators.
Variable k : Collaborators.

(** [GetParams] / [SetParams]. *)
Definition GetParams : Keeper Params.t := gets paramSpace.
Definition SetParams (params : Params.t) : Keeper unit :=
  modify (with_paramSpace params).

(** Modelled from the spec: the view keeper's [GetBalance]
    ([keeper/view.go] is not among the sources) reads the balance entry
    of (address, denomination); absence is zero. *)
Definition GetBalance (addr : AccAddress) (denom : string) : Keeper Coin :=
  gets (λ s, NewCoinRaw denom (default 0 (balances s !! (addr, denom)))).

(** Modelled from the spec: the view keeper's [GetAllBalances] collects
    the balance entries of an address, ordered by denomination. *)
Definition GetAllBalances (addr : AccAddress) : Keeper Coins :=
  gets (λ s,
    Coins_Sort
      (omap (λ e : AccAddress * string * Z,
               if decide (e.1.1 = addr)
               then Some (NewCoinRaw e.1.2 e.2) else None)
            (map_to_list (balances s)))).

(** [setBalance]. *)
Definition setBalance (addr : AccAddress) (balance : Coin) : Keeper unit :=
  if negb (Coin_IsValid (ValidateDenom k) balance)
  then throw (ErrInvalidCoins [balance])
  else if Coin_IsZero balance
  then modify (λ s, with_balances
                      (delete (addr, Denom balance) (balances s)) s)
  else modify (λ s, with_balances
                      (<[(addr, Denom balance) := Amount balance]>
                         (balances s)) s).

(** [initBalances]. *)
Definition initBalances (addr : AccAddress) (balances0 : Coins)
    : Keeper unit :=
  forEach balances0 (λ balance,
    if negb (Coin_IsValid (ValidateDenom k) balance)
    then throw (ErrInvalidCoins [balance])
    else if negb (Coin_IsZero balance)
    then modify (λ s, with_balances
                        (<[(addr, Denom balance) := Amount balance]>
                           (balances s)) s)
    else mret ()).

(** [getSupply] / [setSupply]. *)
Definition getSupply (denom : string) : Keeper Coin :=
  gets (λ s, NewCoinRaw denom (default 0 (supply s !! denom))).

Definition setSupply (coin : Coin) : Keeper unit :=
  if Coin_IsZero coin
  then modify (λ s, with_supply (delete (Denom coin) (supply s)) s)
  else modify (λ s, with_supply
                      (<[Denom coin := Amount coin]> (supply s)) s).

(** [getLiquidityPool] / [setLiquidityPool]. *)
Definition getLiquidityPool (denom : string) : Keeper Coin :=
  gets (λ s, NewCoinRaw denom (default 0 (liquidityPool s !! denom))).

Definition setLiquidityPool (coin : Coin) : Keeper unit :=
  if Coin_IsZero coin
  then modify (λ s, with_liquidityPool
                      (delete (Denom coin) (liquidityPool s)) s)
  else modify (λ s, with_liquidityPool
                      (<[Denom coin := Amount coin]> (liquidityPool s)) s).

(** [getFeeTaxPool] / [setFeeTaxPool]. *)
Definition getFeeTaxPool (denom : string) : Keeper Coin :=
  gets (λ s, NewCoinRaw denom (default 0 (feeTaxPool s !! denom))).

Definition setFeeTaxPool (coin : Coin) : Keeper unit :=
  if Coin_IsZero coin
  then modify (λ s, with_feeTaxPool
                      (delete (Denom coin) (feeTaxPool s)) s)
  else modify (λ s, with_feeTaxPool
                      (<[Denom coin := Amount coin]> (feeTaxPool s)) s).

(** Modelled from the spec: [SetDenomMetaData] ([keeper/keeper.go] is not
    among the sources) stores the metadata under its base denomination. *)
Definition SetDenomMetaData (meta : Metadata.t) : Keeper unit :=
  modify (λ s, with_denomMetaData
                 (<[Metadata.Base meta := meta]> (denomMetaData s)) s).

(** Modelled from the spec: the account service (section 6), as the set of
    addresses with an account; [GetAccount] ([None] is nil) and [SetAccount]
    of a new account with the address. *)
Definition GetAccount (addr : AccAddress) : Keeper (option AccAddress) :=
  gets (λ s, if decide (addr ∈ accounts s) then Some addr else None).
Definition SetAccount (addr : AccAddress) : Keeper unit :=
  modify (λ s, with_accounts ({[addr]} ∪ accounts s) s).

(** [IsSendEnabledCoins]: the error names the first denomination that is
    not enabled; [None] is the nil error.  The method only reads. *)
Fixpoint sendDisabledIn (params : Params.t) (coins : Coins)
    : option Error :=
  match coins with
  | [] => None
  | coin :: rest =>
      if negb (Params.SendEnabledDenom params (Denom coin))
      then Some (ErrSendDisabled (Denom coin))
      else sendDisabledIn params rest
  end.

Definition IsSendEnabledCoins (coins : Coins) : Keeper unit :=
  params ← GetParams;
  match sendDisabledIn params coins with
  | Some e => throw e
  | None => mret ()
  end.

(** [IsSendEnabledCoin]. *)
Definition IsSendEnabledCoin (coin : Coin) : Keeper bool :=
  params ← GetParams; mret (Params.SendEnabledDenom params (Denom coin)).

(** The body of the loop of [subUnlockedCoins] for one coin. *)
Definition subUnlockedCoin (addr : AccAddress) (lockedCoins : Coins)
    (coin : Coin) : Keeper unit :=
  balance ← GetBalance addr (Denom coin);
  locked ← liftCoin (NewCoin (ValidateDenom k) (Denom coin)
                       (Coins_AmountOf lockedCoins (Denom coin)));
  spendable ← liftCoin (Coin_Sub balance locked);
  let '(_, hasNeg) := Coins_SafeSub [spendable] [coin] in
  if hasNeg then throw (ErrInsufficientFunds spendable coin)
  else
    newBalance ← liftCoin (Coin_Sub balance coin);
    setBalance addr newBalance.

(** [subUnlockedCoins]. *)
Definition subUnlockedCoins (addr : AccAddress) (amt : Coins)
    : Keeper unit :=
  if negb (Coins_IsValid (ValidateDenom k) amt)
  then throw (ErrInvalidCoins amt)
  else
    let lockedCoins := LockedCoins k addr in
    forEach amt (subUnlockedCoin addr lockedCoins).

(** The body of the loop of [addCoins] for one coin. *)
Definition addCoin (addr : AccAddress) (coin : Coin) : Keeper unit :=
  balance ← GetBalance addr (Denom coin);
  newBalance ← liftCoin (Coin_Add balance coin);
  setBalance addr newBalance.

(** [addCoins]. *)
Definition addCoins (addr : AccAddress) (amt : Coins) : Keeper unit :=
  if negb (Coins_IsValid (ValidateDenom k) amt)
  then throw (ErrInvalidCoins amt)
  else forEach amt (addCoin addr).

(** The body of the supply loop of [burnCoins] for one coin. *)
Definition burnSupply (amount : Coin) : Keeper unit :=
  supply0 ← getSupply (Denom amount);
  supply1 ← liftCoin (Coin_Sub supply0 amount);
  setSupply supply1.

(** [burnCoins]. *)
Definition burnCoins (moduleName : string) (amounts : Coins)
    : Keeper unit :=
  match GetModuleAccount k moduleName with
  | None => panic (PanicUnknownAddress moduleName)
  | Some acc =>
      if negb (ModuleAccount.HasPermission acc Burner)
      then panic (PanicUnauthorized moduleName)
      else
        subUnlockedCoins (ModuleAccount.Address acc) amounts ;;
        forEach amounts burnSupply
  end.

(** The condition of the inner loop of [deflationaryCoins] under which a
    rule is applied to a coin of the given denomination. *)
Definition ruleApplies (deflationary : SupportDeflationary.t)
    (from to : AccAddress) (denom : string) : bool :=
  SupportDeflationary.Enabled deflationary
  && String.eqb (SupportDeflationary.Denom deflationary) denom
  && negb (SupportDeflationary.IsWhitelistedFrom deflationary from)
  && SupportDeflationary.IsWhitelistedTo deflationary to.

(** The three amounts the inner loop assigns. *)
Record Portions := mkPortions {
  burnAmount : Z;
  liquidityAmount : Z;
  feeTarAmount : Z
}.

(** The body of the inner loop over [params.SupportDeflationary]: an
    applying rule overwrites the three amounts.  All three are computed from
    [deflationary.LiquidityPercent], as the source has it. *)
Definition applyRule (from to : AccAddress) (coin : Coin)
    (acc : option Portions) (deflationary : SupportDeflationary.t)
    : option Portions :=
  if ruleApplies deflationary from to (Denom coin)
  then Some (mkPortions
         (Dec_TruncateInt (Dec_Mul (NewDecFromInt (Amount coin))
            (SupportDeflationary.LiquidityPercent deflationary)))
         (Dec_TruncateInt (Dec_Mul (NewDecFromInt (Amount coin))
            (SupportDeflationary.LiquidityPercent deflationary)))
         (Dec_TruncateInt (Dec_Mul (NewDecFromInt (Amount coin))
            (SupportDeflationary.LiquidityPercent deflationary))))
  else acc.

(** The inner loop: [None] is [isDeflationary == false]; the loop has no
    [break], so the last applying rule stands. *)
Definition rulePortions (rules : list SupportDeflationary.t)
    (from to : AccAddress) (coin : Coin) : option Portions :=
  fold_left (applyRule from to coin) rules None.

(** What the outer loop of [deflationaryCoins] leaves behind: the slice
    [amt] as rewritten in place and the three accumulated slices. *)
Record Split := mkSplit {
  sendCoins : Coins;
  burnCoinsOf : Coins;
  liquidityCoins : Coins;
  feeTarCoins : Coins
}.

(** The outer loop [for i := 0; i < len(amt); i++] of [deflationaryCoins].
    In the pool updates the result of [Amount.Add] is dropped, as in the
    source, and the coin read from the pool is written back. *)
Fixpoint splitLoop (params : Params.t) (from to : AccAddress) (amt : Coins)
    : Keeper Split :=
  match amt with
  | [] => mret (mkSplit [] [] [] [])
  | coin :: rest =>
      match rulePortions (Params.SupportDeflationary params) from to coin with
      | None =>
          r ← splitLoop params from to rest;
          mret (mkSplit (coin :: sendCoins r) (burnCoinsOf r)
                  (liquidityCoins r) (feeTarCoins r))
      | Some p =>
          burnCoin ← liftCoin
            (NewCoin (ValidateDenom k) (Denom coin) (burnAmount p));
          liquidityCoin ← liftCoin
            (NewCoin (ValidateDenom k) (Denom coin) (liquidityAmount p));
          feeTarCoin ← liftCoin
            (NewCoin (ValidateDenom k) (Denom coin) (feeTarAmount p));
          let sendAmount :=
            Amount coin - burnAmount p - liquidityAmount p - feeTarAmount p in
          sendCoin ← liftCoin
            (NewCoin (ValidateDenom k) (Denom coin) sendAmount);
          (if 0 <? liquidityAmount p
           then pool ← getLiquidityPool (Denom sendCoin);
                let _ := Amount pool + liquidityAmount p in
                setLiquidityPool pool
           else mret ()) ;;
          (if 0 <? feeTarAmount p
           then pool ← getFeeTaxPool (Denom sendCoin);
                let _ := Amount pool + feeTarAmount p in
                setFeeTaxPool pool
           else mret ()) ;;
          r ← splitLoop params from to rest;
          mret (mkSplit (sendCoin :: sendCoins r) (burnCoin :: burnCoinsOf r)
                  (liquidityCoin :: liquidityCoins r)
                  (feeTarCoin :: feeTarCoins r))
      end
  end.

(** The tail of [deflationaryCoins] after its loop: look the module account
    up, move the three portions to it and burn the burn portion. *)
Definition routeSplit (r : Split) : Keeper Coins :=
  match GetModuleAccount k ModuleName with
  | None => panic (PanicUnknownAddress ModuleName)
  | Some recipientAcc =>
      let totalCoins :=
        Coins_Add (Coins_Add (burnCoinsOf r) (liquidityCoins r))
          (feeTarCoins r) in
      if Coins_IsZero totalCoins then mret (sendCoins r)
      else
        addCoins (ModuleAccount.Address recipientAcc) totalCoins ;;
        if Coins_IsZero (burnCoinsOf r) then mret (sendCoins r)
        else burnCoins ModuleName (burnCoinsOf r) ;; mret (sendCoins r)
  end.

(** [deflationaryCoins]. *)
Definition deflationaryCoins (from to : AccAddress) (amt : Coins)
    : Keeper Coins :=
  params ← GetParams;
  r ← splitLoop params from to amt;
  routeSplit r.

(** Create the account of a recipient that does not exist: the tail
    [acc := k.ak.GetAccount(ctx, addr); if acc == nil { ... }] shared by
    [SendCoins] and [InputOutputCoins]. *)
Definition createAccountIfAbsent (addr : AccAddress) : Keeper unit :=
  acc ← GetAccount addr;
  match acc with
  | None => SetAccount addr
  | Some _ => mret ()
  end.

(** [SendCoins]. *)
Definition SendCoins (fromAddr toAddr : AccAddress) (amt : Coins)
    : Keeper unit :=
  subUnlockedCoins fromAddr amt ;;
  sendCoins ← deflationaryCoins fromAddr toAddr amt;
  addCoins toAddr sendCoins ;;
  createAccountIfAbsent toAddr.

(** The body of the first loop of [InputOutputCoins]: debit one input. *)
Definition inputLeg (i : Input.t) : Keeper unit :=
  match AccAddressFromBech32 k (Input.Address i) with
  | None => throw (ErrInvalidAddress (Input.Address i))
  | Some inAddress => subUnlockedCoins inAddress (Input.Coins i)
  end.

(** The body of the second loop of [InputOutputCoins]: split and credit one
    output.  The sender handed to the split is the empty address. *)
Definition outputLeg (out : Output.t) : Keeper unit :=
  match AccAddressFromBech32 k (Output.Address out) with
  | None => throw (ErrInvalidAddress (Output.Address out))
  | Some outAddress =>
      sendCoins ← deflationaryCoins emptyAccAddress outAddress
                    (Output.Coins out);
      addCoins outAddress sendCoins ;;
      createAccountIfAbsent outAddress
  end.

(** [InputOutputCoins]. *)
Definition InputOutputCoins (inputs : list Input.t)
    (outputs : list Output.t) : Keeper unit :=
  match ValidateInputsOutputs inputs outputs with
  | Some err => throw err
  | None => forEach inputs inputLeg ;; forEach outputs outputLeg
  end.

(** The loop of [InitGenesis] over the sanitized balances: every balance is
    written and added to the running total. *)
Fixpoint initGenesisBalances (bals : list Balance.t) (totalSupply : Coins)
    : Keeper Coins :=
  match bals with
  | [] => mret totalSupply
  | balance :: rest =>
      match AccAddressFromBech32 k (Balance.Address balance) with
      | None => panic (PanicGenesisAddress (Balance.Address balance))
      | Some addr =>
          orPanic (initBalances addr (Balance.Coins balance))
            PanicGenesisBalances ;;
          initGenesisBalances rest
            (Coins_Add totalSupply (Balance.Coins balance))
      end
  end.

(** [InitGenesis].  The sum of the two pools is computed and dropped, as in
    the source: [moduleHoldingsInt] remains the empty set. *)
Definition InitGenesis (genState : GenesisState.t) : Keeper unit :=
  SetParams (GenesisState.Params genState) ;;
  let bals := SanitizeGenesisBalances k (GenesisState.Balances genState) in
  totalSupply ← initGenesisBalances bals [];
  let moduleHoldingsInt : Coins := [] in
  let _ := Coins_Add
             (Coins_Add moduleHoldingsInt (GenesisState.LiquidityPool genState))
             (GenesisState.FeeTaxPool genState) in
  let totalSupply := Coins_Add totalSupply moduleHoldingsInt in
  if negb (Coins_Empty (GenesisState.Supply genState))
     && negb (Coins_IsEqual (GenesisState.Supply genState) totalSupply)
  then panic (PanicGenesisSupply (GenesisState.Supply genState) totalSupply)
  else
    forEach totalSupply setSupply ;;
    forEach (GenesisState.FeeTaxPool genState) setFeeTaxPool ;;
    forEach (GenesisState.LiquidityPool genState) setLiquidityPool ;;
    forEach (GenesisState.DenomMetadata genState) SetDenomMetaData ;;
    match GetModuleAccount k ModuleName with
    | None => panic (PanicModuleAccountNotSet ModuleName)
    | Some moduleAcc =>
        bs ← GetAllBalances (ModuleAccount.Address moduleAcc);
        (if Coins_IsZero bs
         then SetAccount (ModuleAccount.Address moduleAcc)
         else mret ()) ;;
        if negb (Coins_IsEqual bs moduleHoldingsInt)
        then panic (PanicModuleHoldings bs moduleHoldingsInt)
        else mret ()
    end.
End WithCollaborators.
End Keeper.


Import Sdk Types Keeper.

(** ** Reasoning about keeper methods *)

(** The store a method leaves, whatever its outcome. *)
Definition storeAfter {A} (r : Result A) : State :=
  match r with
  | Ret _ s => s
  | Fail _ s => s
  | Panicked _ s => s
  end.

(** A method keeps a relation between the store before and the store after,
    on every outcome. *)
Definition Keeps {A} (R : relation State) (m : Keeper A) : Prop :=
  ∀ s, R s (storeAfter (m s)).

(** No zero amount is held under any key of a store. *)
Definition NoZeroStored `{Countable K} (m : gmap K Z) : Prop :=
  map_Forall (λ _ v, v ≠ 0) m.

Definition StoresNoZero (s : State) : Prop :=
  NoZeroStored (balances s) ∧ NoZeroStored (supply s)
  ∧ NoZeroStored (liquidityPool s) ∧ NoZeroStored (feeTaxPool s).

(** A store without zero entries stays so. *)
Definition KeepsNoZero (s s' : State) : Prop :=
  StoresNoZero s → StoresNoZero s'.

(** Only the balance store differs. *)
Definition OnlyBalances (s s' : State) : Prop :=
  paramSpace s' = paramSpace s ∧ supply s' = supply s
  ∧ liquidityPool s' = liquidityPool s ∧ feeTaxPool s' = feeTaxPool s
  ∧ denomMetaData s' = denomMetaData s ∧ accounts s' = accounts s.

(** A denomination applies to a transfer when some rule of the list does:
    exactly the case in which the inner loop of [deflationaryCoins] sets
    [isDeflationary]. *)
Definition applicable (rules : list SupportDeflationary.t)
    (from to : AccAddress) (denom : string) : bool :=
  existsb (λ deflationary, ruleApplies deflationary from to denom) rules.

(** The entries of a denomination in the supply and in both pools agree. *)
Definition SameAt (denom : string) (s s' : State) : Prop :=
  supply s' !! denom = supply s !! denom
  ∧ liquidityPool s' !! denom = liquidityPool s !! denom
  ∧ feeTaxPool s' !! denom = feeTaxPool s !! denom.

(** Both pools are as they were, when they held no zero entry. *)
Definition PoolsKept (s s' : State) : Prop :=
  NoZeroStored (liquidityPool s) → NoZeroStored (feeTaxPool s) →
  liquidityPool s' = liquidityPool s ∧ feeTaxPool s' = feeTaxPool s.

(** The balance of an address in a denomination (zero without an entry) and
    what the address can spend of it: the balance less the locked amount. *)
Definition balanceOf (s : State) (addr : AccAddress) (denom : string) : Z :=
  default 0 (balances s !! (addr, denom)).

Definition spendableOf (k : Collaborators) (s : State) (addr : AccAddress)
    (denom : string) : Z :=
  balanceOf s addr denom - Coins_AmountOf (LockedCoins k addr) denom.

(** The locked amount of a denomination lies between zero and the balance:
    the case in which computing the spendable coin does not abort. *)
Definition lockedWithinBalance (k : Collaborators) (s : State)
    (addr : AccAddress) (denom : string) : Prop :=
  0 ≤ Coins_AmountOf (LockedCoins k addr) denom ≤ balanceOf s addr denom.

(** A method fails with errors of a given kind only. *)
Definition FailsOnlyWith {A} (P : Error → Prop) (m : Keeper A) : Prop :=
  ∀ s e s', m s = Fail e s' → P e.

(** The errors of the debit and of the credit. *)
Definition coinsOrFunds (e : Error) : Prop :=
  match e with
  | ErrInvalidCoins _ | ErrInsufficientFunds _ _ => True
  | _ => False
  end.

(** ** Parameter validation and update ([x/bank/types/params.go]) *)
Module ParamsValidation.

(** The errors of the parameter validators. *)
Inductive ParamError :=
| DuplicateSendEnabled (denom : string)
| DuplicateSupportDeflationary (denom : string)
| InvalidDenom (denom : string)
| InvalidAddress (addr : string)
| BurnPercentError
| LiquidityPercentError
| FeeTaxPercentError.

(** [NewSendEnabled]. *)
Definition NewSendEnabled (denom : string) (sendEnabled : bool)
    : SendEnabled.t :=
  SendEnabled.mk denom sendEnabled.

(** [NewParams]. *)
Definition NewParams (defaultSendEnabled : bool)
    (sendEnabledParams : list SendEnabled.t)
    (supportDeflationary : list SupportDeflationary.t) : Params.t :=
  Params.mk sendEnabledParams defaultSendEnabled supportDeflationary.

(** [Params.SetSendEnabledParam]: the entries of other denominations in
    their order, then the new entry. *)
Definition SetSendEnabledParam (p : Params.t) (denom : string)
    (sendEnabled : bool) : Params.t :=
  let sendParams :=
    List.filter (λ q, negb (String.eqb (SendEnabled.Denom q) denom))
      (Params.SendEnabled p) in
  let sendParams := sendParams ++ [NewSendEnabled denom sendEnabled] in
  NewParams (Params.DefaultSendEnabled p) sendParams
    (Params.SupportDeflationary p).

Section WithCollaborators.
Variable k : Collaborators.

(** [validateSendEnabled]: [validateIsBool] accepts every boolean, so the
    denomination decides. *)
Definition validateSendEnabled (param : SendEnabled.t) : option ParamError :=
  if ValidateDenom k (SendEnabled.Denom param) then None
  else Some (InvalidDenom (SendEnabled.Denom param)).

(** The loop of [validateSendEnabledParams], [registered] being the map of
    the denominations seen so far. *)
Fixpoint validateSendEnabledFrom (registered : gset string)
    (params : list SendEnabled.t) : option ParamError :=
  match params with
  | [] => None
  | p :: rest =>
      if bool_decide (SendEnabled.Denom p ∈ registered)
      then Some (DuplicateSendEnabled (SendEnabled.Denom p))
      else match validateSendEnabled p with
           | Some err => Some err
           | None =>
               validateSendEnabledFrom ({[SendEnabled.Denom p]} ∪ registered)
                 rest
           end
  end.

(** [validateSendEnabledParams]. *)
Definition validateSendEnabledParams (params : list SendEnabled.t)
    : option ParamError :=
  validateSendEnabledFrom ∅ params.

(** [Params.Validate]: the send-enabled entries and the default flag, a
    boolean that [validateIsBool] accepts; the deflationary rules are not
    looked at. *)
Definition Validate (p : Params.t) : option ParamError :=
  validateSendEnabledParams (Params.SendEnabled p).

(** The loops of [validateSupportDeflationary] over the two whitelists: the
    first address that does not parse. *)
Definition firstBadAddress (addrs : list string) : option string :=
  List.find (λ addr, match AccAddressFromBech32 k addr with
                     | None => true
                     | Some _ => false
                     end) addrs.

(** [validateSupportDeflationary].  A [Dec] of the embedding is never nil,
    so [validateSdkDec] is its range check. *)
Definition validateSupportDeflationary (m : SupportDeflationary.t)
    : option ParamError :=
  if negb (ValidateDenom k (SupportDeflationary.Denom m))
  then Some (InvalidDenom (SupportDeflationary.Denom m))
  else match firstBadAddress (SupportDeflationary.WhitelistedFrom m) with
  | Some addr => Some (InvalidAddress addr)
  | None =>
  match firstBadAddress (SupportDeflationary.WhitelistedTo m) with
  | Some addr => Some (InvalidAddress addr)
  | None =>
      if negb (validateSdkDec (SupportDeflationary.BurnPercent m))
      then Some BurnPercentError
      else if negb (validateSdkDec (SupportDeflationary.LiquidityPercent m))
      then Some LiquidityPercentError
      else if negb (validateSdkDec (SupportDeflationary.FeeTaxPercent m))
      then Some FeeTaxPercentError
      else None
  end end.

(** The loop of [validateSupportDeflationaryParams]. *)
Fixpoint validateSupportDeflationaryFrom (registered : gset string)
    (params : list SupportDeflationary.t) : option ParamError :=
  match params with
  | [] => None
  | p :: rest =>
      if bool_decide (SupportDeflationary.Denom p ∈ registered)
      then Some (DuplicateSupportDeflationary (SupportDeflationary.Denom p))
      else match validateSupportDeflationary p with
           | Some err => Some err
           | None =>
               validateSupportDeflationaryFrom
                 ({[SupportDeflationary.Denom p]} ∪ registered) rest
           end
  end.

(** [validateSupportDeflationaryParams]. *)
Definition validateSupportDeflationaryParams
    (params : list SupportDeflationary.t) : option ParamError :=
  validateSupportDeflationaryFrom ∅ params.

End WithCollaborators.
End ParamsValidation.

(** ** The pool-spend proposal handler ([x/bank/keeper], proposal handler) *)
Module ProposalHandler.

(** [types.DeflationaryPoolSpendProposal]. *)
Record DeflationaryPoolSpendProposal := mkProposal {
  Title : string;
  Description : string;
  LiquidityRecipient : string;
  FeeTaxRecipient : string;
  LiquidityAmount : Coins;
  FeeTaxAmount : Coins
}.

(** What the handler returns: the address error, the unauthorized error, or
    the error of the distribution. *)
Inductive HandlerError :=
| HandlerInvalidAddress (text : string)
| HandlerUnauthorized (addr : AccAddress)
| HandlerDistribution (e : Error).

Inductive HandlerResult :=
| Handled (s : State)
| Refused (e : HandlerError) (s : State)
| HandlerPanicked (p : PanicMsg) (s : State).

Section WithKeeper.
Variable k : Collaborators.
(** The field [blockedAddrs] of the keeper. *)
Variable blockedAddrs : gmap string bool.
(** Modelled from the spec: [DistributeFromDeflationaryPool]
    ([keeper/keeper.go] is not among the sources), the pool distribution
    of section 4.4, taken as given. *)
Variable DistributeFromDeflationaryPool :
  AccAddress → AccAddress → Coins → Coins → Keeper unit.

(** [BlockedAddr]: the map lookup, false for an address without entry. *)
Definition BlockedAddr (addr : AccAddress) : bool :=
  default false (blockedAddrs !! addr).

(** [HandleDeflationaryPoolSpendProposal]. *)
Definition HandleDeflationaryPoolSpendProposal
    (p : DeflationaryPoolSpendProposal) (s : State) : HandlerResult :=
  match AccAddressFromBech32 k (LiquidityRecipient p) with
  | None => Refused (HandlerInvalidAddress (LiquidityRecipient p)) s
  | Some liquidityRecipient =>
      if BlockedAddr liquidityRecipient
      then Refused (HandlerUnauthorized liquidityRecipient) s
      else
        match AccAddressFromBech32 k (FeeTaxRecipient p) with
        | None => Refused (HandlerInvalidAddress (FeeTaxRecipient p)) s
        | Some feeTaxRecipient =>
            if BlockedAddr feeTaxRecipient
            then Refused (HandlerUnauthorized feeTaxRecipient) s
            else
              match DistributeFromDeflationaryPool liquidityRecipient
                      feeTaxRecipient (LiquidityAmount p) (FeeTaxAmount p) s
              with
              | Ret _ s' => Handled s'
              | Fail e s' => Refused (HandlerDistribution e) s'
              | Panicked m s' => HandlerPanicked m s'
              end
        end
  end.

End WithKeeper.
End ProposalHandler.

(** ** Quantities of the ledger *)

(** The sum of the balance entries of a denomination over all addresses. *)
Definition balancesTotal (m : gmap (AccAddress * string) Z) (denom : string)
    : Z :=
  map_fold (λ key v acc, if decide (key.2 = denom) then v + acc else acc) 0 m.

(** The supply of a denomination, zero without an entry. *)
Definition supplyOf (s : State) (denom : string) : Z :=
  default 0 (supply s !! denom).

(** The amount of a denomination in a slice of coins, all its coins of that
    denomination counted. *)
Definition amountIn (denom : string) (coins : Coins) : Z :=
  foldr (λ c acc, if decide (Denom c = denom) then Amount c + acc else acc)
    0 coins.

(** The store entry that a setter leaves for an amount. *)
Definition entryFor (amount : Z) : option Z :=
  if amount =? 0 then None else Some amount.

(** A coin passes the loop of the split: it has no applying rule, or its
    name validates, its three portions are non-negative and they do not
    exceed its amount. *)
Definition splitFits (k : Collaborators) (rules : list SupportDeflationary.t)
    (from to : AccAddress) (coin : Coin) : Prop :=
  match rulePortions rules from to coin with
  | None => True
  | Some p =>
      ValidateDenom k (Denom coin) = true
      ∧ 0 ≤ burnAmount p ∧ 0 ≤ liquidityAmount p ∧ 0 ≤ feeTarAmount p
      ∧ burnAmount p + liquidityAmount p + feeTarAmount p ≤ Amount coin
  end.

(** The share a rule takes of an amount. *)
Definition shareOf (amount : Z) (rule : SupportDeflationary.t) : Z :=
  Z.quot (amount * SupportDeflationary.LiquidityPercent rule) precisionReuse.

(** What a run moves in the ledger of a denomination: the change of the sum
    of its balance entries and the change of its supply. *)
Definition LedgerMove (denom : string) (dBalances dSupply : Z)
    (s s' : State) : Prop :=
  balancesTotal (balances s') denom
  = balancesTotal (balances s) denom + dBalances
  ∧ supplyOf s' denom = supplyOf s denom + dSupply.

(** Only the two pool stores differ. *)
Definition OnlyPools (s s' : State) : Prop :=
  paramSpace s' = paramSpace s ∧ balances s' = balances s
  ∧ supply s' = supply s ∧ denomMetaData s' = denomMetaData s
  ∧ accounts s' = accounts s.

(** The parameters, the denomination metadata and the accounts are as they
    were. *)
Definition SameSetup (s s' : State) : Prop :=
  paramSpace s' = paramSpace s ∧ denomMetaData s' = denomMetaData s
  ∧ accounts s' = accounts s.

(** A method returns without error from every store. *)
Definition Returns {A} (m : Keeper A) : Prop :=
  ∀ s, ∃ a s', m s = Ret a s'.

(** The parameters and the denomination metadata are as they were. *)
Definition SameParams (s s' : State) : Prop :=
  paramSpace s' = paramSpace s ∧ denomMetaData s' = denomMetaData s.

(** ** Worked configurations *)
Module Scenario.

Definition denomOk (denom : string) : bool :=
  Nat.leb 3 (String.length denom).

Definition bankAccount : ModuleAccount.t :=
  ModuleAccount.mk "bankmodule" [Burner].

(** Collaborators with the bank module account registered as a burner, no
    locked coins, and every non-empty address text accepted. *)
Definition collaborators : Collaborators :=
  mkCollaborators denomOk
    (λ text, if String.eqb text "" then None else Some text)
    (λ _, [])
    (λ name, if String.eqb name ModuleName then Some bankAccount else None)
    (λ bals, bals).

(** The same collaborators without any module account. *)
Definition collaboratorsNoBank : Collaborators :=
  mkCollaborators denomOk
    (λ text, if String.eqb text "" then None else Some text)
    (λ _, [])
    (λ _, None)
    (λ bals, bals).

Definition foo (amount : Z) : Coin := NewCoinRaw "foo" amount.
Definition bar (amount : Z) : Coin := NewCoinRaw "bar" amount.

(** The rule of the keeper test [TestSendCoins_deflationaryCoins]: burn 10%,
    liquidity 5%, fee tax 5%, here with the recipient whitelisted. *)
Definition testRule : SupportDeflationary.t :=
  SupportDeflationary.mk "foo" true [] ["addr2"]
    (NewDecWithPrec 10 2) (NewDecWithPrec 5 2) (NewDecWithPrec 5 2).

(** The rule of the scenario of the specification: burn 0%, liquidity 5%,
    fee tax 5%. *)
Definition specRule : SupportDeflationary.t :=
  SupportDeflationary.mk "foo" true [] ["addr2"]
    0 (NewDecWithPrec 5 2) (NewDecWithPrec 5 2).

(** A rule diverting half of the amount three times over. *)
Definition halfRule : SupportDeflationary.t :=
  SupportDeflationary.mk "foo" true [] ["addr2"]
    0 (NewDecWithPrec 50 2) 0.

(** A rule whose [WhitelistedFrom] list exempts the sender [addr1]:
    liquidity 10%. *)
Definition exemptSenderRule : SupportDeflationary.t :=
  SupportDeflationary.mk "foo" true ["addr1"] ["addr2"]
    0 (NewDecWithPrec 10 2) 0.

(** [addr1] holds 100 foo; nothing else is stored. *)
Definition funded (params : Params.t) : State :=
  mkState params {[ ("addr1", "foo") := 100 ]} {[ "foo" := 100 ]}
    ∅ ∅ ∅ {[ "addr1" ]}.

(** [addr1] holds 100 foo, and both pools already hold foo, backed by the
    balance of the module account. *)
Definition fundedWithPools : State :=
  mkState (Params.mk [] true [specRule])
    {[ ("addr1", "foo") := 100; ("bankmodule", "foo") := 17 ]}
    {[ "foo" := 117 ]} {[ "foo" := 10 ]} {[ "foo" := 7 ]} ∅
    {[ "addr1"; "bankmodule" ]}.

(** [addr1] holds 10 bar and 20 foo. *)
Definition twoDenoms : State :=
  mkState Params.DefaultParams
    {[ ("addr1", "bar") := 10; ("addr1", "foo") := 20 ]}
    {[ "bar" := 10; "foo" := 20 ]} ∅ ∅ ∅ {[ "addr1" ]}.

(** Sending is disabled for every denomination. *)
Definition sendDisabled : Params.t := Params.mk [] false [].

Definition emptyStore : State :=
  mkState Params.DefaultParams ∅ ∅ ∅ ∅ ∅ ∅.

(** A genesis state whose stated supply is the sum of the balances and of
    both pools. *)
Definition genesisWithPools : GenesisState.t :=
  GenesisState.mk Params.DefaultParams
    [Balance.mk "addr1" [foo 100]] [foo 105] [foo 3] [foo 2] [].

(** A genesis state whose stated supply leaves both pools out. *)
Definition genesisWithoutPools : GenesisState.t :=
  GenesisState.mk Params.DefaultParams
    [Balance.mk "addr1" [foo 100]] [foo 100] [foo 3] [foo 2] [].

End Scenario.

Lemma bind_unfold {A B} (m : Keeper A) (f : A → Keeper B) (s : State) :
  (m ≫= f) s =
  match m s with
  | Ret a s' => f a s'
  | Fail e s' => Fail e s'
  | Panicked p s' => Panicked p s'
  end.
Proof. reflexivity. Qed.

Lemma bind_Ret_inv {A B} (m : Keeper A) (f : A → Keeper B) s b s2 :
  (m ≫= f) s = Ret b s2 → ∃ a s1, m s = Ret a s1 ∧ f a s1 = Ret b s2.
Proof.
  rewrite bind_unfold. destruct (m s) as [a s1|e s1|p s1]; [eauto|done..].
Qed.

Lemma Keeps_ret {A} (R : relation State) `{!Reflexive R} (a : A) :
  Keeps R (mret a : Keeper A).
Proof. intros s. simpl. reflexivity. Qed.

Lemma Keeps_throw {A} (R : relation State) `{!Reflexive R} e :
  Keeps R (throw e : Keeper A).
Proof. intros s. simpl. reflexivity. Qed.

Lemma Keeps_panic {A} (R : relation State) `{!Reflexive R} p :
  Keeps R (panic p : Keeper A).
Proof. intros s. simpl. reflexivity. Qed.

Lemma Keeps_gets {A} (R : relation State) `{!Reflexive R} (f : State → A) :
  Keeps R (gets f).
Proof. intros s. simpl. reflexivity. Qed.

Lemma Keeps_liftCoin {A} (R : relation State) `{!Reflexive R}
    (r : CoinPanic + A) :
  Keeps R (liftCoin r).
Proof. destruct r; intros s; simpl; reflexivity. Qed.

Lemma Keeps_bind {A B} (R : relation State) `{!Transitive R}
    (m : Keeper A) (f : A → Keeper B) :
  Keeps R m → (∀ a, Keeps R (f a)) → Keeps R (m ≫= f).
Proof.
  intros Hm Hf s. rewrite bind_unfold. specialize (Hm s).
  destruct (m s) as [a s1|e s1|p s1]; simpl in *; [|done..].
  etrans; [exact Hm|apply Hf].
Qed.

Lemma Keeps_forEach {A} (R : relation State) `{!PreOrder R}
    (l : list A) (body : A → Keeper unit) :
  (∀ x, x ∈ l → Keeps R (body x)) → Keeps R (forEach l body).
Proof.
  induction l as [|x l IH]; intros Hb; simpl.
  - apply Keeps_ret, _.
  - apply Keeps_bind; [apply _|apply Hb; left|].
    intros _. apply IH. intros y Hy. apply Hb. by right.
Qed.

Lemma Keeps_orPanic {A} (R : relation State) (m : Keeper A) f :
  Keeps R m → Keeps R (orPanic m f).
Proof.
  intros Hm s. specialize (Hm s). unfold orPanic.
  by destruct (m s).
Qed.

#[local] Instance OnlyBalances_preorder : PreOrder OnlyBalances.
Proof.
  split.
  - by intros s.
  - intros s1 s2 s3 (?&?&?&?&?&?) (?&?&?&?&?&?).
    unfold OnlyBalances. repeat split; congruence.
Qed.

(** ** The fixed-point product of the split *)

Lemma precisionReuse_pos : 0 < precisionReuse.
Proof. reflexivity. Qed.

Lemma chopPrecisionAndRound_exact (n : Z) :
  chopPrecisionAndRound (n * precisionReuse) = n.
Proof.
  unfold chopPrecisionAndRound.
  pose proof precisionReuse_pos as HP.
  rewrite Z.abs_mul, (Z.abs_eq precisionReuse) by lia.
  rewrite Z.quot_mul, Z.rem_mul by lia. simpl.
  destruct (Z.ltb_spec (n * precisionReuse) 0); nia.
Qed.

(** An integer amount times a percentage, truncated: the product of the
    mantissas is exact and only [TruncateInt] loses digits, toward zero. *)
Lemma truncated_share (amount : Z) (percent : Dec) :
  Dec_TruncateInt (Dec_Mul (NewDecFromInt amount) percent)
  = Z.quot (amount * percent) precisionReuse.
Proof.
  unfold Dec_TruncateInt, Dec_Mul, NewDecFromInt.
  replace (amount * precisionReuse * percent)
    with (amount * percent * precisionReuse) by lia.
  by rewrite chopPrecisionAndRound_exact.
Qed.

(** A validated percentage takes a share between zero and the amount. *)
Lemma truncated_share_bounds (amount : Z) (percent : Dec) :
  validateSdkDec percent = true → 0 ≤ amount →
  0 ≤ Z.quot (amount * percent) precisionReuse ≤ amount.
Proof.
  unfold validateSdkDec, OneDec. rewrite andb_true_iff, !negb_true_iff.
  intros [Hlo%Z.ltb_ge Hhi%Z.ltb_ge] Ha.
  pose proof precisionReuse_pos as HP. split.
  - apply Z.quot_pos; nia.
  - rewrite <- (Z.quot_mul amount precisionReuse) at 2 by lia.
    apply Z.quot_le_mono; nia.
Qed.

(** ** Zero amounts are never persisted *)

#[local] Instance KeepsNoZero_preorder : PreOrder KeepsNoZero.
Proof. split; unfold KeepsNoZero; [by intros s|intros s1 s2 s3; tauto]. Qed.

Lemma NoZeroStored_write `{Countable K} (m : gmap K Z) (key : K) (v : Z) :
  NoZeroStored m →
  NoZeroStored (if v =? 0 then delete key m else <[key:=v]> m).
Proof.
  intros Hm. destruct (Z.eqb_spec v 0).
  - by apply map_Forall_delete.
  - by apply map_Forall_insert_2.
Qed.

Lemma lookup_write `{Countable K} (m : gmap K Z) (key : K) (v : Z) :
  (if v =? 0 then delete key m else <[key:=v]> m) !! key
  = if v =? 0 then None else Some v.
Proof.
  destruct (v =? 0); [apply lookup_delete_eq|apply lookup_insert_eq].
Qed.

Lemma lookup_write_ne `{Countable K} (m : gmap K Z) (key key' : K) (v : Z) :
  key ≠ key' →
  (if v =? 0 then delete key m else <[key:=v]> m) !! key' = m !! key'.
Proof.
  intros. destruct (v =? 0);
    [by apply lookup_delete_ne|by apply lookup_insert_ne].
Qed.

Lemma setBalance_eq (k : Collaborators) addr (c : Coin) s :
  setBalance k addr c s =
  if Coin_IsValid (ValidateDenom k) c
  then Ret () (with_balances
                 (if Amount c =? 0 then delete (addr, Denom c) (balances s)
                  else <[(addr, Denom c) := Amount c]> (balances s)) s)
  else Fail (ErrInvalidCoins [c]) s.
Proof.
  unfold setBalance, Coin_IsZero.
  destruct (Coin_IsValid _ c); simpl; [|done].
  by destruct (Amount c =? 0).
Qed.

Lemma setSupply_eq (c : Coin) s :
  setSupply c s =
  Ret () (with_supply
            (if Amount c =? 0 then delete (Denom c) (supply s)
             else <[Denom c := Amount c]> (supply s)) s).
Proof. unfold setSupply, Coin_IsZero. by destruct (Amount c =? 0). Qed.

Lemma setLiquidityPool_eq (c : Coin) s :
  setLiquidityPool c s =
  Ret () (with_liquidityPool
            (if Amount c =? 0 then delete (Denom c) (liquidityPool s)
             else <[Denom c := Amount c]> (liquidityPool s)) s).
Proof. unfold setLiquidityPool, Coin_IsZero. by destruct (Amount c =? 0). Qed.

Lemma setFeeTaxPool_eq (c : Coin) s :
  setFeeTaxPool c s =
  Ret () (with_feeTaxPool
            (if Amount c =? 0 then delete (Denom c) (feeTaxPool s)
             else <[Denom c := Amount c]> (feeTaxPool s)) s).
Proof. unfold setFeeTaxPool, Coin_IsZero. by destruct (Amount c =? 0). Qed.

Lemma setBalance_KeepsNoZero k addr c : Keeps KeepsNoZero (setBalance k addr c).
Proof.
  intros s. rewrite setBalance_eq.
  destruct (Coin_IsValid _ c); simpl; [|by intros ?].
  intros (?&?&?&?). repeat split; simpl; try done.
  by apply NoZeroStored_write.
Qed.

Lemma setSupply_KeepsNoZero c : Keeps KeepsNoZero (setSupply c).
Proof.
  intros s. rewrite setSupply_eq. simpl.
  intros (?&?&?&?). repeat split; simpl; try done.
  by apply NoZeroStored_write.
Qed.

Lemma setLiquidityPool_KeepsNoZero c : Keeps KeepsNoZero (setLiquidityPool c).
Proof.
  intros s. rewrite setLiquidityPool_eq. simpl.
  intros (?&?&?&?). repeat split; simpl; try done.
  by apply NoZeroStored_write.
Qed.

Lemma setFeeTaxPool_KeepsNoZero c : Keeps KeepsNoZero (setFeeTaxPool c).
Proof.
  intros s. rewrite setFeeTaxPool_eq. simpl.
  intros (?&?&?&?). repeat split; simpl; try done.
  by apply NoZeroStored_write.
Qed.

Lemma initBalances_KeepsNoZero k addr bs :
  Keeps KeepsNoZero (initBalances k addr bs).
Proof.
  apply Keeps_forEach; [apply _|]. intros c _ s.
  destruct (Coin_IsValid _ c); simpl; [|by intros ?].
  unfold Coin_IsZero. destruct (Z.eqb_spec (Amount c) 0); simpl; [by intros ?|].
  intros (?&?&?&?). repeat split; simpl; try done.
  by apply map_Forall_insert_2.
Qed.

Lemma modify_KeepsNoZero (f : State → State) :
  (∀ s, balances (f s) = balances s ∧ supply (f s) = supply s
        ∧ liquidityPool (f s) = liquidityPool s
        ∧ feeTaxPool (f s) = feeTaxPool s) →
  Keeps KeepsNoZero (modify f).
Proof.
  intros Hf s. simpl. destruct (Hf s) as (Hb&Hs&Hl&Hx).
  unfold KeepsNoZero, StoresNoZero. by rewrite Hb, Hs, Hl, Hx.
Qed.

(** One step of the generic proof that a method keeps a relation: split
    binds and loops, case on the tests, and close the leaves. *)
Ltac keeps_step :=
  first
    [ apply Keeps_ret; apply _
    | apply Keeps_throw; apply _
    | apply Keeps_panic; apply _
    | apply Keeps_gets; apply _
    | apply Keeps_liftCoin; apply _
    | apply Keeps_orPanic
    | apply Keeps_bind; [apply _| |intros ?]
    | apply Keeps_forEach; [apply _|intros ? _]
    | match goal with
      | |- Keeps _ (if ?b then _ else _) => destruct b
      | |- Keeps _ (let '(_, _) := ?x in _) => destruct x
      | |- Keeps _ (match ?x with _ => _ end) => destruct x
      end ].

Create HintDb keeps_nz discriminated.

#[local] Hint Resolve setBalance_KeepsNoZero setSupply_KeepsNoZero
  setLiquidityPool_KeepsNoZero setFeeTaxPool_KeepsNoZero
  initBalances_KeepsNoZero : keeps_nz.

Ltac keeps_nz :=
  repeat first
    [ solve [auto 1 with keeps_nz nocore]
    | by apply modify_KeepsNoZero
    | keeps_step ].

Lemma subUnlockedCoins_KeepsNoZero k addr amt :
  Keeps KeepsNoZero (subUnlockedCoins k addr amt).
Proof. unfold subUnlockedCoins, subUnlockedCoin, GetBalance. keeps_nz. Qed.
#[local] Hint Resolve subUnlockedCoins_KeepsNoZero : keeps_nz.

Lemma addCoins_KeepsNoZero k addr amt :
  Keeps KeepsNoZero (addCoins k addr amt).
Proof. unfold addCoins, addCoin, GetBalance. keeps_nz. Qed.
#[local] Hint Resolve addCoins_KeepsNoZero : keeps_nz.

Lemma burnCoins_KeepsNoZero k name amounts :
  Keeps KeepsNoZero (burnCoins k name amounts).
Proof.
  unfold burnCoins, burnSupply, getSupply. keeps_nz.
Qed.
#[local] Hint Resolve burnCoins_KeepsNoZero : keeps_nz.

Lemma splitLoop_KeepsNoZero k params from to amt :
  Keeps KeepsNoZero (splitLoop k params from to amt).
Proof.
  induction amt as [|coin rest IH]; simpl;
    unfold getLiquidityPool, getFeeTaxPool; keeps_nz; apply IH.
Qed.
#[local] Hint Resolve splitLoop_KeepsNoZero : keeps_nz.

Lemma deflationaryCoins_KeepsNoZero k from to amt :
  Keeps KeepsNoZero (deflationaryCoins k from to amt).
Proof.
  unfold deflationaryCoins, routeSplit, GetParams. keeps_nz.
Qed.
#[local] Hint Resolve deflationaryCoins_KeepsNoZero : keeps_nz.

Lemma createAccountIfAbsent_KeepsNoZero addr :
  Keeps KeepsNoZero (createAccountIfAbsent addr).
Proof. unfold createAccountIfAbsent, GetAccount, SetAccount. keeps_nz. Qed.
#[local] Hint Resolve createAccountIfAbsent_KeepsNoZero : keeps_nz.

Lemma SendCoins_KeepsNoZero k from to amt :
  Keeps KeepsNoZero (SendCoins k from to amt).
Proof.
  unfold SendCoins. keeps_nz.
Qed.

Lemma InputOutputCoins_KeepsNoZero k inputs outputs :
  Keeps KeepsNoZero (InputOutputCoins k inputs outputs).
Proof.
  unfold InputOutputCoins, inputLeg, outputLeg. keeps_nz.
Qed.

Lemma initGenesisBalances_KeepsNoZero k bals total :
  Keeps KeepsNoZero (initGenesisBalances k bals total).
Proof.
  revert total. induction bals as [|b rest IH]; intros total; simpl;
    keeps_nz; apply IH.
Qed.
#[local] Hint Resolve initGenesisBalances_KeepsNoZero : keeps_nz.

Lemma InitGenesis_KeepsNoZero k genState :
  Keeps KeepsNoZero (InitGenesis k genState).
Proof.
  unfold InitGenesis, SetParams, SetDenomMetaData, GetAllBalances, SetAccount.
  keeps_nz.
Qed.

(** C9. A zero amount is never persisted.  Every write through [setBalance]
    (of a valid coin), [setSupply], [setLiquidityPool] or [setFeeTaxPool]
    leaves the entry of its key absent when the amount is zero and holding
    the amount when it is not, so the entry exists exactly when the amount is
    non-zero; an invalid coin is refused by [setBalance] without a write.
    Consequently a store without zero entries stays so through [SendCoins],
    [InputOutputCoins] and [InitGenesis], whatever their outcome. *)
Theorem zero_amount_never_persisted (k : Collaborators) (addr : AccAddress)
    (c : Coin) (s : State) :
  (if Coin_IsValid (ValidateDenom k) c
   then ∃ s', setBalance k addr c s = Ret () s'
          ∧ balances s' !! (addr, Denom c)
            = (if Amount c =? 0 then None else Some (Amount c))
          ∧ (is_Some (balances s' !! (addr, Denom c)) ↔ Amount c ≠ 0)
   else setBalance k addr c s = Fail (ErrInvalidCoins [c]) s)
  ∧ (∃ s', setSupply c s = Ret () s'
       ∧ supply s' !! Denom c
         = (if Amount c =? 0 then None else Some (Amount c))
       ∧ (is_Some (supply s' !! Denom c) ↔ Amount c ≠ 0))
  ∧ (∃ s', setLiquidityPool c s = Ret () s'
       ∧ liquidityPool s' !! Denom c
         = (if Amount c =? 0 then None else Some (Amount c))
       ∧ (is_Some (liquidityPool s' !! Denom c) ↔ Amount c ≠ 0))
  ∧ (∃ s', setFeeTaxPool c s = Ret () s'
       ∧ feeTaxPool s' !! Denom c
         = (if Amount c =? 0 then None else Some (Amount c))
       ∧ (is_Some (feeTaxPool s' !! Denom c) ↔ Amount c ≠ 0))
  ∧ (StoresNoZero s →
     (∀ from to amt, StoresNoZero (storeAfter (SendCoins k from to amt s)))
     ∧ (∀ inputs outputs,
          StoresNoZero (storeAfter (InputOutputCoins k inputs outputs s)))
     ∧ (∀ genState, StoresNoZero (storeAfter (InitGenesis k genState s)))).
Proof.
  assert (Hiff : ∀ o : option Z,
    o = (if Amount c =? 0 then None else Some (Amount c)) →
    is_Some o ↔ Amount c ≠ 0).
  { intros o ->. destruct (Z.eqb_spec (Amount c) 0) as [->|Hne].
    - split; [intros [? ?]; done|done].
    - split; [done|eauto]. }
  split; [|split; [|split; [|split]]].
  - rewrite setBalance_eq. destruct (Coin_IsValid _ c); [|done].
    eexists. split; [done|]. simpl.
    pose proof (lookup_write (balances s) (addr, Denom c) (Amount c)). eauto.
  - rewrite setSupply_eq. eexists. split; [done|]. simpl.
    pose proof (lookup_write (supply s) (Denom c) (Amount c)). eauto.
  - rewrite setLiquidityPool_eq. eexists. split; [done|]. simpl.
    pose proof (lookup_write (liquidityPool s) (Denom c) (Amount c)). eauto.
  - rewrite setFeeTaxPool_eq. eexists. split; [done|]. simpl.
    pose proof (lookup_write (feeTaxPool s) (Denom c) (Amount c)). eauto.
  - intros Hs. split; [|split]; intros.
    + by apply SendCoins_KeepsNoZero.
    + by apply InputOutputCoins_KeepsNoZero.
    + by apply InitGenesis_KeepsNoZero.
Qed.

Lemma zero_amount_never_persisted_witness :
  StoresNoZero Scenario.fundedWithPools
  ∧ StoresNoZero
      (storeAfter (SendCoins Scenario.collaborators "addr1" "addr2"
                     [Scenario.foo 100] Scenario.fundedWithPools))
  ∧ balances
      (storeAfter (SendCoins Scenario.collaborators "addr1" "addr2"
                     [Scenario.foo 100] Scenario.fundedWithPools))
      !! ("addr1", "foo") = None.
Proof.
  assert (Hnz : StoresNoZero Scenario.fundedWithPools).
  { repeat split; unfold NoZeroStored; apply map_Forall_to_list;
      vm_compute; repeat constructor; discriminate. }
  split; [exact Hnz|]. split.
  - destruct (zero_amount_never_persisted Scenario.collaborators "addr1"
                (Scenario.foo 0) Scenario.fundedWithPools)
      as (_&_&_&_&Hkeep).
    destruct (Hkeep Hnz) as (Hsend&_&_). apply Hsend.
  - vm_compute. reflexivity.
Defined.

(** ** The amounts of the split *)

Lemma applyRule_fold_None rules from to coin acc :
  fold_left (applyRule from to coin) rules acc = None
  ↔ acc = None ∧ applicable rules from to (Denom coin) = false.
Proof.
  revert acc. induction rules as [|d rules IH]; intros acc; simpl.
  - tauto.
  - rewrite IH. unfold applyRule.
    destruct (ruleApplies d from to (Denom coin)); simpl; [|tauto].
    split; [intros [? _]; done|intros [_ ?]; done].
Qed.

Lemma rulePortions_None rules from to coin :
  rulePortions rules from to coin = None
  ↔ applicable rules from to (Denom coin) = false.
Proof. unfold rulePortions. rewrite applyRule_fold_None. tauto. Qed.

Lemma applyRule_fold_Some rules from to coin acc p :
  fold_left (applyRule from to coin) rules acc = Some p →
  acc = Some p
  ∨ ∃ d, d ∈ rules ∧ ruleApplies d from to (Denom coin) = true
      ∧ let share := Z.quot (Amount coin * SupportDeflationary.LiquidityPercent d)
                       precisionReuse in
        burnAmount p = share ∧ liquidityAmount p = share
        ∧ feeTarAmount p = share.
Proof.
  revert acc. induction rules as [|d rules IH]; intros acc; simpl.
  - by left.
  - intros Hf. apply IH in Hf as [Hacc|(d'&Hin&Hd')].
    + unfold applyRule in Hacc.
      destruct (ruleApplies d from to (Denom coin)) eqn:Hd; [|by left].
      right. exists d. split; [by left|]. split; [done|].
      injection Hacc as <-. simpl. by rewrite truncated_share.
    + right. exists d'. split; [by right|done].
Qed.

(** Whatever the rule, the split sets the burn amount, the liquidity amount
    and the fee-tax amount to one and the same value: the amount times the
    [LiquidityPercent] of an applying rule, truncated toward zero. *)
Lemma rulePortions_Some rules from to coin p :
  rulePortions rules from to coin = Some p →
  ∃ d, d ∈ rules ∧ ruleApplies d from to (Denom coin) = true
    ∧ let share := Z.quot (Amount coin * SupportDeflationary.LiquidityPercent d)
                     precisionReuse in
      burnAmount p = share ∧ liquidityAmount p = share
      ∧ feeTarAmount p = share.
Proof.
  intros Hp. by apply applyRule_fold_Some in Hp as [?|?].
Qed.

(** C1, evaluated on the rule of the keeper test (burn 10%, liquidity 5%,
    fee tax 5%) for a transfer of 50 foo from [addr1] to the whitelisted
    [addr2].  The burn amount the specification states is 50 x 10% = 5; the keeper
    computes 2, the liquidity share, for all three amounts: the recipient is
    credited 44 instead of 41 and the supply drops to 98 instead of 95. *)
Theorem burn_amount_computed_from_LiquidityPercent :
  let coin := Scenario.foo 50 in
  let rule := Scenario.testRule in
  Z.quot (Amount coin * SupportDeflationary.BurnPercent rule) precisionReuse = 5
  ∧ Z.quot (Amount coin * SupportDeflationary.LiquidityPercent rule)
      precisionReuse = 2
  ∧ rulePortions [rule] "addr1" "addr2" coin = Some (mkPortions 2 2 2)
  ∧ ∃ s', SendCoins Scenario.collaborators "addr1" "addr2" [coin]
            (Scenario.funded (Params.mk [] true [rule])) = Ret () s'
        ∧ balances s' !! ("addr2", "foo") = Some 44
        ∧ balances s' !! ("bankmodule", "foo") = Some 4
        ∧ supply s' !! "foo" = Some 98.
Proof.
  simpl. repeat split; try (vm_compute; reflexivity).
  eexists. split; [vm_compute; reflexivity|].
  repeat split; vm_compute; reflexivity.
Qed.

(** C2, evaluated on the scenario of the specification (liquidity 5%, fee
    tax 5%, transfer of 50 foo to the whitelisted [addr2]) with 10 foo in the
    liquidity pool and 7 foo in the fee-tax pool.  Both computed portions are
    2, hence positive, and the specification has the pools at 12 and 9
    afterwards;
    the keeper writes back what it read and both pools are as before. *)
Theorem pools_not_credited_by_split :
  rulePortions [Scenario.specRule] "addr1" "addr2" (Scenario.foo 50)
    = Some (mkPortions 2 2 2)
  ∧ ∃ s', SendCoins Scenario.collaborators "addr1" "addr2" [Scenario.foo 50]
            Scenario.fundedWithPools = Ret () s'
        ∧ liquidityPool s' !! "foo" = Some 10
        ∧ feeTaxPool s' !! "foo" = Some 7
        ∧ liquidityPool s' = liquidityPool Scenario.fundedWithPools
        ∧ feeTaxPool s' = feeTaxPool Scenario.fundedWithPools.
Proof.
  split; [vm_compute; reflexivity|].
  eexists. split; [vm_compute; reflexivity|].
  repeat split; vm_compute; reflexivity.
Qed.

(** C6, evaluated.  A genesis state whose stated supply (105 foo) is the sum
    of the balances (100 foo) and of both pools (3 and 2 foo) is refused with
    the supply panic, the total it is compared with being the balances
    alone; a genesis state whose stated supply (100 foo) leaves the pools out
    is loaded. *)
Theorem InitGenesis_compares_supply_with_balances_only :
  (∃ s', InitGenesis Scenario.collaborators Scenario.genesisWithPools
           Scenario.emptyStore
         = Panicked (PanicGenesisSupply [Scenario.foo 105] [Scenario.foo 100])
             s')
  ∧ (∃ s', InitGenesis Scenario.collaborators Scenario.genesisWithoutPools
             Scenario.emptyStore = Ret () s'
         ∧ supply s' !! "foo" = Some 100
         ∧ liquidityPool s' !! "foo" = Some 3
         ∧ feeTaxPool s' !! "foo" = Some 2
         ∧ balances s' !! ("addr1", "foo") = Some 100).
Proof.
  split.
  - eexists. vm_compute. reflexivity.
  - eexists. split; [vm_compute; reflexivity|].
    repeat split; vm_compute; reflexivity.
Qed.

(** ** Multi-send validation *)

(** C7. A call of [InputOutputCoins] whose summed inputs differ from its
    summed outputs returns the error of [ValidateInputsOutputs] and the store
    is exactly as before. *)
Theorem InputOutputCoins_rejects_mismatch (k : Collaborators)
    (inputs : list Input.t) (outputs : list Output.t) (s : State) :
  Coins_IsEqual (totalIn inputs) (totalOut outputs) = false →
  ValidateInputsOutputs inputs outputs = Some ErrInputOutputMismatch
  ∧ InputOutputCoins k inputs outputs s = Fail ErrInputOutputMismatch s.
Proof.
  intros Hne. unfold InputOutputCoins, ValidateInputsOutputs.
  by rewrite Hne.
Qed.

Lemma InputOutputCoins_rejects_mismatch_witness :
  InputOutputCoins Scenario.collaborators
    [Input.mk "addr1" [Scenario.foo 10]] [Output.mk "addr2" [Scenario.foo 5]]
    (Scenario.funded Params.DefaultParams)
  = Fail ErrInputOutputMismatch (Scenario.funded Params.DefaultParams).
Proof.
  apply (InputOutputCoins_rejects_mismatch Scenario.collaborators
           [Input.mk "addr1" [Scenario.foo 10]]
           [Output.mk "addr2" [Scenario.foo 5]]).
  vm_compute. reflexivity.
Defined.

(** ** Frames: what a method leaves alone *)

Lemma Keeps_weaken {A} (R R' : relation State) (m : Keeper A) :
  (∀ s s', R s s' → R' s s') → Keeps R m → Keeps R' m.
Proof. intros HR Hm s. apply HR, Hm. Qed.


Lemma liftCoin_Ret_inv {A} (r : CoinPanic + A) s a s' :
  liftCoin r s = Ret a s' → r = inr a ∧ s' = s.
Proof. destruct r; simpl; [done|]. by intros [= -> ->]. Qed.

Lemma NewCoin_inr (v : string → bool) denom amount c :
  NewCoin v denom amount = inr c →
  c = NewCoinRaw denom amount ∧ v denom = true ∧ 0 ≤ amount.
Proof.
  unfold NewCoin. destruct (v denom); simpl; [|done].
  destruct (Z.ltb_spec amount 0); [done|]. by intros [= <-].
Qed.


#[local] Instance SameAt_preorder denom : PreOrder (SameAt denom).
Proof.
  split.
  - by intros s.
  - intros s1 s2 s3 (?&?&?) (?&?&?). unfold SameAt.
    repeat split; congruence.
Qed.

#[local] Instance PoolsKept_preorder : PreOrder PoolsKept.
Proof.
  split.
  - by intros s.
  - intros s1 s2 s3 H12 H23 Hl Hf. destruct (H12 Hl Hf) as [E1 E2].
    rewrite <- E1 in Hl. rewrite <- E2 in Hf.
    destruct (H23 Hl Hf) as [E3 E4].
    split; congruence.
Qed.


Lemma OnlyBalances_PoolsKept s s' : OnlyBalances s s' → PoolsKept s s'.
Proof. intros (_&_&Hl&Hf&_) _ _. done. Qed.

Lemma setBalance_OnlyBalances k addr c : Keeps OnlyBalances (setBalance k addr c).
Proof.
  intros s. rewrite setBalance_eq.
  by destruct (Coin_IsValid _ c).
Qed.

Create HintDb keeps_ob discriminated.
#[local] Hint Resolve setBalance_OnlyBalances : keeps_ob.

Ltac keeps_ob :=
  repeat first [ solve [auto 1 with keeps_ob nocore] | keeps_step ].

Lemma subUnlockedCoins_OnlyBalances k addr amt :
  Keeps OnlyBalances (subUnlockedCoins k addr amt).
Proof. unfold subUnlockedCoins, subUnlockedCoin, GetBalance. keeps_ob. Qed.

Lemma addCoins_OnlyBalances k addr amt :
  Keeps OnlyBalances (addCoins k addr amt).
Proof. unfold addCoins, addCoin, GetBalance. keeps_ob. Qed.

Lemma createAccountIfAbsent_eq addr s :
  createAccountIfAbsent addr s
  = Ret () (if decide (addr ∈ accounts s) then s
            else with_accounts ({[addr]} ∪ accounts s) s).
Proof.
  unfold createAccountIfAbsent, GetAccount. rewrite bind_unfold. simpl.
  by destruct (decide (addr ∈ accounts s)).
Qed.

Lemma createAccountIfAbsent_frame addr s :
  let s' := storeAfter (createAccountIfAbsent addr s) in
  paramSpace s' = paramSpace s ∧ balances s' = balances s
  ∧ supply s' = supply s ∧ liquidityPool s' = liquidityPool s
  ∧ feeTaxPool s' = feeTaxPool s.
Proof.
  rewrite createAccountIfAbsent_eq. simpl.
  by destruct (decide (addr ∈ accounts s)).
Qed.

(** ** The outer loop of the split *)

Lemma splitLoop_sendCoins k params from to amt s r s' :
  splitLoop k params from to amt s = Ret r s' →
  length (sendCoins r) = length amt
  ∧ ∀ i coin, amt !! i = Some coin →
      ∃ net, sendCoins r !! i = Some net ∧ Denom net = Denom coin
        ∧ match rulePortions (Params.SupportDeflationary params) from to coin
          with
          | None => net = coin
          | Some p =>
              burnAmount p + liquidityAmount p + feeTarAmount p + Amount net
              = Amount coin
          end.
Proof.
  revert s r s'. induction amt as [|coin rest IH]; intros s r s' Hr.
  - simpl in Hr. injection Hr as <- <-. split; [done|]. by intros i c.
  - simpl in Hr.
    destruct (rulePortions _ from to coin) as [p|] eqn:Hp.
    + apply bind_Ret_inv in Hr as (bc&s1&_&Hr).
      apply bind_Ret_inv in Hr as (lc&s2&_&Hr).
      apply bind_Ret_inv in Hr as (fc&s3&_&Hr).
      apply bind_Ret_inv in Hr as (sc&s4&Hsc&Hr).
      apply liftCoin_Ret_inv in Hsc as [Hsc _].
      apply NewCoin_inr in Hsc as (->&_&_).
      apply bind_Ret_inv in Hr as (?&s5&_&Hr).
      apply bind_Ret_inv in Hr as (?&s6&_&Hr).
      apply bind_Ret_inv in Hr as (r'&s7&Hrest&Hr).
      injection Hr as <- <-. apply IH in Hrest as [Hlen Hrest].
      split; [simpl; by rewrite Hlen|].
      intros [|i] c Hc; simpl in *.
      * injection Hc as <-. eexists. split; [done|]. split; [done|].
        rewrite Hp. simpl. lia.
      * by apply Hrest.
    + apply bind_Ret_inv in Hr as (r'&s1&Hrest&Hr).
      injection Hr as <- <-. apply IH in Hrest as [Hlen Hrest].
      split; [simpl; by rewrite Hlen|].
      intros [|i] c Hc; simpl in *.
      * injection Hc as <-. eexists. split; [done|]. split; [done|].
        by rewrite Hp.
      * by apply Hrest.
Qed.

Lemma deflationaryCoins_Ret_inv k from to amt s net s' :
  deflationaryCoins k from to amt s = Ret net s' →
  ∃ r s1, splitLoop k (paramSpace s) from to amt s = Ret r s1
        ∧ net = sendCoins r.
Proof.
  unfold deflationaryCoins, GetParams. rewrite bind_unfold. simpl.
  rewrite bind_unfold.
  destruct (splitLoop k (paramSpace s) from to amt s) as [r s1|e s1|p s1];
    [|done..].
  unfold routeSplit.
  destruct (GetModuleAccount k ModuleName) as [acc|]; [|done].
  intros Hnet. exists r, s1. split; [done|].
  destruct (Coins_IsZero _); [by injection Hnet as <- <-|].
  apply bind_Ret_inv in Hnet as (?&s2&_&Hnet).
  destruct (Coins_IsZero _); [by injection Hnet as <- <-|].
  apply bind_Ret_inv in Hnet as (?&s3&_&Hnet).
  by injection Hnet as <- <-.
Qed.

Lemma SendCoins_Ret_inv k from to amt s s' :
  SendCoins k from to amt s = Ret () s' →
  ∃ s1 net s2 s3,
    subUnlockedCoins k from amt s = Ret () s1
    ∧ deflationaryCoins k from to amt s1 = Ret net s2
    ∧ addCoins k to net s2 = Ret () s3
    ∧ createAccountIfAbsent to s3 = Ret () s'.
Proof.
  unfold SendCoins. intros H.
  apply bind_Ret_inv in H as ([]&s1&H1&H).
  apply bind_Ret_inv in H as (net&s2&H2&H).
  apply bind_Ret_inv in H as ([]&s3&H3&H).
  by exists s1, net, s2, s3.
Qed.


(** ** Denominations without an applying rule *)










(** Without an applying rule the loop leaves the coins and the store as they
    are and accumulates nothing. *)
Lemma splitLoop_not_applicable k params from to amt s :
  (∀ coin, coin ∈ amt →
     applicable (Params.SupportDeflationary params) from to (Denom coin)
     = false) →
  splitLoop k params from to amt s = Ret (mkSplit amt [] [] []) s.
Proof.
  induction amt as [|coin rest IH]; intros Hna; simpl; [done|].
  assert (rulePortions (Params.SupportDeflationary params) from to coin = None)
    as ->.
  { apply rulePortions_None, Hna. by left. }
  rewrite bind_unfold, IH; [done|].
  intros c Hc. apply Hna. by right.
Qed.

Lemma deflationaryCoins_not_applicable k from to amt s :
  (∀ coin, coin ∈ amt →
     applicable (Params.SupportDeflationary (paramSpace s)) from to
       (Denom coin) = false) →
  deflationaryCoins k from to amt s =
  match GetModuleAccount k ModuleName with
  | None => Panicked (PanicUnknownAddress ModuleName) s
  | Some _ => Ret amt s
  end.
Proof.
  intros Hna. unfold deflationaryCoins, GetParams. rewrite bind_unfold.
  simpl. rewrite bind_unfold, splitLoop_not_applicable by done.
  unfold routeSplit. by destruct (GetModuleAccount k ModuleName).
Qed.


(** ** Denomination order and valid coin sets *)

Lemma String_compare_refl (d : string) : (d ?= d)%string = Eq.
Proof.
  induction d as [|a d IH]; simpl; [done|].
  unfold Ascii.compare. by rewrite N.compare_refl.
Qed.

Lemma String_ltb_le (a b : string) : String.ltb a b = true → String.le a b.
Proof.
  unfold String.ltb, String.le, String.leb.
  by destruct (a ?= b)%string.
Qed.

Lemma String_ltb_ne (a b : string) : String.ltb a b = true → a ≠ b.
Proof.
  intros Hlt ->. unfold String.ltb in Hlt.
  by rewrite String_compare_refl in Hlt.
Qed.

Lemma String_le_ne_ltb (a b : string) :
  String.le a b → a ≠ b → String.ltb a b = true.
Proof.
  unfold String.ltb, String.le, String.leb. intros Hle Hne.
  destruct (a ?= b)%string eqn:Hc; [|done..].
  by apply String.compare_eq_iff in Hc.
Qed.

Lemma String_ltb_trans (a b c : string) :
  String.ltb a b = true → String.ltb b c = true → String.ltb a c = true.
Proof.
  intros Hab Hbc. apply String_le_ne_ltb.
  - etrans; by apply String_ltb_le.
  - intros ->. apply (String_ltb_ne _ _ Hab).
    apply (anti_symm String.le); by apply String_ltb_le.
Qed.

Lemma Coins_IsValid_from_spec (v : string → bool) low coins :
  Coins_IsValid_from v low coins = true →
  Forall (λ c, String.ltb low (Denom c) = true) coins
  ∧ NoDup (Denom <$> coins)
  ∧ Forall (λ c, v (Denom c) = true ∧ 0 < Amount c) coins.
Proof.
  revert low. induction coins as [|c coins IH]; intros low; simpl.
  - intros _. repeat split; constructor.
  - rewrite !andb_true_iff. intros [[[Hv Hlt] Hpos] Hrest].
    apply IH in Hrest as (Hlow&Hnd&Hall). apply Z.ltb_lt in Hpos.
    repeat split.
    + constructor; [done|]. eapply Forall_impl; [exact Hlow|].
      intros x Hx. by eapply String_ltb_trans.
    + constructor; [|done]. intros (x&Hx&Hin)%list_elem_of_fmap.
      rewrite Forall_forall in Hlow. apply Hlow in Hin.
      rewrite <- Hx in Hin. by apply String_ltb_ne in Hin.
    + by constructor.
Qed.

Lemma Coins_IsValid_spec (v : string → bool) coins :
  Coins_IsValid v coins = true →
  NoDup (Denom <$> coins)
  ∧ Forall (λ c, v (Denom c) = true ∧ 0 < Amount c) coins.
Proof.
  destruct coins as [|c coins]; simpl.
  - intros _. split; constructor.
  - rewrite !andb_true_iff. intros [[Hv Hpos] Hrest].
    apply Coins_IsValid_from_spec in Hrest as (Hlow&Hnd&Hall).
    apply Z.ltb_lt in Hpos. split.
    + constructor; [|done]. intros (x&Hx&Hin)%list_elem_of_fmap.
      rewrite Forall_forall in Hlow. apply Hlow in Hin.
      rewrite <- Hx in Hin. by apply String_ltb_ne in Hin.
    + by constructor.
Qed.

(** ** The debit of the sender *)

Lemma Coins_SafeSub_single (spendable coin : Coin) :
  Denom spendable = Denom coin →
  (Coins_SafeSub [spendable] [coin]).2
  = (Amount spendable - Amount coin <? 0).
Proof.
  intros Hd. unfold Coins_SafeSub. simpl.
  rewrite Hd, String_compare_refl.
  unfold consNonZero, Coin_IsZero. simpl.
  replace (Amount spendable + - Amount coin)
    with (Amount spendable - Amount coin) by lia.
  destruct (Z.eqb_spec (Amount spendable - Amount coin) 0) as [->|]; simpl.
  - done.
  - unfold Coin_IsNegative. simpl. by rewrite orb_false_r.
Qed.

Lemma liftCoin_NewCoin_Ret (v : string → bool) denom amount s :
  v denom = true → 0 ≤ amount →
  liftCoin (NewCoin v denom amount) s = Ret (NewCoinRaw denom amount) s.
Proof.
  intros Hv Ha. unfold NewCoin. rewrite Hv. simpl.
  by destruct (Z.ltb_spec amount 0); [lia|].
Qed.

Lemma liftCoin_Coin_Sub_Ret (a b : Coin) s :
  Denom a = Denom b → Amount b ≤ Amount a →
  liftCoin (Coin_Sub a b) s
  = Ret (NewCoinRaw (Denom a) (Amount a - Amount b)) s.
Proof.
  intros Hd Hab. unfold Coin_Sub. rewrite Hd, String.eqb_refl. simpl.
  by destruct (Z.ltb_spec (Amount a - Amount b) 0); [lia|].
Qed.

(** The debit of one coin: it fails when the spendable amount falls short of
    the coin and otherwise rewrites the balance entry. *)
Lemma subUnlockedCoin_eq k addr coin s :
  ValidateDenom k (Denom coin) = true →
  lockedWithinBalance k s addr (Denom coin) →
  subUnlockedCoin k addr (LockedCoins k addr) coin s =
  if spendableOf k s addr (Denom coin) <? Amount coin
  then Fail (ErrInsufficientFunds
               (NewCoinRaw (Denom coin) (spendableOf k s addr (Denom coin)))
               coin) s
  else
    let rest := balanceOf s addr (Denom coin) - Amount coin in
    Ret () (with_balances
              (if rest =? 0 then delete (addr, Denom coin) (balances s)
               else <[(addr, Denom coin) := rest]> (balances s)) s).
Proof.
  intros Hv [Hl0 Hlb]. unfold subUnlockedCoin. rewrite bind_unfold.
  change (GetBalance addr (Denom coin) s)
    with (Ret (NewCoinRaw (Denom coin) (balanceOf s addr (Denom coin))) s).
  cbv beta iota.
  rewrite bind_unfold, liftCoin_NewCoin_Ret by done. cbv beta iota.
  rewrite bind_unfold, liftCoin_Coin_Sub_Ret by done. cbv beta iota.
  cbn [Denom Amount]. fold (spendableOf k s addr (Denom coin)).
  pose proof (Coins_SafeSub_single
    (NewCoinRaw (Denom coin) (spendableOf k s addr (Denom coin))) coin eq_refl)
    as Hss.
  destruct (Coins_SafeSub _ _) as [diff hasNeg]. cbn [snd Amount] in Hss.
  subst hasNeg.
  destruct (Z.ltb_spec (spendableOf k s addr (Denom coin)) (Amount coin)).
  - by destruct (Z.ltb_spec (spendableOf k s addr (Denom coin) - Amount coin) 0);
      [|lia].
  - destruct (Z.ltb_spec (spendableOf k s addr (Denom coin) - Amount coin) 0);
      [lia|].
    rewrite bind_unfold, liftCoin_Coin_Sub_Ret
      by (cbn [Denom Amount]; first [done|unfold spendableOf in *; lia]).
    cbv beta iota. cbn [Denom Amount]. rewrite setBalance_eq.
    unfold Coin_IsValid. cbn [Denom Amount]. rewrite Hv.
    by destruct (Z.leb_spec 0 (balanceOf s addr (Denom coin) - Amount coin));
      [|unfold spendableOf in *; lia].
Qed.

Lemma balanceOf_write s addr denom v addr' denom' :
  (addr', denom') ≠ (addr, denom) →
  balanceOf
    (with_balances
       (if v =? 0 then delete (addr, denom) (balances s)
        else <[(addr, denom) := v]> (balances s)) s) addr' denom'
  = balanceOf s addr' denom'.
Proof.
  intros Hne. unfold balanceOf. simpl. by rewrite lookup_write_ne.
Qed.

Lemma balanceOf_write_eq s addr denom v :
  balanceOf
    (with_balances
       (if v =? 0 then delete (addr, denom) (balances s)
        else <[(addr, denom) := v]> (balances s)) s) addr denom
  = v.
Proof.
  unfold balanceOf. simpl. rewrite lookup_write.
  by destruct (Z.eqb_spec v 0) as [->|].
Qed.

(** The loop of [subUnlockedCoins] up to the first coin that is short. *)
Lemma subUnlockedLoop_short k addr pre c post s :
  NoDup (Denom <$> pre ++ c :: post) →
  (∀ x, x ∈ pre ++ [c] → ValidateDenom k (Denom x) = true) →
  (∀ x, x ∈ pre ++ [c] → lockedWithinBalance k s addr (Denom x)) →
  (∀ x, x ∈ pre → Amount x ≤ spendableOf k s addr (Denom x)) →
  spendableOf k s addr (Denom c) < Amount c →
  ∃ s',
    forEach (pre ++ c :: post) (subUnlockedCoin k addr (LockedCoins k addr)) s
    = Fail (ErrInsufficientFunds
              (NewCoinRaw (Denom c) (spendableOf k s addr (Denom c))) c) s'
    ∧ OnlyBalances s s'
    ∧ (∀ addr' denom, addr' ≠ addr ∨ denom ∉ Denom <$> pre →
         balances s' !! (addr', denom) = balances s !! (addr', denom))
    ∧ (∀ x, x ∈ pre →
         balanceOf s' addr (Denom x) = balanceOf s addr (Denom x) - Amount x)
    ∧ (pre = [] → s' = s).
Proof.
  revert s. induction pre as [|x pre IH]; intros s Hnd Hv Hl Hsp Hshort.
  - assert (Hc : c ∈ [] ++ [c]) by (simpl; by left).
    exists s. simpl. rewrite bind_unfold.
    rewrite subUnlockedCoin_eq by (first [by apply Hv|by apply Hl]).
    destruct (Z.ltb_spec (spendableOf k s addr (Denom c)) (Amount c)); [|lia].
    split; [done|]. split; [reflexivity|]. split; [done|].
    split; [by intros ? ?%elem_of_nil|done].
  - assert (Hx0 : x ∈ (x :: pre) ++ [c]) by (simpl; by left).
    assert (Hup : ∀ y, y ∈ pre ++ [c] → y ∈ (x :: pre) ++ [c])
      by (intros y Hy; simpl; by right).
    assert (Hin : ∀ y, y ∈ pre ++ [c] → y ∈ pre ++ c :: post).
    { intros y. rewrite !elem_of_app, list_elem_of_singleton, elem_of_cons.
      tauto. }
    assert (Hpre : ∀ y, y ∈ pre → y ∈ pre ++ [c])
      by (intros y Hy; apply elem_of_app; by left).
    assert (Hlast : c ∈ pre ++ [c])
      by (apply elem_of_app; right; by left).
    simpl. rewrite bind_unfold.
    rewrite subUnlockedCoin_eq by (first [by apply Hv|by apply Hl]).
    destruct (Z.ltb_spec (spendableOf k s addr (Denom x)) (Amount x)) as [Hlt|_].
    { assert (Amount x ≤ spendableOf k s addr (Denom x))
        by (apply Hsp; by left). lia. }
    simpl.
    set (s1 := with_balances _ s).
    simpl in Hnd. apply NoDup_cons in Hnd as [Hx Hnd].
    assert (Hbal : ∀ y, y ∈ pre ++ c :: post →
              balanceOf s1 addr (Denom y) = balanceOf s addr (Denom y)).
    { intros y Hy. apply balanceOf_write. intros [= Heq].
      apply Hx. rewrite <- Heq. apply list_elem_of_fmap. eauto. }
    assert (Hspend : ∀ y, y ∈ pre ++ c :: post →
              spendableOf k s1 addr (Denom y) = spendableOf k s addr (Denom y)).
    { intros y Hy. unfold spendableOf. by rewrite Hbal. }
    destruct (IH s1) as (s'&Hrun&Hob&Hframe&Hdeb&_).
    + done.
    + intros y Hy. by apply Hv, Hup.
    + intros y Hy. unfold lockedWithinBalance. rewrite Hbal by (by apply Hin).
      by apply Hl, Hup.
    + intros y Hy. rewrite Hspend by (by apply Hin, Hpre).
      apply Hsp. by right.
    + by rewrite Hspend by (by apply Hin).
    + exists s'. rewrite Hspend in Hrun by (by apply Hin).
      split; [done|]. split.
      { etrans; [|exact Hob]. by subst s1. }
      split; [|split; [|done]].
      * intros addr' denom Hout. rewrite Hframe.
        -- subst s1. simpl. apply lookup_write_ne. intros [= <- <-].
           destruct Hout as [Hout|Hout]; [done|]. apply Hout. simpl. by left.
        -- destruct Hout as [Hout|Hout]; [by left|right].
           intros Hden. apply Hout. simpl. by right.
      * intros y [->|Hy]%elem_of_cons.
        -- unfold balanceOf at 1. rewrite Hframe.
           ++ apply balanceOf_write_eq.
           ++ right. intros Hden. apply Hx. rewrite fmap_app.
              apply elem_of_app. by left.
        -- rewrite Hdeb by done. by rewrite Hbal by (by apply Hin, Hpre).
Qed.

Lemma bind_Fail {A B} (m : Keeper A) (f : A → Keeper B) s e s' :
  m s = Fail e s' → (m ≫= f) s = Fail e s'.
Proof. intros Hm. by rewrite bind_unfold, Hm. Qed.

Lemma bind_Ret {A B} (m : Keeper A) (f : A → Keeper B) s a s' :
  m s = Ret a s' → (m ≫= f) s = f a s'.
Proof. intros Hm. by rewrite bind_unfold, Hm. Qed.

Lemma bind_Panicked {A B} (m : Keeper A) (f : A → Keeper B) s p s' :
  m s = Panicked p s' → (m ≫= f) s = Panicked p s'.
Proof. intros Hm. by rewrite bind_unfold, Hm. Qed.

(** C3, as the keeper has it.  When the requested coins are valid, the
    locked amounts lie within the balances, and [c] is the first requested
    coin for which the sender's spendable balance is insufficient,
    [SendCoins] returns [ErrInsufficientFunds] for [c].  Supply, pools,
    parameters and accounts are as before, and so is every balance entry
    other than the sender's entries of the denominations requested before
    [c]; those have already been debited.  When [c] is the first requested
    coin the whole store is exactly as before. *)
Theorem SendCoins_insufficient_funds (k : Collaborators)
    (from to : AccAddress) (pre : Coins) (c : Coin) (post : Coins)
    (s : State) :
  Coins_IsValid (ValidateDenom k) (pre ++ c :: post) = true →
  (∀ x, x ∈ pre ++ [c] → lockedWithinBalance k s from (Denom x)) →
  (∀ x, x ∈ pre → Amount x ≤ spendableOf k s from (Denom x)) →
  spendableOf k s from (Denom c) < Amount c →
  ∃ s',
    SendCoins k from to (pre ++ c :: post) s
    = Fail (ErrInsufficientFunds
              (NewCoinRaw (Denom c) (spendableOf k s from (Denom c))) c) s'
    ∧ OnlyBalances s s'
    ∧ (∀ addr denom, addr ≠ from ∨ denom ∉ Denom <$> pre →
         balances s' !! (addr, denom) = balances s !! (addr, denom))
    ∧ (∀ x, x ∈ pre →
         balanceOf s' from (Denom x) = balanceOf s from (Denom x) - Amount x)
    ∧ (pre = [] → s' = s).
Proof.
  intros Hvalid Hl Hsp Hshort.
  apply Coins_IsValid_spec in Hvalid as Hspec. destruct Hspec as [Hnd Hall].
  rewrite Forall_forall in Hall.
  assert (Hv : ∀ x, x ∈ pre ++ [c] → ValidateDenom k (Denom x) = true).
  { intros x Hx. apply Hall.
    apply elem_of_app in Hx as [Hx|Hx%list_elem_of_singleton].
    - apply elem_of_app. by left.
    - subst x. apply elem_of_app. right. by left. }
  destruct (subUnlockedLoop_short k from pre c post s Hnd Hv Hl Hsp Hshort)
    as (s'&Hrun&Hrest).
  exists s'. split; [|done].
  unfold SendCoins. apply bind_Fail. unfold subUnlockedCoins.
  by rewrite Hvalid.
Qed.

Lemma SendCoins_insufficient_funds_witness :
  ∃ s',
    SendCoins Scenario.collaborators "addr1" "addr2"
      ([Scenario.bar 10] ++ Scenario.foo 50 :: []) Scenario.twoDenoms
    = Fail (ErrInsufficientFunds
              (NewCoinRaw "foo"
                 (spendableOf Scenario.collaborators Scenario.twoDenoms
                    "addr1" "foo"))
              (Scenario.foo 50)) s'
    ∧ OnlyBalances Scenario.twoDenoms s'
    ∧ (∀ addr denom, addr ≠ "addr1" ∨ denom ∉ Denom <$> [Scenario.bar 10] →
         balances s' !! (addr, denom)
         = balances Scenario.twoDenoms !! (addr, denom))
    ∧ (∀ x, x ∈ [Scenario.bar 10] →
         balanceOf s' "addr1" (Denom x)
         = balanceOf Scenario.twoDenoms "addr1" (Denom x) - Amount x)
    ∧ ([Scenario.bar 10] = [] → s' = Scenario.twoDenoms).
Proof.
  apply (SendCoins_insufficient_funds Scenario.collaborators "addr1" "addr2"
           [Scenario.bar 10] (Scenario.foo 50) [] Scenario.twoDenoms).
  - reflexivity.
  - intros x Hx. unfold lockedWithinBalance.
    apply elem_of_cons in Hx as [->|Hx];
      [|apply list_elem_of_singleton in Hx as ->];
      vm_compute; split; discriminate.
  - intros x Hx. apply list_elem_of_singleton in Hx as ->.
    vm_compute. discriminate.
  - vm_compute. reflexivity.
Defined.

(** C3 refuted as stated: with 10 bar and 20 foo, a request of 10 bar and
    50 foo is short of foo only; it returns [ErrInsufficientFunds] for foo
    after the bar entry of the sender has been removed. *)
Lemma SendCoins_short_later_denom_debits_earlier :
  ∃ s',
    SendCoins Scenario.collaborators "addr1" "addr2"
      [Scenario.bar 10; Scenario.foo 50] Scenario.twoDenoms
    = Fail (ErrInsufficientFunds (Scenario.foo 20) (Scenario.foo 50)) s'
    ∧ balances Scenario.twoDenoms !! ("addr1", "bar") = Some 10
    ∧ balances s' !! ("addr1", "bar") = None
    ∧ s' ≠ Scenario.twoDenoms.
Proof.
  eexists. split; [vm_compute; reflexivity|].
  split; [vm_compute; reflexivity|].
  split; [vm_compute; reflexivity|].
  intros Heq. apply (f_equal (λ st, balances st !! ("addr1", "bar"))) in Heq.
  vm_compute in Heq. discriminate.
Qed.

(** ** The send-enabled check *)

Lemma IsSendEnabledCoins_eq coins s :
  IsSendEnabledCoins coins s =
  match sendDisabledIn (paramSpace s) coins with
  | Some e => Fail e s
  | None => Ret () s
  end.
Proof.
  unfold IsSendEnabledCoins, GetParams. rewrite bind_unfold. simpl.
  by destruct (sendDisabledIn _ _).
Qed.

Lemma sendDisabledIn_first params pre c post :
  (∀ x, x ∈ pre → Params.SendEnabledDenom params (Denom x) = true) →
  Params.SendEnabledDenom params (Denom c) = false →
  sendDisabledIn params (pre ++ c :: post) = Some (ErrSendDisabled (Denom c)).
Proof.
  intros Hpre Hc. induction pre as [|x pre IH]; simpl.
  - by rewrite Hc.
  - rewrite Hpre by (by left). simpl. apply IH.
    intros y Hy. apply Hpre. by right.
Qed.

Lemma sendDisabledIn_none params coins :
  (∀ x, x ∈ coins → Params.SendEnabledDenom params (Denom x) = true) →
  sendDisabledIn params coins = None.
Proof.
  intros Hall. induction coins as [|x coins IH]; simpl; [done|].
  rewrite Hall by (by left). simpl. apply IH.
  intros y Hy. apply Hall. by right.
Qed.

(** The flag of a denomination is that of its first override and the global
    default when it has none. *)
Lemma SendEnabledDenom_override_or_default params denom :
  Params.SendEnabledDenom params denom
  = match List.find (λ pse, String.eqb (SendEnabled.Denom pse) denom)
            (Params.SendEnabled params) with
    | Some pse => SendEnabled.Enabled pse
    | None => Params.DefaultSendEnabled params
    end.
Proof.
  unfold Params.SendEnabledDenom.
  induction (Params.SendEnabled params) as [|pse rest IH]; simpl; [done|].
  by destruct (String.eqb (SendEnabled.Denom pse) denom).
Qed.


Lemma FailsOnlyWith_ret {A} P (a : A) : FailsOnlyWith P (mret a : Keeper A).
Proof. by intros s e s'. Qed.

Lemma FailsOnlyWith_gets {A} P (f : State → A) : FailsOnlyWith P (gets f).
Proof. by intros s e s'. Qed.

Lemma FailsOnlyWith_modify P f : FailsOnlyWith P (modify f).
Proof. by intros s e s'. Qed.

Lemma FailsOnlyWith_panic {A} P p : FailsOnlyWith P (panic p : Keeper A).
Proof. by intros s e s'. Qed.

Lemma FailsOnlyWith_liftCoin {A} P (r : CoinPanic + A) :
  FailsOnlyWith P (liftCoin r).
Proof. by destruct r; intros s e s'. Qed.

Lemma FailsOnlyWith_throw {A} (P : Error → Prop) e :
  P e → FailsOnlyWith P (throw e : Keeper A).
Proof. intros He s e' s'. unfold throw. by intros [= <- _]. Qed.

Lemma FailsOnlyWith_bind {A B} P (m : Keeper A) (f : A → Keeper B) :
  FailsOnlyWith P m → (∀ a, FailsOnlyWith P (f a)) →
  FailsOnlyWith P (m ≫= f).
Proof.
  intros Hm Hf s e s'. rewrite bind_unfold.
  destruct (m s) as [a s1|e1 s1|p s1] eqn:Hms; [|intros [= <- _]|done].
  - apply Hf.
  - by eapply Hm.
Qed.

Lemma FailsOnlyWith_forEach {A} P (l : list A) (body : A → Keeper unit) :
  (∀ x, FailsOnlyWith P (body x)) → FailsOnlyWith P (forEach l body).
Proof.
  intros Hb. induction l as [|x l IH]; simpl.
  - apply FailsOnlyWith_ret.
  - apply FailsOnlyWith_bind; [apply Hb|by intros _].
Qed.

Create HintDb fails_with discriminated.
#[local] Hint Resolve FailsOnlyWith_ret FailsOnlyWith_gets
  FailsOnlyWith_modify FailsOnlyWith_panic FailsOnlyWith_liftCoin
  : fails_with.

Ltac fails_with :=
  repeat first
    [ solve [auto 1 with fails_with nocore]
    | by apply FailsOnlyWith_throw
    | apply FailsOnlyWith_bind; [|intros ?]
    | apply FailsOnlyWith_forEach; intros ?
    | match goal with
      | |- FailsOnlyWith _ (if ?b then _ else _) => destruct b
      | |- FailsOnlyWith _ (let '(_, _) := ?x in _) => destruct x
      | |- FailsOnlyWith _ (match ?x with _ => _ end) => destruct x
      end ].

Lemma setBalance_fails k addr c : FailsOnlyWith coinsOrFunds (setBalance k addr c).
Proof. unfold setBalance. fails_with. Qed.
#[local] Hint Resolve setBalance_fails : fails_with.

Lemma subUnlockedCoins_fails k addr amt :
  FailsOnlyWith coinsOrFunds (subUnlockedCoins k addr amt).
Proof. unfold subUnlockedCoins, subUnlockedCoin, GetBalance. fails_with. Qed.
#[local] Hint Resolve subUnlockedCoins_fails : fails_with.

Lemma addCoins_fails k addr amt :
  FailsOnlyWith coinsOrFunds (addCoins k addr amt).
Proof. unfold addCoins, addCoin, GetBalance. fails_with. Qed.
#[local] Hint Resolve addCoins_fails : fails_with.

Lemma burnCoins_fails k name amounts :
  FailsOnlyWith coinsOrFunds (burnCoins k name amounts).
Proof.
  unfold burnCoins, burnSupply, getSupply, setSupply. fails_with.
Qed.
#[local] Hint Resolve burnCoins_fails : fails_with.

Lemma splitLoop_fails k params from to amt :
  FailsOnlyWith coinsOrFunds (splitLoop k params from to amt).
Proof.
  induction amt as [|coin rest IH]; simpl;
    unfold getLiquidityPool, getFeeTaxPool, setLiquidityPool, setFeeTaxPool;
    fails_with.
Qed.
#[local] Hint Resolve splitLoop_fails : fails_with.

Lemma deflationaryCoins_fails k from to amt :
  FailsOnlyWith coinsOrFunds (deflationaryCoins k from to amt).
Proof. unfold deflationaryCoins, routeSplit, GetParams. fails_with. Qed.
#[local] Hint Resolve deflationaryCoins_fails : fails_with.

Lemma SendCoins_fails k from to amt :
  FailsOnlyWith coinsOrFunds (SendCoins k from to amt).
Proof.
  unfold SendCoins, createAccountIfAbsent, GetAccount, SetAccount.
  fails_with.
Qed.

(** C5, as the keeper has it.  The send-enabled check is
    [IsSendEnabledCoins]: it goes through the coins in order, reads for each
    denomination its override or else the global default, fails with
    [ErrSendDisabled] naming the first denomination that is not enabled and
    succeeds when all are, leaving the store untouched either way.
    [SendCoins] does not run the check: it never fails with
    [ErrSendDisabled], its only errors being those of the debit and the
    credit. *)
Theorem send_enabled_check_outside_SendCoins (k : Collaborators) (s : State) :
  (∀ pre c post,
     (∀ x, x ∈ pre →
        Params.SendEnabledDenom (paramSpace s) (Denom x) = true) →
     Params.SendEnabledDenom (paramSpace s) (Denom c) = false →
     IsSendEnabledCoins (pre ++ c :: post) s
     = Fail (ErrSendDisabled (Denom c)) s)
  ∧ (∀ coins,
       (∀ x, x ∈ coins →
          Params.SendEnabledDenom (paramSpace s) (Denom x) = true) →
       IsSendEnabledCoins coins s = Ret () s)
  ∧ (∀ denom,
       Params.SendEnabledDenom (paramSpace s) denom
       = match List.find (λ pse, String.eqb (SendEnabled.Denom pse) denom)
                 (Params.SendEnabled (paramSpace s)) with
         | Some pse => SendEnabled.Enabled pse
         | None => Params.DefaultSendEnabled (paramSpace s)
         end)
  ∧ (∀ from to amt e s',
       SendCoins k from to amt s = Fail e s' →
       coinsOrFunds e ∧ ∀ denom, e ≠ ErrSendDisabled denom).
Proof.
  split; [|split; [|split]].
  - intros pre c post Hpre Hc. rewrite IsSendEnabledCoins_eq.
    by rewrite (sendDisabledIn_first _ pre c post Hpre Hc).
  - intros coins Hall. rewrite IsSendEnabledCoins_eq.
    by rewrite (sendDisabledIn_none _ coins Hall).
  - apply SendEnabledDenom_override_or_default.
  - intros from to amt e s' Hfail. apply SendCoins_fails in Hfail.
    split; [done|]. intros denom ->. done.
Qed.

Lemma send_enabled_check_outside_SendCoins_witness :
  IsSendEnabledCoins ([] ++ Scenario.foo 50 :: [])
    (Scenario.funded Scenario.sendDisabled)
  = Fail (ErrSendDisabled "foo") (Scenario.funded Scenario.sendDisabled).
Proof.
  destruct (send_enabled_check_outside_SendCoins Scenario.collaborators
              (Scenario.funded Scenario.sendDisabled)) as (Hfirst&_).
  apply (Hfirst [] (Scenario.foo 50) []).
  - intros x Hx. by apply elem_of_nil in Hx.
  - reflexivity.
Defined.

(** C5 refuted as stated: with sending disabled for every denomination,
    [IsSendEnabledCoins] reports foo, yet [SendCoins] of 50 foo succeeds and
    moves the funds. *)
Lemma SendCoins_sends_disabled_denom :
  IsSendEnabledCoins [Scenario.foo 50] (Scenario.funded Scenario.sendDisabled)
  = Fail (ErrSendDisabled "foo") (Scenario.funded Scenario.sendDisabled)
  ∧ ∃ s',
      SendCoins Scenario.collaborators "addr1" "addr3" [Scenario.foo 50]
        (Scenario.funded Scenario.sendDisabled) = Ret () s'
      ∧ balances s' !! ("addr1", "foo") = Some 50
      ∧ balances s' !! ("addr3", "foo") = Some 50.
Proof.
  split; [vm_compute; reflexivity|].
  eexists. split; [vm_compute; reflexivity|].
  split; vm_compute; reflexivity.
Qed.

(** ** The module-account lookup of the split *)

Lemma poolWriteBack_Ret (b : bool) (m : Keeper unit) s :
  (∀ s0, ∃ s1, m s0 = Ret () s1) →
  ∃ s1, (if b then m else mret ()) s = Ret () s1.
Proof. intros Hm. destruct b; [apply Hm|by exists s]. Qed.

Lemma liquidityPool_writeback_Ret denom s :
  ∃ s1, (pool ← getLiquidityPool denom; setLiquidityPool pool) s = Ret () s1.
Proof.
  unfold getLiquidityPool. rewrite bind_unfold. simpl.
  rewrite setLiquidityPool_eq. eauto.
Qed.

Lemma feeTaxPool_writeback_Ret denom s :
  ∃ s1, (pool ← getFeeTaxPool denom; setFeeTaxPool pool) s = Ret () s1.
Proof.
  unfold getFeeTaxPool. rewrite bind_unfold. simpl.
  rewrite setFeeTaxPool_eq. eauto.
Qed.

(** The loop of the split returns or panics on a coin; it has no error
    return. *)
Lemma splitLoop_outcome k params from to amt s :
  (∃ r s', splitLoop k params from to amt s = Ret r s')
  ∨ (∃ cp s', splitLoop k params from to amt s = Panicked (PanicCoin cp) s').
Proof.
  revert s. induction amt as [|coin rest IH]; intros s; simpl.
  - left. by eexists _, _.
  - destruct (rulePortions _ from to coin) as [p|].
    + rewrite bind_unfold.
      destruct (NewCoin _ _ (burnAmount p)) as [cp|bc];
        [right; by eexists _, _|].
      simpl. rewrite bind_unfold.
      destruct (NewCoin _ _ (liquidityAmount p)) as [cp|lc];
        [right; by eexists _, _|].
      simpl. rewrite bind_unfold.
      destruct (NewCoin _ _ (feeTarAmount p)) as [cp|fc];
        [right; by eexists _, _|].
      simpl. rewrite bind_unfold.
      destruct (NewCoin _ _ _) as [cp|sc]; [right; by eexists _, _|].
      simpl. rewrite bind_unfold.
      destruct (poolWriteBack_Ret (0 <? liquidityAmount p)
                  (pool ← getLiquidityPool (Denom sc); setLiquidityPool pool)
                  s (liquidityPool_writeback_Ret (Denom sc))) as [s1 ->].
      rewrite bind_unfold.
      destruct (poolWriteBack_Ret (0 <? feeTarAmount p)
                  (pool ← getFeeTaxPool (Denom sc); setFeeTaxPool pool)
                  s1 (feeTaxPool_writeback_Ret (Denom sc))) as [s2 ->].
      rewrite bind_unfold.
      destruct (IH s2) as [(r&s'&->)|(cp&s'&->)].
      * left. by eexists _, _.
      * right. by eexists _, _.
    + rewrite bind_unfold.
      destruct (IH s) as [(r&s'&->)|(cp&s'&->)].
      * left. by eexists _, _.
      * right. by eexists _, _.
Qed.

Lemma deflationaryCoins_no_module_account k from to amt s :
  GetModuleAccount k ModuleName = None →
  (∃ p s',
     deflationaryCoins k from to amt s = Panicked p s'
     ∧ (p = PanicUnknownAddress ModuleName ∨ ∃ cp, p = PanicCoin cp))
  ∧ ((∀ coin, coin ∈ amt →
        applicable (Params.SupportDeflationary (paramSpace s)) from to
          (Denom coin) = false) →
     deflationaryCoins k from to amt s
     = Panicked (PanicUnknownAddress ModuleName) s).
Proof.
  intros Hnone. unfold deflationaryCoins, GetParams. rewrite bind_unfold.
  simpl. rewrite bind_unfold. split.
  - destruct (splitLoop_outcome k (paramSpace s) from to amt s)
      as [(r&s'&->)|(cp&s'&->)].
    + unfold routeSplit. rewrite Hnone. eexists _, _. split; [done|by left].
    + eexists _, _. split; [done|]. right. by eexists.
  - intros Hna. rewrite splitLoop_not_applicable by done.
    unfold routeSplit. by rewrite Hnone.
Qed.


(** C10 refuted as stated: without a bank module account, an
    [InputOutputCoins] call without inputs and outputs returns normally, and
    a [SendCoins] call under a rule that diverts half of the amount three
    times over panics on the negative net coin before the lookup. *)
Lemma missing_module_account_not_always_unknown_address :
  InputOutputCoins Scenario.collaboratorsNoBank [] [] Scenario.emptyStore
  = Ret () Scenario.emptyStore
  ∧ ∃ s1 s2,
      subUnlockedCoins Scenario.collaboratorsNoBank "addr1" [Scenario.foo 10]
        (Scenario.funded (Params.mk [] true [Scenario.halfRule])) = Ret () s1
      ∧ SendCoins Scenario.collaboratorsNoBank "addr1" "addr2"
          [Scenario.foo 10]
          (Scenario.funded (Params.mk [] true [Scenario.halfRule]))
        = Panicked (PanicCoin (NegativeCoinAmount (-5))) s2.
Proof.
  split; [vm_compute; reflexivity|].
  eexists _, _. split; vm_compute; reflexivity.
Qed.

(** ** The pools under the split *)

Lemma pool_writeback_id (m : gmap string Z) (denom : string) :
  NoZeroStored m →
  (if default 0 (m !! denom) =? 0 then delete denom m
   else <[denom := default 0 (m !! denom)]> m) = m.
Proof.
  intros Hm. destruct (m !! denom) as [v|] eqn:Hv; simpl.
  - apply Hm in Hv as Hne. destruct (Z.eqb_spec v 0); [done|].
    by apply insert_id.
  - by apply delete_id.
Qed.

Lemma liquidityPool_writeback_PoolsKept denom :
  Keeps PoolsKept (pool ← getLiquidityPool denom; setLiquidityPool pool).
Proof.
  intros s. unfold getLiquidityPool. rewrite bind_unfold. simpl.
  rewrite setLiquidityPool_eq. intros Hl Hf. simpl.
  split; [by apply pool_writeback_id|done].
Qed.

Lemma feeTaxPool_writeback_PoolsKept denom :
  Keeps PoolsKept (pool ← getFeeTaxPool denom; setFeeTaxPool pool).
Proof.
  intros s. unfold getFeeTaxPool. rewrite bind_unfold. simpl.
  rewrite setFeeTaxPool_eq. intros Hl Hf. simpl.
  split; [done|by apply pool_writeback_id].
Qed.

Lemma modify_PoolsKept (f : State → State) :
  (∀ s, liquidityPool (f s) = liquidityPool s
        ∧ feeTaxPool (f s) = feeTaxPool s) →
  Keeps PoolsKept (modify f).
Proof. intros Hf s _ _. simpl. apply Hf. Qed.

Lemma subUnlockedCoins_PoolsKept k addr amt :
  Keeps PoolsKept (subUnlockedCoins k addr amt).
Proof.
  eapply Keeps_weaken; [apply OnlyBalances_PoolsKept|].
  apply subUnlockedCoins_OnlyBalances.
Qed.

Lemma addCoins_PoolsKept k addr amt : Keeps PoolsKept (addCoins k addr amt).
Proof.
  eapply Keeps_weaken; [apply OnlyBalances_PoolsKept|].
  apply addCoins_OnlyBalances.
Qed.

Create HintDb keeps_pk discriminated.
#[local] Hint Resolve subUnlockedCoins_PoolsKept addCoins_PoolsKept
  liquidityPool_writeback_PoolsKept feeTaxPool_writeback_PoolsKept
  : keeps_pk.

Ltac keeps_pk :=
  repeat first
    [ solve [auto 1 with keeps_pk nocore]
    | by apply modify_PoolsKept
    | keeps_step ].

Lemma burnCoins_PoolsKept k name amounts :
  Keeps PoolsKept (burnCoins k name amounts).
Proof. unfold burnCoins, burnSupply, getSupply, setSupply. keeps_pk. Qed.
#[local] Hint Resolve burnCoins_PoolsKept : keeps_pk.

Lemma splitLoop_PoolsKept k params from to amt :
  Keeps PoolsKept (splitLoop k params from to amt).
Proof. induction amt as [|coin rest IH]; simpl; keeps_pk. Qed.
#[local] Hint Resolve splitLoop_PoolsKept : keeps_pk.

Lemma deflationaryCoins_PoolsKept k from to amt :
  Keeps PoolsKept (deflationaryCoins k from to amt).
Proof. unfold deflationaryCoins, routeSplit, GetParams. keeps_pk. Qed.
#[local] Hint Resolve deflationaryCoins_PoolsKept : keeps_pk.

(** No transfer credits a pool: whatever the rules and the outcome, both
    pool stores are after [SendCoins] and after [InputOutputCoins] what they
    were before (for pools without zero entries, which is all the keeper
    ever writes).  The portions of the split only reach the balance of the
    module account. *)
Lemma transfers_leave_pools_as_they_were (k : Collaborators) (s : State) :
  NoZeroStored (liquidityPool s) → NoZeroStored (feeTaxPool s) →
  (∀ from to amt,
     liquidityPool (storeAfter (SendCoins k from to amt s)) = liquidityPool s
     ∧ feeTaxPool (storeAfter (SendCoins k from to amt s)) = feeTaxPool s)
  ∧ (∀ inputs outputs,
       liquidityPool (storeAfter (InputOutputCoins k inputs outputs s))
       = liquidityPool s
       ∧ feeTaxPool (storeAfter (InputOutputCoins k inputs outputs s))
         = feeTaxPool s).
Proof.
  intros Hl Hf. split.
  - intros from to amt.
    assert (Keeps PoolsKept (SendCoins k from to amt)) as Hk.
    { unfold SendCoins, createAccountIfAbsent, GetAccount, SetAccount.
      keeps_pk. }
    by apply Hk.
  - intros inputs outputs.
    assert (Keeps PoolsKept (InputOutputCoins k inputs outputs)) as Hk.
    { unfold InputOutputCoins, inputLeg, outputLeg, createAccountIfAbsent,
        GetAccount, SetAccount.
      keeps_pk. }
    by apply Hk.
Qed.

(** ** Inversion of the steps of a transfer *)

Lemma Coin_Sub_inr (a b c : Coin) :
  Coin_Sub a b = inr c →
  Denom a = Denom b ∧ c = NewCoinRaw (Denom a) (Amount a - Amount b)
  ∧ 0 ≤ Amount a - Amount b.
Proof.
  unfold Coin_Sub. destruct (String.eqb_spec (Denom a) (Denom b)); simpl;
    [|done].
  destruct (Z.ltb_spec (Amount a - Amount b) 0); [done|].
  by intros [= <-].
Qed.

Lemma Coin_Add_inr (a b c : Coin) :
  Coin_Add a b = inr c →
  Denom a = Denom b ∧ c = NewCoinRaw (Denom a) (Amount a + Amount b).
Proof.
  unfold Coin_Add. destruct (String.eqb_spec (Denom a) (Denom b)); simpl;
    [|done].
  by intros [= <-].
Qed.

Lemma setBalance_Ret_inv k addr c s s' :
  setBalance k addr c s = Ret () s' →
  Coin_IsValid (ValidateDenom k) c = true
  ∧ s' = with_balances
           (if Amount c =? 0 then delete (addr, Denom c) (balances s)
            else <[(addr, Denom c) := Amount c]> (balances s)) s.
Proof.
  rewrite setBalance_eq. destruct (Coin_IsValid _ c); [|done].
  by intros [= <-].
Qed.

Lemma subUnlockedCoin_Ret_inv k addr lockedCoins coin s s' :
  subUnlockedCoin k addr lockedCoins coin s = Ret () s' →
  let rest := balanceOf s addr (Denom coin) - Amount coin in
  s' = with_balances
         (if rest =? 0 then delete (addr, Denom coin) (balances s)
          else <[(addr, Denom coin) := rest]> (balances s)) s
  ∧ 0 ≤ Coins_AmountOf lockedCoins (Denom coin) ≤ rest
  ∧ ValidateDenom k (Denom coin) = true.
Proof.
  unfold subUnlockedCoin. intros H.
  apply bind_Ret_inv in H as (balance&s1&Hb&H).
  unfold GetBalance, gets in Hb. injection Hb as <- <-.
  fold (balanceOf s addr (Denom coin)) in H.
  apply bind_Ret_inv in H as (locked&s2&Hl&H).
  apply liftCoin_Ret_inv in Hl as [Hl ->].
  apply NewCoin_inr in Hl as (->&Hv&Hl0).
  apply bind_Ret_inv in H as (spendable&s3&Hs&H).
  apply liftCoin_Ret_inv in Hs as [Hs ->].
  apply Coin_Sub_inr in Hs as (_&->&Hsp). cbn [Denom Amount] in *.
  pose proof (Coins_SafeSub_single
    (NewCoinRaw (Denom coin)
       (balanceOf s addr (Denom coin)
        - Coins_AmountOf lockedCoins (Denom coin))) coin eq_refl) as Hss.
  destruct (Coins_SafeSub _ _) as [diff hasNeg]. cbn [snd Amount] in Hss.
  subst hasNeg.
  destruct (Z.ltb_spec
    (balanceOf s addr (Denom coin) - Coins_AmountOf lockedCoins (Denom coin)
     - Amount coin) 0); [done|].
  apply bind_Ret_inv in H as (newBalance&s4&Hn&H).
  apply liftCoin_Ret_inv in Hn as [Hn ->].
  apply Coin_Sub_inr in Hn as (_&->&Hn). cbn [Denom Amount] in *.
  apply setBalance_Ret_inv in H as [_ ->]. cbn [Denom Amount].
  split; [done|]. split; [lia|done].
Qed.

Lemma addCoin_Ret_inv k addr coin s s' :
  addCoin k addr coin s = Ret () s' →
  let sum := balanceOf s addr (Denom coin) + Amount coin in
  s' = with_balances
         (if sum =? 0 then delete (addr, Denom coin) (balances s)
          else <[(addr, Denom coin) := sum]> (balances s)) s.
Proof.
  unfold addCoin. intros H.
  apply bind_Ret_inv in H as (balance&s1&Hb&H).
  unfold GetBalance, gets in Hb. injection Hb as <- <-.
  fold (balanceOf s addr (Denom coin)) in H.
  apply bind_Ret_inv in H as (newBalance&s2&Hn&H).
  apply liftCoin_Ret_inv in Hn as [Hn ->].
  apply Coin_Add_inr in Hn as (_&->). cbn [Denom Amount] in *.
  by apply setBalance_Ret_inv in H as [_ ->].
Qed.

Lemma forEach_Ret_cons {A} (x : A) (l : list A) (body : A → Keeper unit)
    s s' :
  forEach (x :: l) body s = Ret () s' →
  ∃ s1, body x s = Ret () s1 ∧ forEach l body s1 = Ret () s'.
Proof.
  simpl. intros H. apply bind_Ret_inv in H as ([]&s1&H1&H). eauto.
Qed.

Lemma subUnlockedCoins_Ret_inv k addr amt s s' :
  subUnlockedCoins k addr amt s = Ret () s' →
  Coins_IsValid (ValidateDenom k) amt = true
  ∧ forEach amt (subUnlockedCoin k addr (LockedCoins k addr)) s = Ret () s'.
Proof.
  unfold subUnlockedCoins. by destruct (Coins_IsValid _ amt).
Qed.

Lemma addCoins_Ret_inv k addr amt s s' :
  addCoins k addr amt s = Ret () s' →
  Coins_IsValid (ValidateDenom k) amt = true
  ∧ forEach amt (addCoin k addr) s = Ret () s'.
Proof.
  unfold addCoins. by destruct (Coins_IsValid _ amt).
Qed.

(** ** The sum of the balances of a denomination *)

Lemma balancesTotal_step_comm (denom : string)
    (j1 j2 : AccAddress * string) (z1 z2 y : Z) :
  (if decide (j1.2 = denom) then z1 + (if decide (j2.2 = denom) then z2 + y
                                       else y)
   else if decide (j2.2 = denom) then z2 + y else y)
  = (if decide (j2.2 = denom) then z2 + (if decide (j1.2 = denom) then z1 + y
                                         else y)
     else if decide (j1.2 = denom) then z1 + y else y).
Proof. repeat case_decide; lia. Qed.

Lemma balancesTotal_insert_fresh (m : gmap (AccAddress * string) Z) key v
    denom :
  m !! key = None →
  balancesTotal (<[key:=v]> m) denom
  = (if decide (key.2 = denom) then v else 0) + balancesTotal m denom.
Proof.
  intros Hm. unfold balancesTotal. rewrite map_fold_insert_L; [|intros|done].
  - case_decide; lia.
  - apply balancesTotal_step_comm.
Qed.

Lemma balancesTotal_delete (m : gmap (AccAddress * string) Z) key old denom :
  m !! key = Some old →
  balancesTotal m denom
  = (if decide (key.2 = denom) then old else 0)
    + balancesTotal (delete key m) denom.
Proof.
  intros Hm. unfold balancesTotal.
  rewrite (map_fold_delete_L _ _ key old m); [|intros|done].
  - case_decide; lia.
  - apply balancesTotal_step_comm.
Qed.

Lemma balancesTotal_write (m : gmap (AccAddress * string) Z) key v denom :
  balancesTotal (if v =? 0 then delete key m else <[key:=v]> m) denom
  = balancesTotal m denom
    + (if decide (key.2 = denom) then v - default 0 (m !! key) else 0).
Proof.
  destruct (m !! key) as [old|] eqn:Hm; simpl.
  - rewrite (balancesTotal_delete m key old denom Hm).
    destruct (Z.eqb_spec v 0) as [->|Hv].
    + case_decide; lia.
    + rewrite <- (insert_delete_eq m).
      rewrite balancesTotal_insert_fresh by apply lookup_delete_eq.
      case_decide; lia.
  - destruct (Z.eqb_spec v 0) as [->|Hv].
    + rewrite delete_id by done. case_decide; lia.
    + rewrite balancesTotal_insert_fresh by done. case_decide; lia.
Qed.

Lemma LedgerMove_refl denom s : LedgerMove denom 0 0 s s.
Proof. unfold LedgerMove. lia. Qed.

Lemma LedgerMove_trans denom a b a' b' s1 s2 s3 :
  LedgerMove denom a b s1 s2 → LedgerMove denom a' b' s2 s3 →
  LedgerMove denom (a + a') (b + b') s1 s3.
Proof. unfold LedgerMove. lia. Qed.

Lemma LedgerMove_eq denom a b a' b' s s' :
  a = a' → b = b' → LedgerMove denom a b s s' → LedgerMove denom a' b' s s'.
Proof. by intros -> ->. Qed.

Lemma LedgerMove_balance_write denom addr d v s :
  LedgerMove denom
    (if decide (d = denom) then v - balanceOf s addr d else 0) 0
    s (with_balances
         (if v =? 0 then delete (addr, d) (balances s)
          else <[(addr, d) := v]> (balances s)) s).
Proof.
  split; simpl; [|unfold supplyOf; simpl; lia].
  by rewrite balancesTotal_write.
Qed.

Lemma subUnlockedLoop_LedgerMove k addr lockedCoins amt denom s s' :
  forEach amt (subUnlockedCoin k addr lockedCoins) s = Ret () s' →
  LedgerMove denom (- amountIn denom amt) 0 s s'.
Proof.
  revert s. induction amt as [|c amt IH]; intros s H.
  - simpl in H. injection H as <-. apply LedgerMove_refl.
  - apply forEach_Ret_cons in H as (s1&H1&H).
    apply subUnlockedCoin_Ret_inv in H1 as (->&_&_).
    eapply LedgerMove_eq; [| |eapply LedgerMove_trans;
      [apply LedgerMove_balance_write|apply IH, H]].
    + simpl. case_decide; lia.
    + done.
Qed.

Lemma addLoop_LedgerMove k addr amt denom s s' :
  forEach amt (addCoin k addr) s = Ret () s' →
  LedgerMove denom (amountIn denom amt) 0 s s'.
Proof.
  revert s. induction amt as [|c amt IH]; intros s H.
  - simpl in H. injection H as <-. apply LedgerMove_refl.
  - apply forEach_Ret_cons in H as (s1&H1&H).
    apply addCoin_Ret_inv in H1 as ->.
    eapply LedgerMove_eq; [| |eapply LedgerMove_trans;
      [apply LedgerMove_balance_write|apply IH, H]].
    + simpl. case_decide; lia.
    + done.
Qed.

Lemma burnSupply_Ret_inv amount s s' :
  burnSupply amount s = Ret () s' →
  let rest := supplyOf s (Denom amount) - Amount amount in
  0 ≤ rest
  ∧ s' = with_supply
           (if rest =? 0 then delete (Denom amount) (supply s)
            else <[Denom amount := rest]> (supply s)) s.
Proof.
  unfold burnSupply. intros H.
  apply bind_Ret_inv in H as (supply0&s1&H0&H).
  unfold getSupply, gets in H0. injection H0 as <- <-.
  fold (supplyOf s (Denom amount)) in H.
  apply bind_Ret_inv in H as (supply1&s2&H1&H).
  apply liftCoin_Ret_inv in H1 as [H1 ->].
  apply Coin_Sub_inr in H1 as (_&->&Hr). cbn [Denom Amount] in *.
  rewrite setSupply_eq in H. cbn [Denom Amount] in H.
  injection H as <-. done.
Qed.

Lemma burnSupplyLoop_LedgerMove amounts denom s s' :
  forEach amounts burnSupply s = Ret () s' →
  LedgerMove denom 0 (- amountIn denom amounts) s s'.
Proof.
  revert s. induction amounts as [|c amounts IH]; intros s H.
  - simpl in H. injection H as <-. apply LedgerMove_refl.
  - apply forEach_Ret_cons in H as (s1&H1&H).
    apply burnSupply_Ret_inv in H1 as (_&->).
    eapply LedgerMove_eq; [| |eapply LedgerMove_trans; [|apply IH, H]].
    3:{ instantiate (1 := if decide (Denom c = denom) then - Amount c else 0).
        instantiate (1 := 0).
        split; simpl; [lia|]. unfold supplyOf. simpl.
        destruct (decide (Denom c = denom)) as [<-|Hne].
        - rewrite lookup_write. fold (supplyOf s (Denom c)).
          destruct (Z.eqb_spec (supplyOf s (Denom c) - Amount c) 0); simpl;
            lia.
        - rewrite lookup_write_ne by done. lia. }
    + done.
    + simpl. case_decide; lia.
Qed.

(** ** The ledger under a transfer *)

Lemma amountIn_cons denom c coins :
  amountIn denom (c :: coins)
  = (if decide (Denom c = denom) then Amount c else 0) + amountIn denom coins.
Proof. unfold amountIn. cbn [foldr]. case_decide; lia. Qed.

Lemma removeZeroCoins_cons c coins :
  removeZeroCoins (c :: coins)
  = if Coin_IsZero c then removeZeroCoins coins
    else c :: removeZeroCoins coins.
Proof.
  unfold removeZeroCoins, Coins. rewrite filter_cons.
  destruct (Coin_IsZero c); by case_decide.
Qed.

Lemma amountIn_removeZeroCoins denom coins :
  amountIn denom (removeZeroCoins coins) = amountIn denom coins.
Proof.
  induction coins as [|c coins IH]; [done|].
  rewrite removeZeroCoins_cons, amountIn_cons. unfold Coin_IsZero.
  destruct (Z.eqb_spec (Amount c) 0) as [Hz|Hz];
    rewrite ?amountIn_cons, IH; [|done].
  case_decide; lia.
Qed.

Lemma amountIn_consNonZero denom c coins :
  amountIn denom (consNonZero c coins) = amountIn denom (c :: coins).
Proof.
  unfold consNonZero, Coin_IsZero. rewrite amountIn_cons.
  destruct (Z.eqb_spec (Amount c) 0); [|by rewrite amountIn_cons].
  case_decide; lia.
Qed.

Lemma safeAdd_nil_l coinsB : safeAdd [] coinsB = removeZeroCoins coinsB.
Proof. by destruct coinsB. Qed.

Lemma safeAdd_nil_r coins : safeAdd coins [] = removeZeroCoins coins.
Proof. by destruct coins. Qed.

Lemma safeAdd_cons_cons a coins b coinsB :
  safeAdd (a :: coins) (b :: coinsB) =
  match (Denom a ?= Denom b)%string with
  | Eq => consNonZero (NewCoinRaw (Denom a) (Amount a + Amount b))
            (safeAdd coins coinsB)
  | Lt => consNonZero a (safeAdd coins (b :: coinsB))
  | Gt => consNonZero b (safeAdd (a :: coins) coinsB)
  end.
Proof. reflexivity. Qed.

(** [Coins.Add] keeps the amount of every denomination, sorted or not. *)
Lemma amountIn_safeAdd denom coins coinsB :
  amountIn denom (safeAdd coins coinsB)
  = amountIn denom coins + amountIn denom coinsB.
Proof.
  revert coinsB. induction coins as [|a coins IHa]; intros coinsB.
  - rewrite safeAdd_nil_l. by rewrite amountIn_removeZeroCoins.
  - induction coinsB as [|b coinsB IHb].
    + rewrite safeAdd_nil_r, amountIn_removeZeroCoins.
      change (amountIn denom []) with 0. lia.
    + rewrite safeAdd_cons_cons.
      destruct (Denom a ?= Denom b)%string eqn:Hc;
        rewrite amountIn_consNonZero, !amountIn_cons.
      * apply String.compare_eq_iff in Hc.
        rewrite IHa, ?amountIn_cons. cbn [Denom Amount]. rewrite <- Hc.
        case_decide; lia.
      * rewrite IHa, ?amountIn_cons. lia.
      * rewrite IHb, ?amountIn_cons. lia.
Qed.

Lemma amountIn_IsZero denom coins :
  Coins_IsZero coins = true → amountIn denom coins = 0.
Proof.
  unfold Coins_IsZero, Coin_IsZero. induction coins as [|c coins IH]; [done|].
  cbn [forallb]. rewrite andb_true_iff. intros [Hc%Z.eqb_eq Hr].
  rewrite amountIn_cons, IH by done. case_decide; lia.
Qed.

#[local] Instance OnlyPools_preorder : PreOrder OnlyPools.
Proof.
  split.
  - by intros s.
  - intros s1 s2 s3 (?&?&?&?&?) (?&?&?&?&?). unfold OnlyPools.
    repeat split; congruence.
Qed.

Lemma modify_OnlyPools (f : State → State) :
  (∀ s, OnlyPools s (f s)) → Keeps OnlyPools (modify f).
Proof. intros Hf s. apply Hf. Qed.

Lemma splitLoop_OnlyPools k params from to amt :
  Keeps OnlyPools (splitLoop k params from to amt).
Proof.
  induction amt as [|coin rest IH]; simpl;
    unfold getLiquidityPool, getFeeTaxPool, setLiquidityPool, setFeeTaxPool;
    repeat first [ apply IH | by apply modify_OnlyPools | keeps_step ].
Qed.

Lemma OnlyPools_LedgerMove denom s s' :
  OnlyPools s s' → LedgerMove denom 0 0 s s'.
Proof.
  intros (_&Hb&Hs&_). unfold LedgerMove, supplyOf. rewrite Hb, Hs. lia.
Qed.

(** The loop of the split hands every amount out again: net, burn,
    liquidity and fee-tax coins of a denomination add up to the requested
    amount of it, and the burn coins are not negative. *)
Lemma splitLoop_amounts k params from to amt denom s r s' :
  splitLoop k params from to amt s = Ret r s' →
  amountIn denom (sendCoins r) + amountIn denom (burnCoinsOf r)
  + amountIn denom (liquidityCoins r) + amountIn denom (feeTarCoins r)
  = amountIn denom amt
  ∧ 0 ≤ amountIn denom (burnCoinsOf r).
Proof.
  revert s r s'. induction amt as [|coin rest IH]; intros s r s' Hr;
    simpl in Hr.
  - injection Hr as <- <-. cbn. lia.
  - destruct (rulePortions _ from to coin) as [p|] eqn:Hp.
    + apply bind_Ret_inv in Hr as (bc&s1&Hbc&Hr).
      apply liftCoin_Ret_inv in Hbc as [Hbc _].
      apply NewCoin_inr in Hbc as (->&_&Hb0).
      apply bind_Ret_inv in Hr as (lc&s2&Hlc&Hr).
      apply liftCoin_Ret_inv in Hlc as [Hlc _].
      apply NewCoin_inr in Hlc as (->&_&_).
      apply bind_Ret_inv in Hr as (fc&s3&Hfc&Hr).
      apply liftCoin_Ret_inv in Hfc as [Hfc _].
      apply NewCoin_inr in Hfc as (->&_&_).
      apply bind_Ret_inv in Hr as (sc&s4&Hsc&Hr).
      apply liftCoin_Ret_inv in Hsc as [Hsc _].
      apply NewCoin_inr in Hsc as (->&_&_).
      apply bind_Ret_inv in Hr as (?&s5&_&Hr).
      apply bind_Ret_inv in Hr as (?&s6&_&Hr).
      apply bind_Ret_inv in Hr as (r'&s7&Hrest&Hr).
      injection Hr as <- <-. apply IH in Hrest as [Hsum Hnn].
      cbn [sendCoins burnCoinsOf liquidityCoins feeTarCoins].
      rewrite !amountIn_cons. cbn [Denom Amount]. case_decide; lia.
    + apply bind_Ret_inv in Hr as (r'&s1&Hrest&Hr).
      injection Hr as <- <-. apply IH in Hrest as [Hsum Hnn].
      cbn [sendCoins burnCoinsOf liquidityCoins feeTarCoins].
      rewrite !amountIn_cons. lia.
Qed.

Lemma burnCoins_Ret_inv k name amounts s s' :
  burnCoins k name amounts s = Ret () s' →
  ∃ acc s1,
    GetModuleAccount k name = Some acc
    ∧ ModuleAccount.HasPermission acc Burner = true
    ∧ subUnlockedCoins k (ModuleAccount.Address acc) amounts s = Ret () s1
    ∧ forEach amounts burnSupply s1 = Ret () s'.
Proof.
  unfold burnCoins. destruct (GetModuleAccount k name) as [acc|]; [|done].
  destruct (ModuleAccount.HasPermission acc Burner) eqn:Hperm; [|done].
  simpl.
  intros H. apply bind_Ret_inv in H as ([]&s1&H1&H).
  exists acc, s1. repeat split; done.
Qed.

Lemma burnCoins_LedgerMove k name amounts denom s s' :
  burnCoins k name amounts s = Ret () s' →
  LedgerMove denom (- amountIn denom amounts) (- amountIn denom amounts) s s'.
Proof.
  intros H. apply burnCoins_Ret_inv in H as (acc&s1&_&_&H1&H2).
  apply subUnlockedCoins_Ret_inv in H1 as [_ H1].
  eapply LedgerMove_eq; [| |eapply LedgerMove_trans;
    [eapply subUnlockedLoop_LedgerMove, H1
    |eapply burnSupplyLoop_LedgerMove, H2]]; lia.
Qed.

Lemma addCoins_LedgerMove k addr amt denom s s' :
  addCoins k addr amt s = Ret () s' →
  LedgerMove denom (amountIn denom amt) 0 s s'.
Proof.
  intros H. apply addCoins_Ret_inv in H as [_ H].
  by eapply addLoop_LedgerMove.
Qed.

Lemma routeSplit_LedgerMove k r denom net s s' :
  routeSplit k r s = Ret net s' →
  net = sendCoins r
  ∧ ∃ burned,
      (burned = 0 ∨ burned = amountIn denom (burnCoinsOf r))
      ∧ LedgerMove denom
          (amountIn denom (burnCoinsOf r) + amountIn denom (liquidityCoins r)
           + amountIn denom (feeTarCoins r) - burned)
          (- burned) s s'.
Proof.
  unfold routeSplit.
  destruct (GetModuleAccount k ModuleName) as [acc|]; [|done]. simpl.
  unfold Coins_Add.
  pose proof (amountIn_safeAdd denom
    (safeAdd (burnCoinsOf r) (liquidityCoins r)) (feeTarCoins r)) as Htot.
  rewrite (amountIn_safeAdd denom (burnCoinsOf r)) in Htot.
  destruct (Coins_IsZero (safeAdd _ _)) eqn:Hz.
  - intros [= <- <-]. split; [done|]. exists 0. split; [by left|].
    apply (amountIn_IsZero denom) in Hz.
    eapply LedgerMove_eq; [| |apply LedgerMove_refl]; lia.
  - intros H. apply bind_Ret_inv in H as ([]&s1&Hadd&H).
    apply (addCoins_LedgerMove _ _ _ denom) in Hadd.
    destruct (Coins_IsZero (burnCoinsOf r)) eqn:Hb.
    + injection H as <- <-. split; [done|]. exists 0. split; [by left|].
      eapply LedgerMove_eq; [| |exact Hadd]; lia.
    + apply bind_Ret_inv in H as ([]&s2&Hburn&H). injection H as <- <-.
      apply (burnCoins_LedgerMove _ _ _ denom) in Hburn.
      split; [done|]. exists (amountIn denom (burnCoinsOf r)).
      split; [by right|].
      eapply LedgerMove_eq; [| |eapply LedgerMove_trans;
        [exact Hadd|exact Hburn]]; lia.
Qed.

(** X1. A successful [SendCoins] keeps the supply in step with the balances:
    for every denomination the sum of all balance entries and the supply
    entry go down by one and the same amount, the amount burned, which is
    not negative.  Nothing is minted and nothing disappears outside the
    burn. *)
Theorem SendCoins_supply_tracks_balances (k : Collaborators)
    (from to : AccAddress) (amt : Coins) (s s' : State) (denom : string) :
  SendCoins k from to amt s = Ret () s' →
  ∃ burned,
    0 ≤ burned
    ∧ balancesTotal (balances s') denom
      = balancesTotal (balances s) denom - burned
    ∧ supplyOf s' denom = supplyOf s denom - burned.
Proof.
  intros H. apply SendCoins_Ret_inv in H as (s1&net&s2&s3&H1&H2&H3&H4).
  apply subUnlockedCoins_Ret_inv in H1 as [_ H1].
  apply (subUnlockedLoop_LedgerMove _ _ _ _ denom) in H1.
  unfold deflationaryCoins, GetParams in H2.
  apply bind_Ret_inv in H2 as (params&s1'&Hp&H2).
  unfold gets in Hp. injection Hp as <- <-.
  apply bind_Ret_inv in H2 as (r&s1'&Hr&H2).
  pose proof (splitLoop_OnlyPools k (paramSpace s1) from to amt s1) as Hpools.
  rewrite Hr in Hpools. simpl in Hpools.
  apply (OnlyPools_LedgerMove denom) in Hpools.
  apply (splitLoop_amounts _ _ _ _ _ denom) in Hr as [Hsum Hnn].
  apply (routeSplit_LedgerMove _ _ denom) in H2 as (->&burned&Hburned&H2).
  apply (addCoins_LedgerMove _ _ _ denom) in H3.
  pose proof (createAccountIfAbsent_frame to s3) as Hf.
  rewrite H4 in Hf. simpl in Hf. destruct Hf as (_&Hb4&Hs4&_).
  exists burned. split; [destruct Hburned; lia|].
  unfold LedgerMove, supplyOf in *. rewrite Hb4, Hs4.
  destruct H1, Hpools, H2, H3. lia.
Qed.

Lemma SendCoins_supply_tracks_balances_witness :
  ∃ burned,
    0 ≤ burned
    ∧ balancesTotal
        (balances
           (storeAfter (SendCoins Scenario.collaborators "addr1" "addr2"
                          [Scenario.foo 50] Scenario.fundedWithPools))) "foo"
      = balancesTotal (balances Scenario.fundedWithPools) "foo" - burned
    ∧ supplyOf
        (storeAfter (SendCoins Scenario.collaborators "addr1" "addr2"
                       [Scenario.foo 50] Scenario.fundedWithPools)) "foo"
      = supplyOf Scenario.fundedWithPools "foo" - burned.
Proof.
  apply (SendCoins_supply_tracks_balances Scenario.collaborators "addr1"
           "addr2" [Scenario.foo 50] Scenario.fundedWithPools
           (storeAfter (SendCoins Scenario.collaborators "addr1" "addr2"
                          [Scenario.foo 50] Scenario.fundedWithPools)) "foo").
  vm_compute. reflexivity.
Defined.

(** ** Debit and credit, coin by coin *)

Lemma entryFor_lookup `{Countable K} (m : gmap K Z) (key : K) (v : Z) :
  (if v =? 0 then delete key m else <[key:=v]> m) !! key = entryFor v.
Proof. apply lookup_write. Qed.

Lemma default_entryFor (v : Z) : default 0 (entryFor v) = v.
Proof. unfold entryFor. by destruct (Z.eqb_spec v 0) as [->|]. Qed.

Lemma amountIn_notin denom coins :
  denom ∉ Denom <$> coins → amountIn denom coins = 0.
Proof.
  induction coins as [|c coins IH]; [done|].
  rewrite fmap_cons, not_elem_of_cons, amountIn_cons. intros [Hne Hnin].
  rewrite IH by done. case_decide; [congruence|lia].
Qed.

Lemma amountIn_NoDup coins c :
  NoDup (Denom <$> coins) → c ∈ coins → amountIn (Denom c) coins = Amount c.
Proof.
  induction coins as [|c0 coins IH]; [by intros _ ?%elem_of_nil|].
  rewrite fmap_cons, NoDup_cons, amountIn_cons.
  intros [Hnin Hnd] [->|Hin]%elem_of_cons.
  - rewrite amountIn_notin by done. case_decide; [lia|done].
  - rewrite IH by done. case_decide as Heq; [|lia].
    exfalso. apply Hnin. rewrite Heq. by apply list_elem_of_fmap_2.
Qed.

(** What a completed debit loop has done, for coins of distinct
    denominations. *)
Lemma subUnlockedLoop_Ret_spec k addr lockedCoins amt s s' :
  NoDup (Denom <$> amt) →
  forEach amt (subUnlockedCoin k addr lockedCoins) s = Ret () s' →
  OnlyBalances s s'
  ∧ (∀ c, c ∈ amt →
       balances s' !! (addr, Denom c)
       = entryFor (balanceOf s addr (Denom c) - Amount c)
       ∧ 0 ≤ Coins_AmountOf lockedCoins (Denom c)
           ≤ balanceOf s addr (Denom c) - Amount c)
  ∧ (∀ addr' denom, addr' ≠ addr ∨ denom ∉ Denom <$> amt →
       balances s' !! (addr', denom) = balances s !! (addr', denom)).
Proof.
  revert s. induction amt as [|c0 amt IH]; intros s Hnd H.
  - simpl in H. injection H as <-. split; [reflexivity|].
    split; [by intros ? ?%elem_of_nil|done].
  - apply forEach_Ret_cons in H as (s1&H1&H).
    rewrite fmap_cons in Hnd. apply NoDup_cons in Hnd as [Hnin Hnd].
    apply subUnlockedCoin_Ret_inv in H1 as (Hs1&Hlock&_).
    destruct (IH s1 Hnd H) as (Hob&Hcoins&Hframe).
    assert (Hbal : ∀ c, c ∈ amt →
              balanceOf s1 addr (Denom c) = balanceOf s addr (Denom c)).
    { intros c Hc. rewrite Hs1. apply balanceOf_write. intros [= Heq].
      apply Hnin. rewrite <- Heq. by apply list_elem_of_fmap_2. }
    split; [|split].
    + etrans; [|exact Hob]. by rewrite Hs1.
    + intros c [->|Hc]%elem_of_cons.
      * split; [|done]. rewrite Hframe by (by right).
        rewrite Hs1. simpl. apply entryFor_lookup.
      * destruct (Hcoins c Hc) as [He Hl]. by rewrite Hbal in He, Hl.
    + intros addr' denom Hout. rewrite Hframe.
      * rewrite Hs1. simpl. apply lookup_write_ne. intros [= <- <-].
        destruct Hout as [Hout|Hout]; [done|]. apply Hout.
        rewrite fmap_cons. by left.
      * destruct Hout as [Hout|Hout]; [by left|right].
        intros Hin. apply Hout. rewrite fmap_cons. by right.
Qed.

(** What a completed credit loop has done, for coins of distinct
    denominations. *)
Lemma addLoop_Ret_spec k addr amt s s' :
  NoDup (Denom <$> amt) →
  forEach amt (addCoin k addr) s = Ret () s' →
  OnlyBalances s s'
  ∧ (∀ c, c ∈ amt →
       balances s' !! (addr, Denom c)
       = entryFor (balanceOf s addr (Denom c) + Amount c))
  ∧ (∀ addr' denom, addr' ≠ addr ∨ denom ∉ Denom <$> amt →
       balances s' !! (addr', denom) = balances s !! (addr', denom)).
Proof.
  revert s. induction amt as [|c0 amt IH]; intros s Hnd H.
  - simpl in H. injection H as <-. split; [reflexivity|].
    split; [by intros ? ?%elem_of_nil|done].
  - apply forEach_Ret_cons in H as (s1&H1&H).
    rewrite fmap_cons in Hnd. apply NoDup_cons in Hnd as [Hnin Hnd].
    apply addCoin_Ret_inv in H1 as Hs1.
    destruct (IH s1 Hnd H) as (Hob&Hcoins&Hframe).
    assert (Hbal : ∀ c, c ∈ amt →
              balanceOf s1 addr (Denom c) = balanceOf s addr (Denom c)).
    { intros c Hc. rewrite Hs1. apply balanceOf_write. intros [= Heq].
      apply Hnin. rewrite <- Heq. by apply list_elem_of_fmap_2. }
    split; [|split].
    + etrans; [|exact Hob]. by rewrite Hs1.
    + intros c [->|Hc]%elem_of_cons.
      * rewrite Hframe by (by right).
        rewrite Hs1. simpl. apply entryFor_lookup.
      * rewrite (Hcoins c Hc). by rewrite Hbal.
    + intros addr' denom Hout. rewrite Hframe.
      * rewrite Hs1. simpl. apply lookup_write_ne. intros [= <- <-].
        destruct Hout as [Hout|Hout]; [done|]. apply Hout.
        rewrite fmap_cons. by left.
      * destruct Hout as [Hout|Hout]; [by left|right].
        intros Hin. apply Hout. rewrite fmap_cons. by right.
Qed.

Lemma liftCoin_Coin_Add_Ret (a b : Coin) s :
  Denom a = Denom b →
  liftCoin (Coin_Add a b) s
  = Ret (NewCoinRaw (Denom a) (Amount a + Amount b)) s.
Proof.
  intros Hd. unfold Coin_Add. by rewrite Hd, String.eqb_refl.
Qed.

Lemma addCoin_eq k addr coin s :
  ValidateDenom k (Denom coin) = true →
  0 ≤ balanceOf s addr (Denom coin) + Amount coin →
  addCoin k addr coin s =
  let sum := balanceOf s addr (Denom coin) + Amount coin in
  Ret () (with_balances
            (if sum =? 0 then delete (addr, Denom coin) (balances s)
             else <[(addr, Denom coin) := sum]> (balances s)) s).
Proof.
  intros Hv Hnn. unfold addCoin. rewrite bind_unfold.
  change (GetBalance addr (Denom coin) s)
    with (Ret (NewCoinRaw (Denom coin) (balanceOf s addr (Denom coin))) s).
  cbv beta iota. rewrite bind_unfold, liftCoin_Coin_Add_Ret by done.
  cbv beta iota. cbn [Denom Amount]. rewrite setBalance_eq. unfold Coin_IsValid. cbn [Denom Amount].
  rewrite Hv. by destruct (Z.leb_spec 0 (balanceOf s addr (Denom coin)
                                           + Amount coin)); [|lia].
Qed.

Lemma addLoop_success k addr amt s :
  NoDup (Denom <$> amt) →
  (∀ c, c ∈ amt →
     ValidateDenom k (Denom c) = true
     ∧ 0 ≤ balanceOf s addr (Denom c) + Amount c) →
  ∃ s', forEach amt (addCoin k addr) s = Ret () s'.
Proof.
  revert s. induction amt as [|c0 amt IH]; intros s Hnd Hall.
  - by exists s.
  - rewrite fmap_cons in Hnd. apply NoDup_cons in Hnd as [Hnin Hnd].
    destruct (Hall c0) as [Hv Hnn]; [by left|].
    simpl. rewrite bind_unfold, addCoin_eq by done. cbv zeta.
    apply IH; [done|]. intros c Hc.
    destruct (Hall c) as [Hvc Hnc]; [by right|]. split; [done|].
    rewrite balanceOf_write; [done|]. intros [= Heq].
    apply Hnin. rewrite <- Heq. by apply list_elem_of_fmap_2.
Qed.

Lemma subUnlockedLoop_success k addr amt s :
  NoDup (Denom <$> amt) →
  (∀ c, c ∈ amt →
     ValidateDenom k (Denom c) = true
     ∧ lockedWithinBalance k s addr (Denom c)
     ∧ Amount c ≤ spendableOf k s addr (Denom c)) →
  ∃ s', forEach amt (subUnlockedCoin k addr (LockedCoins k addr)) s
        = Ret () s'.
Proof.
  revert s. induction amt as [|c0 amt IH]; intros s Hnd Hall.
  - by exists s.
  - rewrite fmap_cons in Hnd. apply NoDup_cons in Hnd as [Hnin Hnd].
    destruct (Hall c0) as (Hv&Hl&Hsp); [by left|].
    simpl. rewrite bind_unfold, subUnlockedCoin_eq by done.
    destruct (Z.ltb_spec (spendableOf k s addr (Denom c0)) (Amount c0));
      [lia|].
    cbv zeta. apply IH; [done|]. intros c Hc.
    destruct (Hall c) as (Hvc&Hlc&Hspc); [by right|].
    assert (balanceOf
              (with_balances
                 (if balanceOf s addr (Denom c0) - Amount c0 =? 0
                  then delete (addr, Denom c0) (balances s)
                  else <[(addr, Denom c0) :=
                           balanceOf s addr (Denom c0) - Amount c0]>
                         (balances s)) s) addr (Denom c)
            = balanceOf s addr (Denom c)) as Hbal.
    { apply balanceOf_write. intros [= Heq].
      apply Hnin. rewrite <- Heq. by apply list_elem_of_fmap_2. }
    unfold lockedWithinBalance, spendableOf in *. by rewrite Hbal.
Qed.

(** X3. [addCoins] refuses an invalid coin set without a write.  For a valid
    one and balances that are not negative it succeeds: every coin's entry
    of the address holds the old balance plus the coin, every other balance
    entry is as before, and no other store is touched. *)
Theorem addCoins_credits (k : Collaborators) (addr : AccAddress)
    (amt : Coins) (s : State) :
  (Coins_IsValid (ValidateDenom k) amt = false →
   addCoins k addr amt s = Fail (ErrInvalidCoins amt) s)
  ∧ (Coins_IsValid (ValidateDenom k) amt = true →
     (∀ c, c ∈ amt → 0 ≤ balanceOf s addr (Denom c)) →
     ∃ s',
       addCoins k addr amt s = Ret () s'
       ∧ OnlyBalances s s'
       ∧ (∀ c, c ∈ amt →
            balances s' !! (addr, Denom c)
            = Some (balanceOf s addr (Denom c) + Amount c))
       ∧ (∀ addr' denom, addr' ≠ addr ∨ denom ∉ Denom <$> amt →
            balances s' !! (addr', denom) = balances s !! (addr', denom))).
Proof.
  split.
  - intros Hinv. unfold addCoins. by rewrite Hinv.
  - intros Hvalid Hnn.
    apply Coins_IsValid_spec in Hvalid as Hspec. destruct Hspec as [Hnd Hall].
    rewrite Forall_forall in Hall.
    destruct (addLoop_success k addr amt s Hnd) as [s' Hrun].
    { intros c Hc. destruct (Hall c Hc) as [Hv Hpos]. split; [done|].
      specialize (Hnn c Hc). lia. }
    exists s'. unfold addCoins. rewrite Hvalid. simpl. split; [done|].
    destruct (addLoop_Ret_spec k addr amt s s' Hnd Hrun) as (Hob&Hc&Hf).
    split; [done|]. split; [|done].
    intros c Hin. rewrite (Hc c Hin). unfold entryFor.
    destruct (Hall c Hin) as [_ Hpos]. specialize (Hnn c Hin).
    by destruct (Z.eqb_spec (balanceOf s addr (Denom c) + Amount c) 0);
      [lia|].
Qed.

Lemma addCoins_credits_witness :
  ∃ s',
    addCoins Scenario.collaborators "addr1" [Scenario.bar 5; Scenario.foo 7]
      Scenario.twoDenoms = Ret () s'
    ∧ balances s' !! ("addr1", "bar") = Some 15
    ∧ balances s' !! ("addr1", "foo") = Some 27.
Proof.
  destruct (addCoins_credits Scenario.collaborators "addr1"
              [Scenario.bar 5; Scenario.foo 7] Scenario.twoDenoms)
    as [_ Hok].
  destruct Hok as (s'&Hrun&_&Hcoins&_).
  - reflexivity.
  - intros c Hc. apply elem_of_cons in Hc as [->|Hc];
      [|apply list_elem_of_singleton in Hc as ->]; vm_compute; discriminate.
  - exists s'. split; [done|]. split.
    + apply (Hcoins (Scenario.bar 5)). by left.
    + apply (Hcoins (Scenario.foo 7)). right. by left.
Defined.

(** X4. [subUnlockedCoins] succeeds when the coins are valid and, for every
    coin, the locked amount lies within the balance and the spendable
    amount covers the coin.  Every coin's entry then holds the old balance
    less the coin and is removed when that is zero; every other balance
    entry is as before and no other store is touched. *)
Theorem subUnlockedCoins_debits (k : Collaborators) (addr : AccAddress)
    (amt : Coins) (s : State) :
  Coins_IsValid (ValidateDenom k) amt = true →
  (∀ c, c ∈ amt →
     lockedWithinBalance k s addr (Denom c)
     ∧ Amount c ≤ spendableOf k s addr (Denom c)) →
  ∃ s',
    subUnlockedCoins k addr amt s = Ret () s'
    ∧ OnlyBalances s s'
    ∧ (∀ c, c ∈ amt →
         balances s' !! (addr, Denom c)
         = entryFor (balanceOf s addr (Denom c) - Amount c))
    ∧ (∀ addr' denom, addr' ≠ addr ∨ denom ∉ Denom <$> amt →
         balances s' !! (addr', denom) = balances s !! (addr', denom)).
Proof.
  intros Hvalid Hsp.
  apply Coins_IsValid_spec in Hvalid as Hspec. destruct Hspec as [Hnd Hall].
  rewrite Forall_forall in Hall.
  destruct (subUnlockedLoop_success k addr amt s Hnd) as [s' Hrun].
  { intros c Hc. destruct (Hall c Hc) as [Hv _].
    destruct (Hsp c Hc). done. }
  exists s'. unfold subUnlockedCoins. rewrite Hvalid. simpl. split; [done|].
  destruct (subUnlockedLoop_Ret_spec k addr _ amt s s' Hnd Hrun)
    as (Hob&Hc&Hf).
  split; [done|]. split; [|done]. intros c Hin. by apply Hc.
Qed.

Lemma subUnlockedCoins_debits_witness :
  ∃ s',
    subUnlockedCoins Scenario.collaborators "addr1"
      [Scenario.bar 10; Scenario.foo 5] Scenario.twoDenoms = Ret () s'
    ∧ balances s' !! ("addr1", "bar") = None
    ∧ balances s' !! ("addr1", "foo") = Some 15.
Proof.
  destruct (subUnlockedCoins_debits Scenario.collaborators "addr1"
              [Scenario.bar 10; Scenario.foo 5] Scenario.twoDenoms)
    as (s'&Hrun&_&Hcoins&_).
  - reflexivity.
  - intros c Hc. unfold lockedWithinBalance.
    apply elem_of_cons in Hc as [->|Hc];
      [|apply list_elem_of_singleton in Hc as ->];
      vm_compute; repeat split; discriminate.
  - exists s'. split; [done|]. split.
    + apply (Hcoins (Scenario.bar 10)). by left.
    + apply (Hcoins (Scenario.foo 5)). right. by left.
Defined.

(** X5. A debit never reaches into locked funds.  Whenever
    [subUnlockedCoins] returns without error the coins were valid, every
    requested denomination was debited by exactly its coin, and what remains
    of it is not less than the locked amount, which is not negative. *)
Theorem subUnlockedCoins_keeps_locked (k : Collaborators) (addr : AccAddress)
    (amt : Coins) (s s' : State) :
  subUnlockedCoins k addr amt s = Ret () s' →
  Coins_IsValid (ValidateDenom k) amt = true
  ∧ ∀ c, c ∈ amt →
      balanceOf s' addr (Denom c) = balanceOf s addr (Denom c) - Amount c
      ∧ 0 ≤ Coins_AmountOf (LockedCoins k addr) (Denom c)
          ≤ balanceOf s' addr (Denom c).
Proof.
  intros H. apply subUnlockedCoins_Ret_inv in H as [Hvalid H].
  split; [done|].
  apply Coins_IsValid_spec in Hvalid as [Hnd _].
  destruct (subUnlockedLoop_Ret_spec k addr _ amt s s' Hnd H) as (_&Hc&_).
  intros c Hin. destruct (Hc c Hin) as [He Hl].
  unfold balanceOf at 1 3. rewrite He, default_entryFor. done.
Qed.

Lemma subUnlockedCoins_keeps_locked_witness :
  balanceOf
    (storeAfter (subUnlockedCoins Scenario.collaborators "addr1"
                   [Scenario.foo 5] Scenario.twoDenoms)) "addr1" "foo"
  = balanceOf Scenario.twoDenoms "addr1" "foo" - 5.
Proof.
  destruct (subUnlockedCoins_keeps_locked Scenario.collaborators "addr1"
              [Scenario.foo 5] Scenario.twoDenoms
              (storeAfter (subUnlockedCoins Scenario.collaborators "addr1"
                             [Scenario.foo 5] Scenario.twoDenoms)))
    as [_ Hcoins].
  - vm_compute. reflexivity.
  - apply (Hcoins (Scenario.foo 5)). by left.
Defined.

(** ** Burning *)

Lemma burnSupplyLoop_frame amounts s s' :
  forEach amounts burnSupply s = Ret () s' →
  paramSpace s' = paramSpace s ∧ balances s' = balances s
  ∧ liquidityPool s' = liquidityPool s ∧ feeTaxPool s' = feeTaxPool s
  ∧ denomMetaData s' = denomMetaData s ∧ accounts s' = accounts s.
Proof.
  revert s. induction amounts as [|c amounts IH]; intros s H.
  - simpl in H. by injection H as <-.
  - apply forEach_Ret_cons in H as (s1&H1&H).
    apply burnSupply_Ret_inv in H1 as [_ Hs1].
    destruct (IH s1 H) as (->&->&->&->&->&->). by rewrite Hs1.
Qed.

Lemma supplyOf_write s denom v :
  supplyOf
    (with_supply
       (if v =? 0 then delete denom (supply s) else <[denom:=v]> (supply s))
       s) denom = v.
Proof.
  unfold supplyOf. simpl. rewrite lookup_write.
  by destruct (Z.eqb_spec v 0) as [->|].
Qed.

(** The supply of every burned denomination is not negative afterwards. *)
Lemma burnSupplyLoop_nonneg amounts s s' :
  forEach amounts burnSupply s = Ret () s' →
  ∀ c, c ∈ amounts → 0 ≤ supplyOf s' (Denom c).
Proof.
  revert s. induction amounts as [|c0 amounts IH]; intros s H c Hc.
  - by apply elem_of_nil in Hc.
  - apply forEach_Ret_cons in H as (s1&H1&H).
    destruct (decide (Denom c ∈ Denom <$> amounts)) as [Hin|Hnin].
    + apply list_elem_of_fmap in Hin as (c'&Heq&Hc').
      rewrite Heq. by apply (IH s1).
    + apply elem_of_cons in Hc as [->|Hc];
        [|exfalso; apply Hnin; by apply list_elem_of_fmap_2].
      destruct (burnSupplyLoop_LedgerMove amounts (Denom c0) s1 s' H)
        as [_ Hsup].
      rewrite amountIn_notin in Hsup by done.
      apply burnSupply_Ret_inv in H1 as [Hnn Hs1]. cbv zeta in Hnn.
      rewrite Hsup, Hs1, supplyOf_write. lia.
Qed.

(** X2. [burnCoins] returns without error only for a module account that
    exists and holds the burner permission.  It then has taken every coin
    out of that account's balance and out of the supply of the coin's
    denomination, which does not fall below zero, and has left both pools
    alone. *)
Theorem burnCoins_takes_from_account_and_supply (k : Collaborators)
    (moduleName : string) (amounts : Coins) (s s' : State) :
  burnCoins k moduleName amounts s = Ret () s' →
  ∃ acc,
    GetModuleAccount k moduleName = Some acc
    ∧ ModuleAccount.HasPermission acc Burner = true
    ∧ liquidityPool s' = liquidityPool s ∧ feeTaxPool s' = feeTaxPool s
    ∧ ∀ c, c ∈ amounts →
        balanceOf s' (ModuleAccount.Address acc) (Denom c)
        = balanceOf s (ModuleAccount.Address acc) (Denom c) - Amount c
        ∧ supplyOf s' (Denom c) = supplyOf s (Denom c) - Amount c
        ∧ 0 ≤ supplyOf s' (Denom c).
Proof.
  intros H. pose proof H as Hmove.
  apply burnCoins_Ret_inv in H as (acc&s1&Hacc&Hperm&Hsub&Hloop).
  exists acc. split; [done|]. split; [done|].
  destruct (burnSupplyLoop_frame _ _ _ Hloop) as (_&Hbal&Hliq&Hfee&_).
  destruct (subUnlockedCoins_OnlyBalances k (ModuleAccount.Address acc)
              amounts s) as (_&_&Hliq1&Hfee1&_).
  rewrite Hsub in Hliq1, Hfee1. simpl in Hliq1, Hfee1.
  split; [congruence|]. split; [congruence|].
  apply subUnlockedCoins_Ret_inv in Hsub as [Hvalid Hsub].
  apply Coins_IsValid_spec in Hvalid as [Hnd _].
  destruct (subUnlockedLoop_Ret_spec k _ _ amounts s s1 Hnd Hsub)
    as (_&Hcoins&_).
  intros c Hc. split; [|split].
  - destruct (Hcoins c Hc) as [He _].
    unfold balanceOf at 1. by rewrite Hbal, He, default_entryFor.
  - destruct (burnCoins_LedgerMove _ _ _ (Denom c) _ _ Hmove) as [_ Hsup].
    rewrite amountIn_NoDup in Hsup by done. lia.
  - by apply (burnSupplyLoop_nonneg _ _ _ Hloop).
Qed.

Lemma burnCoins_takes_from_account_and_supply_witness :
  let s' := storeAfter (burnCoins Scenario.collaborators ModuleName
                          [Scenario.foo 4] Scenario.fundedWithPools) in
  supplyOf s' "foo" = supplyOf Scenario.fundedWithPools "foo" - 4.
Proof.
  cbv zeta.
  destruct (burnCoins_takes_from_account_and_supply Scenario.collaborators
              ModuleName [Scenario.foo 4] Scenario.fundedWithPools
              (storeAfter (burnCoins Scenario.collaborators ModuleName
                             [Scenario.foo 4] Scenario.fundedWithPools)))
    as (acc&_&_&_&_&Hcoins).
  - vm_compute. reflexivity.
  - apply (Hcoins (Scenario.foo 4)). by left.
Defined.

(** ** A transfer as a whole *)

#[local] Instance SameSetup_preorder : PreOrder SameSetup.
Proof.
  split.
  - by intros s.
  - intros s1 s2 s3 (?&?&?) (?&?&?). repeat split; congruence.
Qed.

Lemma OnlyBalances_SameSetup s s' : OnlyBalances s s' → SameSetup s s'.
Proof. by intros (?&_&_&_&?&?). Qed.

Lemma OnlyPools_SameSetup s s' : OnlyPools s s' → SameSetup s s'.
Proof. by intros (?&_&_&?&?). Qed.

Lemma modify_SameSetup (f : State → State) :
  (∀ s, SameSetup s (f s)) → Keeps SameSetup (modify f).
Proof. intros Hf s. apply Hf. Qed.

Lemma subUnlockedCoins_SameSetup k addr amt :
  Keeps SameSetup (subUnlockedCoins k addr amt).
Proof.
  eapply Keeps_weaken; [apply OnlyBalances_SameSetup|].
  apply subUnlockedCoins_OnlyBalances.
Qed.

Lemma addCoins_SameSetup k addr amt : Keeps SameSetup (addCoins k addr amt).
Proof.
  eapply Keeps_weaken; [apply OnlyBalances_SameSetup|].
  apply addCoins_OnlyBalances.
Qed.

Lemma splitLoop_SameSetup k params from to amt :
  Keeps SameSetup (splitLoop k params from to amt).
Proof.
  eapply Keeps_weaken; [apply OnlyPools_SameSetup|].
  apply splitLoop_OnlyPools.
Qed.

Create HintDb keeps_setup discriminated.
#[local] Hint Resolve subUnlockedCoins_SameSetup addCoins_SameSetup
  splitLoop_SameSetup : keeps_setup.

Ltac keeps_setup :=
  repeat first
    [ solve [auto 1 with keeps_setup nocore]
    | by apply modify_SameSetup
    | keeps_step ].

Lemma burnCoins_SameSetup k name amounts :
  Keeps SameSetup (burnCoins k name amounts).
Proof. unfold burnCoins, burnSupply, getSupply, setSupply. keeps_setup. Qed.
#[local] Hint Resolve burnCoins_SameSetup : keeps_setup.

Lemma deflationaryCoins_SameSetup k from to amt :
  Keeps SameSetup (deflationaryCoins k from to amt).
Proof. unfold deflationaryCoins, routeSplit, GetParams. keeps_setup. Qed.


(** X6. A transfer none of whose coins has an applying rule moves exactly
    the requested coins.  Between two different addresses the sender's
    balance of each coin's denomination falls by the coin and the
    recipient's rises by it; a transfer of an address to itself leaves the
    balances as they were.  No other balance entry, no supply and no pool
    changes. *)
Theorem SendCoins_without_rule_moves_amt (k : Collaborators)
    (from to : AccAddress) (amt : Coins) (s s' : State) :
  (∀ coin, coin ∈ amt →
     applicable (Params.SupportDeflationary (paramSpace s)) from to
       (Denom coin) = false) →
  SendCoins k from to amt s = Ret () s' →
  supply s' = supply s
  ∧ liquidityPool s' = liquidityPool s ∧ feeTaxPool s' = feeTaxPool s
  ∧ (from ≠ to →
     ∀ c, c ∈ amt →
       balanceOf s' from (Denom c) = balanceOf s from (Denom c) - Amount c
       ∧ balanceOf s' to (Denom c) = balanceOf s to (Denom c) + Amount c)
  ∧ (from = to → balances s' = balances s)
  ∧ (∀ addr denom,
       (addr ≠ from ∧ addr ≠ to) ∨ denom ∉ Denom <$> amt →
       balances s' !! (addr, denom) = balances s !! (addr, denom)).
Proof.
  intros Hno H.
  apply SendCoins_Ret_inv in H as (s1&net&s2&s3&Hsub&Hdefl&Hadd&Hacc).
  pose proof (subUnlockedCoins_OnlyBalances k from amt s) as Hob1.
  rewrite Hsub in Hob1. simpl in Hob1.
  rewrite deflationaryCoins_not_applicable in Hdefl
    by (destruct Hob1 as (->&_); exact Hno).
  destruct (GetModuleAccount k ModuleName); [|done].
  injection Hdefl as <- <-.
  pose proof (addCoins_OnlyBalances k to amt s1) as Hob2.
  rewrite Hadd in Hob2. simpl in Hob2.
  pose proof (createAccountIfAbsent_frame to s3) as Hfr.
  rewrite Hacc in Hfr. simpl in Hfr.
  destruct Hfr as (_&Hbal&Hsup&Hliq&Hfee).
  destruct Hob1 as (_&Hsup1&Hliq1&Hfee1&_), Hob2 as (_&Hsup2&Hliq2&Hfee2&_).
  split; [congruence|]. split; [congruence|]. split; [congruence|].
  apply subUnlockedCoins_Ret_inv in Hsub as [Hvalid Hsub].
  apply addCoins_Ret_inv in Hadd as [_ Hadd].
  apply Coins_IsValid_spec in Hvalid as [Hnd Hall].
  rewrite Forall_forall in Hall.
  destruct (subUnlockedLoop_Ret_spec k from _ amt s s1 Hnd Hsub)
    as (_&Hdebit&Hframe1).
  destruct (addLoop_Ret_spec k to amt s1 s3 Hnd Hadd)
    as (_&Hcredit&Hframe2).
  unfold balanceOf in *. rewrite Hbal. split; [|split].
  - intros Hne c Hc. split.
    + rewrite Hframe2 by (by left).
      destruct (Hdebit c Hc) as [-> _]. apply default_entryFor.
    + rewrite (Hcredit c Hc), default_entryFor.
      by rewrite Hframe1 by (left; congruence).
  - intros <-. apply map_eq. intros [addr denom].
    destruct (decide (addr = from ∧ denom ∈ Denom <$> amt))
      as [[-> Hin]|Hout].
    + apply list_elem_of_fmap in Hin as (c&->&Hc).
      destruct (Hdebit c Hc) as [He Hl]. destruct (Hall c Hc) as [_ Hpos].
      rewrite (Hcredit c Hc), He, default_entryFor.
      replace (default 0 (balances s !! (from, Denom c)) - Amount c
               + Amount c)
        with (default 0 (balances s !! (from, Denom c))) by lia.
      destruct (balances s !! (from, Denom c)) as [b|] eqn:Hb; simpl in *;
        [|lia].
      unfold entryFor. by destruct (Z.eqb_spec b 0); [lia|].
    + assert (addr ≠ from ∨ denom ∉ Denom <$> amt) as Hout'.
      { destruct (decide (addr = from)) as [->|]; [right|by left].
        intros ?. by apply Hout. }
      by rewrite Hframe2, Hframe1.
  - intros addr denom Hout.
    rewrite Hframe2, Hframe1; [done|..]; destruct Hout as [[? ?]|?];
      first [by left|by right].
Qed.

Lemma SendCoins_without_rule_moves_amt_witness :
  let s' := storeAfter (SendCoins Scenario.collaborators "addr1" "addr2"
                          [Scenario.foo 5] Scenario.twoDenoms) in
  balanceOf s' "addr1" "foo" = balanceOf Scenario.twoDenoms "addr1" "foo" - 5
  ∧ balanceOf s' "addr2" "foo"
    = balanceOf Scenario.twoDenoms "addr2" "foo" + 5.
Proof.
  cbv zeta.
  destruct (SendCoins_without_rule_moves_amt Scenario.collaborators
              "addr1" "addr2" [Scenario.foo 5] Scenario.twoDenoms
              (storeAfter (SendCoins Scenario.collaborators "addr1" "addr2"
                             [Scenario.foo 5] Scenario.twoDenoms)))
    as (_&_&_&Hmove&_).
  - intros coin Hc. apply list_elem_of_singleton in Hc as ->. reflexivity.
  - vm_compute. reflexivity.
  - apply (Hmove ltac:(discriminate) (Scenario.foo 5)). by left.
Defined.

(** ** The parameters and their validators *)

Import ParamsValidation.

Lemma sendEnabledOf_app overrides overrides' default denom :
  Params.sendEnabledOf (overrides ++ overrides') default denom
  = Params.sendEnabledOf overrides
      (Params.sendEnabledOf overrides' default denom) denom.
Proof.
  induction overrides as [|pse overrides IH]; [done|].
  simpl. by rewrite IH.
Qed.

Lemma sendEnabledOf_without overrides default denom :
  Params.sendEnabledOf
    (List.filter (λ q, negb (String.eqb (SendEnabled.Denom q) denom))
       overrides) default denom = default.
Proof.
  induction overrides as [|pse overrides IH]; [done|].
  simpl. destruct (String.eqb_spec (SendEnabled.Denom pse) denom) as [|Hne];
    simpl; [done|].
  by destruct (String.eqb_spec (SendEnabled.Denom pse) denom).
Qed.

Lemma sendEnabledOf_filter_other overrides default denom other :
  other ≠ denom →
  Params.sendEnabledOf
    (List.filter (λ q, negb (String.eqb (SendEnabled.Denom q) denom))
       overrides) default other
  = Params.sendEnabledOf overrides default other.
Proof.
  intros Hne. induction overrides as [|pse overrides IH]; [done|].
  simpl. destruct (String.eqb_spec (SendEnabled.Denom pse) denom) as [Heq|];
    simpl.
  - destruct (String.eqb_spec (SendEnabled.Denom pse) other); [congruence|].
    exact IH.
  - by rewrite IH.
Qed.

(** X8. [SetSendEnabledParam] sets the flag that [SendEnabledDenom] reads
    for the denomination, whatever entries it had before, and changes the
    answer for no other denomination; the default flag and the deflationary
    rules are carried over. *)
Theorem SetSendEnabledParam_then_SendEnabledDenom (p : Params.t)
    (denom : string) (sendEnabled : bool) :
  let p' := SetSendEnabledParam p denom sendEnabled in
  Params.SendEnabledDenom p' denom = sendEnabled
  ∧ (∀ other, other ≠ denom →
       Params.SendEnabledDenom p' other = Params.SendEnabledDenom p other)
  ∧ Params.DefaultSendEnabled p' = Params.DefaultSendEnabled p
  ∧ Params.SupportDeflationary p' = Params.SupportDeflationary p.
Proof.
  cbv zeta. unfold SetSendEnabledParam, NewParams, Params.SendEnabledDenom.
  cbn [Params.SendEnabled Params.DefaultSendEnabled
       Params.SupportDeflationary].
  split; [|split; [|done]].
  - rewrite sendEnabledOf_app, sendEnabledOf_without. simpl.
    by rewrite String.eqb_refl.
  - intros other Hne. rewrite sendEnabledOf_app. simpl.
    destruct (String.eqb_spec denom other); [congruence|].
    by apply sendEnabledOf_filter_other.
Qed.

(** The loop of [validateSendEnabledParams] accepts a list exactly when no
    denomination is registered already or occurs twice and every
    denomination is valid. *)
Lemma validateSendEnabledFrom_None k registered params :
  validateSendEnabledFrom k registered params = None
  ↔ NoDup (SendEnabled.Denom <$> params)
    ∧ (∀ denom, denom ∈ SendEnabled.Denom <$> params → denom ∉ registered)
    ∧ Forall (λ p, ValidateDenom k (SendEnabled.Denom p) = true) params.
Proof.
  revert registered. induction params as [|p params IH]; intros registered.
  - simpl. split; [|done]. intros _. split; [constructor|].
    split; [by intros ? ?%elem_of_nil|constructor].
  - cbn [validateSendEnabledFrom]. rewrite fmap_cons, NoDup_cons, Forall_cons.
    unfold validateSendEnabled. case_bool_decide as Hreg.
    + split; [done|]. intros (_&Hfresh&_). exfalso.
      apply (Hfresh (SendEnabled.Denom p)); [by left|done].
    + destruct (ValidateDenom k (SendEnabled.Denom p)) eqn:Hv.
      * rewrite IH. split.
        -- intros (Hnd&Hfresh&Hall). split; [split; [|done]|split; [|done]].
           ++ intros Hin. apply (Hfresh _ Hin), elem_of_union. left.
              by apply elem_of_singleton.
           ++ intros denom [->|Hin]%elem_of_cons; [done|].
              intros Hr. apply (Hfresh _ Hin), elem_of_union. by right.
        -- intros ([Hnin Hnd]&Hfresh&_&Hall). split; [done|]. split; [|done].
           intros denom Hin. apply not_elem_of_union. split.
           ++ apply not_elem_of_singleton. intros ->. done.
           ++ apply Hfresh. by right.
      * split; [done|]. by intros (_&_&?&_).
Qed.

(** X9. [validateSendEnabledParams] accepts a list of entries exactly when
    no denomination occurs twice and every denomination is valid. *)
Theorem validateSendEnabledParams_accepts (k : Collaborators)
    (params : list SendEnabled.t) :
  validateSendEnabledParams k params = None
  ↔ NoDup (SendEnabled.Denom <$> params)
    ∧ Forall (λ p, ValidateDenom k (SendEnabled.Denom p) = true) params.
Proof.
  unfold validateSendEnabledParams. rewrite validateSendEnabledFrom_None.
  split; [by intros (?&_&?)|]. intros [? ?]. split; [done|].
  split; [|done]. intros denom _. apply not_elem_of_empty.
Qed.

Lemma validateSendEnabledParams_accepts_witness :
  validateSendEnabledParams Scenario.collaborators
    [SendEnabled.mk "foo" true; SendEnabled.mk "bar" false] = None.
Proof.
  apply (proj2 (validateSendEnabledParams_accepts Scenario.collaborators
                  [SendEnabled.mk "foo" true; SendEnabled.mk "bar" false])).
  split.
  - apply NoDup_ListNoDup. repeat constructor; simpl; intuition discriminate.
  - repeat constructor.
Defined.

Lemma filter_Denom_NoDup denom (params : list SendEnabled.t) :
  NoDup (SendEnabled.Denom <$> params) →
  NoDup (SendEnabled.Denom <$>
           List.filter (λ q, negb (String.eqb (SendEnabled.Denom q) denom))
             params)
  ∧ (denom ∉ SendEnabled.Denom <$>
               List.filter
                 (λ q, negb (String.eqb (SendEnabled.Denom q) denom)) params)
  ∧ (∀ q, q ∈ List.filter
                (λ q, negb (String.eqb (SendEnabled.Denom q) denom)) params →
          q ∈ params).
Proof.
  induction params as [|p params IH]; intros Hnd.
  - split; [constructor|]. split; [by intros ?%elem_of_nil|done].
  - rewrite fmap_cons in Hnd. apply NoDup_cons in Hnd as [Hnin Hnd].
    destruct (IH Hnd) as (IH1&IH2&IH3). cbn [List.filter].
    destruct (String.eqb_spec (SendEnabled.Denom p) denom) as [Heq|Hne];
      cbn [negb].
    + split; [done|]. split; [done|]. intros q Hq. right. by apply IH3.
    + split; [|split].
      * rewrite fmap_cons. apply NoDup_cons. split; [|done].
        intros Hin. apply Hnin.
        apply list_elem_of_fmap in Hin as (q&->&Hq).
        apply list_elem_of_fmap_2. by apply IH3.
      * rewrite fmap_cons. intros [->|Hin]%elem_of_cons; [done|].
        by apply IH2.
      * intros q [->|Hq]%elem_of_cons; [by left|]. right. by apply IH3.
Qed.

(** X10. [SetSendEnabledParam] keeps parameters valid: from parameters that
    [Validate] accepts it makes parameters that [Validate] accepts exactly
    when the denomination it is given is valid. *)
Theorem SetSendEnabledParam_keeps_valid (k : Collaborators) (p : Params.t)
    (denom : string) (sendEnabled : bool) :
  Validate k p = None →
  (Validate k (SetSendEnabledParam p denom sendEnabled) = None
   ↔ ValidateDenom k denom = true).
Proof.
  unfold Validate, validateSendEnabledParams.
  rewrite !validateSendEnabledFrom_None.
  unfold SetSendEnabledParam, NewParams, NewSendEnabled.
  cbn [Params.SendEnabled]. intros (Hnd&_&Hall).
  destruct (filter_Denom_NoDup denom _ Hnd) as (Hnd'&Hnin&Hsub).
  rewrite fmap_app, Forall_app, Forall_singleton. simpl. split.
  - by intros (_&_&_&?).
  - intros Hv. split; [|split; [|split; [|done]]].
    + apply NoDup_app. split; [done|]. split; [|apply NoDup_singleton].
      intros d Hd ->%list_elem_of_singleton. done.
    + intros d _. apply not_elem_of_empty.
    + rewrite Forall_forall in Hall |- *. intros q Hq. by apply Hall, Hsub.
Qed.

Lemma SetSendEnabledParam_keeps_valid_witness :
  Validate Scenario.collaborators
    (SetSendEnabledParam Params.DefaultParams "foo" false) = None.
Proof.
  apply (proj2 (SetSendEnabledParam_keeps_valid Scenario.collaborators
                  Params.DefaultParams "foo" false eq_refl)).
  reflexivity.
Defined.

Lemma firstBadAddress_None k addrs :
  firstBadAddress k addrs = None
  ↔ Forall (λ addr, is_Some (AccAddressFromBech32 k addr)) addrs.
Proof.
  unfold firstBadAddress. induction addrs as [|addr addrs IH].
  - split; [constructor|done].
  - simpl. rewrite Forall_cons.
    destruct (AccAddressFromBech32 k addr) as [a|].
    + rewrite IH. split; [by split; [eexists|]|by intros [_ ?]].
    + split; [done|]. by intros [[? ?] _].
Qed.

Lemma validateSdkDec_true v : validateSdkDec v = true ↔ 0 ≤ v ≤ OneDec.
Proof.
  unfold validateSdkDec. rewrite andb_true_iff, !negb_true_iff.
  rewrite !Z.ltb_ge. done.
Qed.

Lemma validateSupportDeflationary_None k m :
  validateSupportDeflationary k m = None
  ↔ ValidateDenom k (SupportDeflationary.Denom m) = true
    ∧ Forall (λ addr, is_Some (AccAddressFromBech32 k addr))
        (SupportDeflationary.WhitelistedFrom m)
    ∧ Forall (λ addr, is_Some (AccAddressFromBech32 k addr))
        (SupportDeflationary.WhitelistedTo m)
    ∧ 0 ≤ SupportDeflationary.BurnPercent m ≤ OneDec
    ∧ 0 ≤ SupportDeflationary.LiquidityPercent m ≤ OneDec
    ∧ 0 ≤ SupportDeflationary.FeeTaxPercent m ≤ OneDec.
Proof.
  unfold validateSupportDeflationary.
  rewrite <- !firstBadAddress_None, <- !validateSdkDec_true.
  destruct (ValidateDenom k _); simpl; [|by split; [|intros [? _]]].
  destruct (firstBadAddress k (SupportDeflationary.WhitelistedFrom m));
    [by split; [|intros (_&?&_)]|].
  destruct (firstBadAddress k (SupportDeflationary.WhitelistedTo m));
    [by split; [|intros (_&_&?&_)]|].
  destruct (validateSdkDec (SupportDeflationary.BurnPercent m)); simpl;
    [|by split; [|intros (_&_&_&?&_)]].
  destruct (validateSdkDec (SupportDeflationary.LiquidityPercent m)); simpl;
    [|by split; [|intros (_&_&_&_&?&_)]].
  destruct (validateSdkDec (SupportDeflationary.FeeTaxPercent m)); simpl;
    [done|by split; [|intros (_&_&_&_&_&?)]].
Qed.

Lemma validateSupportDeflationaryFrom_None k registered rules :
  validateSupportDeflationaryFrom k registered rules = None
  ↔ NoDup (SupportDeflationary.Denom <$> rules)
    ∧ (∀ denom, denom ∈ SupportDeflationary.Denom <$> rules →
         denom ∉ registered)
    ∧ Forall (λ m, validateSupportDeflationary k m = None) rules.
Proof.
  revert registered. induction rules as [|p rules IH]; intros registered.
  - simpl. split; [|done]. intros _. split; [constructor|].
    split; [by intros ? ?%elem_of_nil|constructor].
  - cbn [validateSupportDeflationaryFrom].
    rewrite fmap_cons, NoDup_cons, Forall_cons.
    case_bool_decide as Hreg.
    + split; [done|]. intros (_&Hfresh&_). exfalso.
      apply (Hfresh (SupportDeflationary.Denom p)); [by left|done].
    + destruct (validateSupportDeflationary k p) eqn:Hv.
      * split; [done|]. by intros (_&_&?&_).
      * rewrite IH. split.
        -- intros (Hnd&Hfresh&Hall). split; [split; [|done]|split; [|done]].
           ++ intros Hin. apply (Hfresh _ Hin), elem_of_union. left.
              by apply elem_of_singleton.
           ++ intros denom [->|Hin]%elem_of_cons; [done|].
              intros Hr. apply (Hfresh _ Hin), elem_of_union. by right.
        -- intros ([Hnin Hnd]&Hfresh&_&Hall). split; [done|]. split; [|done].
           intros denom Hin. apply not_elem_of_union. split.
           ++ apply not_elem_of_singleton. intros ->. done.
           ++ apply Hfresh. by right.
Qed.

(** X11. [validateSupportDeflationaryParams] accepts a list of rules exactly
    when no denomination has two rules and, for every rule, the denomination
    is valid, every address of both whitelists parses and each of the three
    percentages lies between zero and one. *)
Theorem validateSupportDeflationaryParams_accepts (k : Collaborators)
    (rules : list SupportDeflationary.t) :
  validateSupportDeflationaryParams k rules = None
  ↔ NoDup (SupportDeflationary.Denom <$> rules)
    ∧ Forall (λ m,
        ValidateDenom k (SupportDeflationary.Denom m) = true
        ∧ Forall (λ addr, is_Some (AccAddressFromBech32 k addr))
            (SupportDeflationary.WhitelistedFrom m)
        ∧ Forall (λ addr, is_Some (AccAddressFromBech32 k addr))
            (SupportDeflationary.WhitelistedTo m)
        ∧ 0 ≤ SupportDeflationary.BurnPercent m ≤ OneDec
        ∧ 0 ≤ SupportDeflationary.LiquidityPercent m ≤ OneDec
        ∧ 0 ≤ SupportDeflationary.FeeTaxPercent m ≤ OneDec) rules.
Proof.
  unfold validateSupportDeflationaryParams.
  rewrite validateSupportDeflationaryFrom_None.
  assert (Forall (λ m, validateSupportDeflationary k m = None) rules
          ↔ Forall (λ m,
        ValidateDenom k (SupportDeflationary.Denom m) = true
        ∧ Forall (λ addr, is_Some (AccAddressFromBech32 k addr))
            (SupportDeflationary.WhitelistedFrom m)
        ∧ Forall (λ addr, is_Some (AccAddressFromBech32 k addr))
            (SupportDeflationary.WhitelistedTo m)
        ∧ 0 ≤ SupportDeflationary.BurnPercent m ≤ OneDec
        ∧ 0 ≤ SupportDeflationary.LiquidityPercent m ≤ OneDec
        ∧ 0 ≤ SupportDeflationary.FeeTaxPercent m ≤ OneDec) rules) as <-.
  { apply Forall_proper; [|done]. intros m.
    apply validateSupportDeflationary_None. }
  split; [by intros (?&_&?)|]. intros [? ?]. split; [done|].
  split; [|done]. intros denom _. apply not_elem_of_empty.
Qed.

Lemma validateSupportDeflationaryParams_accepts_witness :
  NoDup (SupportDeflationary.Denom <$> [Scenario.specRule]).
Proof.
  apply (proj1 (validateSupportDeflationaryParams_accepts
                  Scenario.collaborators [Scenario.specRule])).
  vm_compute. reflexivity.
Defined.

Lemma NoDup_fmap_inj_on {A B} (f : A → B) (l : list A) (x y : A) :
  NoDup (f <$> l) → x ∈ l → y ∈ l → f x = f y → x = y.
Proof.
  induction l as [|a l IH]; [by intros _ ?%elem_of_nil|].
  rewrite fmap_cons, NoDup_cons. intros [Hnin Hnd] Hx Hy Heq.
  apply elem_of_cons in Hx as [->|Hx], Hy as [->|Hy]; [done| | |by apply IH].
  - exfalso. apply Hnin. rewrite Heq. by apply list_elem_of_fmap_2.
  - exfalso. apply Hnin. rewrite <- Heq. by apply list_elem_of_fmap_2.
Qed.

Lemma ruleApplies_Denom rule from to denom :
  ruleApplies rule from to denom = true →
  SupportDeflationary.Denom rule = denom.
Proof.
  unfold ruleApplies. rewrite !andb_true_iff. intros [[[_ Heq] _] _].
  by apply String.eqb_eq.
Qed.

(** X12. Under rules that [validateSupportDeflationaryParams] accepts a
    denomination has one rule, so the order of the rules does not matter:
    the portions of a coin are those of the one rule that applies to it,
    each the coin's amount times that rule's liquidity percentage, truncated,
    and for a coin that is not negative each lies between zero and the
    coin's amount. *)
Theorem validated_rules_portions (k : Collaborators)
    (rules : list SupportDeflationary.t) (rule : SupportDeflationary.t)
    (from to : AccAddress) (coin : Coin) :
  validateSupportDeflationaryParams k rules = None →
  rule ∈ rules →
  ruleApplies rule from to (Denom coin) = true →
  rulePortions rules from to coin
  = Some (mkPortions (shareOf (Amount coin) rule)
            (shareOf (Amount coin) rule) (shareOf (Amount coin) rule))
  ∧ (0 ≤ Amount coin → 0 ≤ shareOf (Amount coin) rule ≤ Amount coin).
Proof.
  unfold validateSupportDeflationaryParams.
  rewrite validateSupportDeflationaryFrom_None.
  intros (Hnd&_&Hall) Hin Happ. split.
  - destruct (rulePortions rules from to coin) as [p|] eqn:Hp.
    + apply rulePortions_Some in Hp as (d&Hd&Hdapp&Hb&Hl&Hf).
      assert (d = rule) as ->.
      { apply (NoDup_fmap_inj_on SupportDeflationary.Denom rules);
          [done..|].
        apply ruleApplies_Denom in Hdapp, Happ. congruence. }
      destruct p as [b l f]. simpl in *. unfold shareOf. congruence.
    + apply rulePortions_None in Hp. unfold applicable in Hp.
      assert (existsb (λ d, ruleApplies d from to (Denom coin)) rules = true)
        as Hex; [|congruence].
      apply existsb_exists. exists rule. split; [|done].
      by apply list_elem_of_In.
  - intros Hnn. rewrite Forall_forall in Hall.
    apply Hall, validateSupportDeflationary_None in Hin
      as (_&_&_&_&Hliq&_).
    apply truncated_share_bounds; [|done]. by apply validateSdkDec_true.
Qed.

Lemma validated_rules_portions_witness :
  rulePortions [Scenario.specRule] "addr1" "addr2" (Scenario.foo 50)
  = Some (mkPortions (shareOf 50 Scenario.specRule)
            (shareOf 50 Scenario.specRule) (shareOf 50 Scenario.specRule)).
Proof.
  destruct (validated_rules_portions Scenario.collaborators
              [Scenario.specRule] Scenario.specRule "addr1" "addr2"
              (Scenario.foo 50)) as [Hp _].
  - vm_compute. reflexivity.
  - by left.
  - vm_compute. reflexivity.
  - exact Hp.
Defined.

Lemma applyRule_fold_not_applying from to coin acc rules :
  Forall (λ r, ruleApplies r from to (Denom coin) = false) rules →
  fold_left (applyRule from to coin) rules acc = acc.
Proof.
  revert acc. induction rules as [|r rules IH]; intros acc; [done|].
  rewrite Forall_cons. intros [Hr Hall]. simpl. rewrite IH by done.
  unfold applyRule. by rewrite Hr.
Qed.

(** X13. The rule loop has no early exit: when several rules apply to a
    coin, the last of them in the list decides the portions. *)
Theorem rulePortions_last_applying_rule
    (before after : list SupportDeflationary.t) (rule : SupportDeflationary.t)
    (from to : AccAddress) (coin : Coin) :
  ruleApplies rule from to (Denom coin) = true →
  Forall (λ r, ruleApplies r from to (Denom coin) = false) after →
  rulePortions (before ++ rule :: after) from to coin
  = Some (mkPortions (shareOf (Amount coin) rule)
            (shareOf (Amount coin) rule) (shareOf (Amount coin) rule)).
Proof.
  intros Happ Hafter. unfold rulePortions.
  rewrite fold_left_app. simpl.
  rewrite applyRule_fold_not_applying by done.
  unfold applyRule. rewrite Happ, truncated_share. done.
Qed.

Lemma rulePortions_last_applying_rule_witness :
  rulePortions [Scenario.halfRule; Scenario.specRule] "addr1" "addr2"
    (Scenario.foo 50)
  = Some (mkPortions (shareOf 50 Scenario.specRule)
            (shareOf 50 Scenario.specRule) (shareOf 50 Scenario.specRule)).
Proof.
  apply (rulePortions_last_applying_rule [Scenario.halfRule]
           [] Scenario.specRule "addr1" "addr2" (Scenario.foo 50)).
  - vm_compute. reflexivity.
  - constructor.
Defined.

(** ** The ledger under a multi-send *)

Lemma amountIn_app denom coins coins' :
  amountIn denom (coins ++ coins')
  = amountIn denom coins + amountIn denom coins'.
Proof.
  induction coins as [|c coins IH]; [done|].
  rewrite <- app_comm_cons, !amountIn_cons, IH. case_decide; lia.
Qed.

Lemma deflationaryCoins_LedgerMove k from to amt denom net s s' :
  deflationaryCoins k from to amt s = Ret net s' →
  ∃ burned,
    0 ≤ burned
    ∧ LedgerMove denom
        (amountIn denom amt - amountIn denom net - burned) (- burned) s s'.
Proof.
  intros H2. unfold deflationaryCoins, GetParams in H2.
  apply bind_Ret_inv in H2 as (params&s1'&Hp&H2).
  unfold gets in Hp. injection Hp as <- <-.
  apply bind_Ret_inv in H2 as (r&s1&Hr&H2).
  pose proof (splitLoop_OnlyPools k (paramSpace s) from to amt s) as Hpools.
  rewrite Hr in Hpools. simpl in Hpools.
  apply (OnlyPools_LedgerMove denom) in Hpools.
  apply (splitLoop_amounts _ _ _ _ _ denom) in Hr as [Hsum Hnn].
  apply (routeSplit_LedgerMove _ _ denom) in H2 as (->&burned&Hburned&H2).
  exists burned. split; [destruct Hburned; lia|].
  eapply LedgerMove_eq; [| |eapply LedgerMove_trans;
    [exact Hpools|exact H2]]; lia.
Qed.

Lemma inputLeg_LedgerMove k i denom s s' :
  inputLeg k i s = Ret () s' →
  LedgerMove denom (- amountIn denom (Input.Coins i)) 0 s s'.
Proof.
  unfold inputLeg. destruct (AccAddressFromBech32 k _); [|done].
  intros H. apply subUnlockedCoins_Ret_inv in H as [_ H].
  by eapply subUnlockedLoop_LedgerMove.
Qed.

Lemma outputLeg_LedgerMove k out denom s s' :
  outputLeg k out s = Ret () s' →
  ∃ burned,
    0 ≤ burned
    ∧ LedgerMove denom (amountIn denom (Output.Coins out) - burned)
        (- burned) s s'.
Proof.
  unfold outputLeg. destruct (AccAddressFromBech32 k _) as [addr|]; [|done].
  intros H. apply bind_Ret_inv in H as (net&s1&H1&H).
  apply bind_Ret_inv in H as ([]&s2&H2&H).
  apply (deflationaryCoins_LedgerMove _ _ _ _ denom) in H1
    as (burned&Hnn&H1).
  apply (addCoins_LedgerMove _ _ _ denom) in H2.
  pose proof (createAccountIfAbsent_frame addr s2) as Hf.
  rewrite H in Hf. simpl in Hf. destruct Hf as (_&Hb&Hs&_).
  exists burned. split; [done|].
  unfold LedgerMove, supplyOf in *. rewrite Hb, Hs.
  destruct H1, H2. lia.
Qed.

Lemma inputLoop_LedgerMove k inputs denom s s' :
  forEach inputs (inputLeg k) s = Ret () s' →
  LedgerMove denom (- amountIn denom (concat (Input.Coins <$> inputs))) 0
    s s'.
Proof.
  revert s. induction inputs as [|i inputs IH]; intros s H.
  - simpl in H. injection H as <-. apply LedgerMove_refl.
  - apply forEach_Ret_cons in H as (s1&H1&H).
    apply (inputLeg_LedgerMove _ _ denom) in H1. apply IH in H.
    rewrite fmap_cons. cbn [concat]. rewrite amountIn_app.
    eapply LedgerMove_eq; [| |eapply LedgerMove_trans;
      [exact H1|exact H]]; lia.
Qed.

Lemma outputLoop_LedgerMove k outputs denom s s' :
  forEach outputs (outputLeg k) s = Ret () s' →
  ∃ burned,
    0 ≤ burned
    ∧ LedgerMove denom
        (amountIn denom (concat (Output.Coins <$> outputs)) - burned)
        (- burned) s s'.
Proof.
  revert s. induction outputs as [|out outputs IH]; intros s H.
  - simpl in H. injection H as <-. exists 0. split; [done|].
    apply LedgerMove_refl.
  - apply forEach_Ret_cons in H as (s1&H1&H).
    apply (outputLeg_LedgerMove _ _ denom) in H1 as (b1&Hb1&H1).
    apply IH in H as (b2&Hb2&H).
    exists (b1 + b2). split; [lia|].
    rewrite fmap_cons. cbn [concat]. rewrite amountIn_app.
    eapply LedgerMove_eq; [| |eapply LedgerMove_trans;
      [exact H1|exact H]]; lia.
Qed.

(** X14. A successful [InputOutputCoins] keeps the books of every
    denomination: the sum of all balance entries changes by what the outputs
    request less what the inputs give less the amount burned, and the supply
    falls by the amount burned, which is not negative. *)
Theorem InputOutputCoins_ledger (k : Collaborators)
    (inputs : list Input.t) (outputs : list Output.t) (s s' : State)
    (denom : string) :
  InputOutputCoins k inputs outputs s = Ret () s' →
  ∃ burned,
    0 ≤ burned
    ∧ balancesTotal (balances s') denom
      = balancesTotal (balances s) denom
        - amountIn denom (concat (Input.Coins <$> inputs))
        + amountIn denom (concat (Output.Coins <$> outputs)) - burned
    ∧ supplyOf s' denom = supplyOf s denom - burned.
Proof.
  unfold InputOutputCoins.
  destruct (ValidateInputsOutputs inputs outputs); [done|].
  intros H. apply bind_Ret_inv in H as ([]&s1&H1&H2).
  apply (inputLoop_LedgerMove _ _ denom) in H1.
  apply (outputLoop_LedgerMove _ _ denom) in H2 as (burned&Hnn&H2).
  exists burned. split; [done|].
  unfold LedgerMove in *. destruct H1, H2. lia.
Qed.

Lemma InputOutputCoins_ledger_witness :
  ∃ burned,
    0 ≤ burned
    ∧ supplyOf
        (storeAfter
           (InputOutputCoins Scenario.collaborators
              [Input.mk "addr1" [Scenario.foo 50]]
              [Output.mk "addr2" [Scenario.foo 50]]
              Scenario.fundedWithPools)) "foo"
      = supplyOf Scenario.fundedWithPools "foo" - burned.
Proof.
  destruct (InputOutputCoins_ledger Scenario.collaborators
              [Input.mk "addr1" [Scenario.foo 50]]
              [Output.mk "addr2" [Scenario.foo 50]]
              Scenario.fundedWithPools
              (storeAfter
                 (InputOutputCoins Scenario.collaborators
                    [Input.mk "addr1" [Scenario.foo 50]]
                    [Output.mk "addr2" [Scenario.foo 50]]
                    Scenario.fundedWithPools)) "foo")
    as (burned&Hnn&_&Hsup).
  - vm_compute. reflexivity.
  - exists burned. by split.
Defined.

(** ** The send-enabled check *)

Lemma sendDisabledIn_None params coins :
  sendDisabledIn params coins = None
  ↔ Forall (λ c, Params.SendEnabledDenom params (Denom c) = true) coins.
Proof.
  induction coins as [|c coins IH]; [by split; [constructor|]|].
  simpl. rewrite Forall_cons.
  destruct (Params.SendEnabledDenom params (Denom c)); simpl.
  - rewrite IH. tauto.
  - split; [done|]. by intros [? _].
Qed.

(** X15. [IsSendEnabledCoins] only reads.  It returns without error exactly
    when sending is enabled for the denomination of every coin; otherwise
    its error names the first coin's denomination for which sending is
    disabled. *)
Theorem IsSendEnabledCoins_checks_every_coin (coins : Coins) (s : State) :
  storeAfter (IsSendEnabledCoins coins s) = s
  ∧ (IsSendEnabledCoins coins s = Ret () s
     ↔ Forall (λ c, Params.SendEnabledDenom (paramSpace s) (Denom c) = true)
         coins)
  ∧ (∀ e s', IsSendEnabledCoins coins s = Fail e s' →
       ∃ before c after,
         coins = before ++ c :: after
         ∧ e = ErrSendDisabled (Denom c)
         ∧ Params.SendEnabledDenom (paramSpace s) (Denom c) = false
         ∧ Forall (λ c', Params.SendEnabledDenom (paramSpace s) (Denom c')
                         = true) before).
Proof.
  unfold IsSendEnabledCoins, GetParams. rewrite bind_unfold. simpl.
  rewrite <- sendDisabledIn_None.
  destruct (sendDisabledIn (paramSpace s) coins) as [e|] eqn:He; simpl.
  - split; [done|]. split; [done|]. intros e' s' [= <- <-].
    induction coins as [|c coins IH]; [done|]. simpl in He.
    destruct (Params.SendEnabledDenom (paramSpace s) (Denom c)) eqn:Hc;
      simpl in He.
    + destruct (IH He) as (before&c'&after&->&->&Hd&Hall).
      exists (c :: before), c', after. split; [done|]. split; [done|].
      split; [done|]. by constructor.
    + injection He as <-. exists [], c, coins. split; [done|].
      split; [done|]. split; [done|]. constructor.
  - split; [done|]. split; [done|]. by intros e s'.
Qed.

Lemma IsSendEnabledCoins_checks_every_coin_witness :
  ∃ before c after,
    [Scenario.foo 5] = before ++ c :: after
    ∧ Params.SendEnabledDenom Scenario.sendDisabled (Denom c) = false.
Proof.
  destruct (IsSendEnabledCoins_checks_every_coin [Scenario.foo 5]
              (Scenario.funded Scenario.sendDisabled)) as (_&_&Hfail).
  destruct (Hfail (ErrSendDisabled "foo")
              (Scenario.funded Scenario.sendDisabled) eq_refl)
    as (before&c&after&Hsplit&_&Hd&_).
  by exists before, c, after.
Defined.

(** ** When the split returns *)

Lemma Returns_ret {A} (a : A) : Returns (mret a : Keeper A).
Proof. intros s. by exists a, s. Qed.

Lemma Returns_gets {A} (f : State → A) : Returns (gets f).
Proof. intros s. by exists (f s), s. Qed.

Lemma Returns_modify (f : State → State) : Returns (modify f).
Proof. intros s. by exists (), (f s). Qed.

Lemma Returns_bind {A B} (m : Keeper A) (f : A → Keeper B) :
  Returns m → (∀ a, Returns (f a)) → Returns (m ≫= f).
Proof.
  intros Hm Hf s. rewrite bind_unfold.
  destruct (Hm s) as (a&s1&->). apply Hf.
Qed.

Lemma Returns_bind_NewCoin {B} (v : string → bool) denom amount
    (f : Coin → Keeper B) :
  v denom = true → 0 ≤ amount →
  Returns (f (NewCoinRaw denom amount)) →
  Returns (liftCoin (NewCoin v denom amount) ≫= f).
Proof.
  intros Hv Ha Hf s. rewrite bind_unfold, liftCoin_NewCoin_Ret by done.
  apply Hf.
Qed.

Lemma Returns_setLiquidityPool coin : Returns (setLiquidityPool coin).
Proof.
  unfold setLiquidityPool. destruct (Coin_IsZero coin); apply Returns_modify.
Qed.

Lemma Returns_setFeeTaxPool coin : Returns (setFeeTaxPool coin).
Proof.
  unfold setFeeTaxPool. destruct (Coin_IsZero coin); apply Returns_modify.
Qed.

Lemma splitLoop_Returns k params from to amt :
  Forall (splitFits k (Params.SupportDeflationary params) from to) amt →
  Returns (splitLoop k params from to amt).
Proof.
  induction amt as [|coin rest IH]; [intros _; apply Returns_ret|].
  rewrite Forall_cons. intros [Hfit Hrest]. specialize (IH Hrest).
  unfold splitFits in Hfit. cbn [splitLoop].
  destruct (rulePortions _ from to coin) as [p|].
  - destruct Hfit as (Hv&Hb&Hl&Hf&Hsum).
    apply Returns_bind_NewCoin; [done..|].
    apply Returns_bind_NewCoin; [done..|].
    apply Returns_bind_NewCoin; [done..|].
    cbv zeta. apply Returns_bind_NewCoin; [done|lia|].
    apply Returns_bind.
    { destruct (0 <? liquidityAmount p); [|apply Returns_ret].
      apply Returns_bind; [apply Returns_gets|].
      intros pool. apply Returns_setLiquidityPool. }
    intros _. apply Returns_bind.
    { destruct (0 <? feeTarAmount p); [|apply Returns_ret].
      apply Returns_bind; [apply Returns_gets|].
      intros pool. apply Returns_setFeeTaxPool. }
    intros _. apply Returns_bind; [done|]. intros r. apply Returns_ret.
  - apply Returns_bind; [done|]. intros r. apply Returns_ret.
Qed.

Lemma splitLoop_Ret_fits k params from to amt s r s' :
  splitLoop k params from to amt s = Ret r s' →
  Forall (splitFits k (Params.SupportDeflationary params) from to) amt.
Proof.
  revert s r s'. induction amt as [|coin rest IH]; intros s r s' Hr;
    [constructor|].
  cbn [splitLoop] in Hr. apply Forall_cons. unfold splitFits at 1.
  destruct (rulePortions _ from to coin) as [p|] eqn:Hp.
  - apply bind_Ret_inv in Hr as (bc&s1&Hbc&Hr).
    apply liftCoin_Ret_inv in Hbc as [Hbc _].
    apply NewCoin_inr in Hbc as (->&Hv&Hb0).
    apply bind_Ret_inv in Hr as (lc&s2&Hlc&Hr).
    apply liftCoin_Ret_inv in Hlc as [Hlc _].
    apply NewCoin_inr in Hlc as (->&_&Hl0).
    apply bind_Ret_inv in Hr as (fc&s3&Hfc&Hr).
    apply liftCoin_Ret_inv in Hfc as [Hfc _].
    apply NewCoin_inr in Hfc as (->&_&Hf0).
    apply bind_Ret_inv in Hr as (sc&s4&Hsc&Hr).
    apply liftCoin_Ret_inv in Hsc as [Hsc _].
    apply NewCoin_inr in Hsc as (->&_&Hs0).
    apply bind_Ret_inv in Hr as (?&s5&_&Hr).
    apply bind_Ret_inv in Hr as (?&s6&_&Hr).
    apply bind_Ret_inv in Hr as (r'&s7&Hrest&Hr).
    split; [repeat split; first [done|lia]|]. by eapply IH.
  - apply bind_Ret_inv in Hr as (r'&s1&Hrest&Hr).
    split; [done|]. by eapply IH.
Qed.

(** X16. The loop of the split returns exactly when every coin fits: a coin
    without applying rule always does, and a coin with one does when its
    denomination is valid, its three portions are not negative and together
    they do not exceed the coin.  The store plays no part in it. *)
Theorem splitLoop_returns_iff_fits (k : Collaborators) (params : Params.t)
    (from to : AccAddress) (amt : Coins) (s : State) :
  (∃ r s', splitLoop k params from to amt s = Ret r s')
  ↔ Forall (splitFits k (Params.SupportDeflationary params) from to) amt.
Proof.
  split.
  - intros (r&s'&Hr). by eapply splitLoop_Ret_fits.
  - intros Hfit. by apply splitLoop_Returns.
Qed.

Lemma splitLoop_returns_iff_fits_witness :
  ∃ r s',
    splitLoop Scenario.collaborators (Params.mk [] true [Scenario.specRule])
      "addr1" "addr2" [Scenario.foo 50] Scenario.fundedWithPools = Ret r s'.
Proof.
  apply (proj2 (splitLoop_returns_iff_fits Scenario.collaborators
                  (Params.mk [] true [Scenario.specRule]) "addr1" "addr2"
                  [Scenario.foo 50] Scenario.fundedWithPools)).
  constructor; [|constructor].
  vm_compute. repeat split; discriminate.
Defined.

(** ** Reading back what a setter wrote *)

(** X17. What [setSupply], [setLiquidityPool] and [setFeeTaxPool] write is
    what the getter of the same store reads back for the coin's
    denomination, a zero amount included although its entry is removed; the
    getter's answer for every other denomination is as before. *)
Theorem setters_then_getters (coin : Coin) (denom : string) (s : State) :
  (setSupply coin ;; getSupply denom) s
  = Ret (NewCoinRaw denom
           (if decide (denom = Denom coin) then Amount coin
            else default 0 (supply s !! denom)))
      (storeAfter (setSupply coin s))
  ∧ (setLiquidityPool coin ;; getLiquidityPool denom) s
    = Ret (NewCoinRaw denom
             (if decide (denom = Denom coin) then Amount coin
              else default 0 (liquidityPool s !! denom)))
        (storeAfter (setLiquidityPool coin s))
  ∧ (setFeeTaxPool coin ;; getFeeTaxPool denom) s
    = Ret (NewCoinRaw denom
             (if decide (denom = Denom coin) then Amount coin
              else default 0 (feeTaxPool s !! denom)))
        (storeAfter (setFeeTaxPool coin s)).
Proof.
  unfold setSupply, getSupply, setLiquidityPool, getLiquidityPool,
    setFeeTaxPool, getFeeTaxPool, Coin_IsZero, gets, modify.
  rewrite !bind_unfold.
  destruct (Z.eqb_spec (Amount coin) 0) as [Hz|Hnz]; cbn [storeAfter];
    (case_decide as Hd; [subst denom|]).
  all: cbn [supply liquidityPool feeTaxPool with_supply with_liquidityPool
            with_feeTaxPool].
  all: rewrite ?lookup_delete_eq, ?lookup_insert_eq.
  all: rewrite ?lookup_delete_ne, ?lookup_insert_ne by done.
  all: cbn [default from_option]; rewrite ?Hz.
  all: done.
Qed.

(** ** Loading the balances of a genesis state *)

Lemma initBalances_cons k addr c coins s :
  initBalances k addr (c :: coins) s
  = if Coin_IsValid (ValidateDenom k) c
    then initBalances k addr coins
           (if Amount c =? 0 then s
            else with_balances (<[(addr, Denom c) := Amount c]> (balances s))
                   s)
    else Fail (ErrInvalidCoins [c]) s.
Proof.
  unfold initBalances. cbn [forEach]. rewrite bind_unfold.
  unfold Coin_IsZero.
  destruct (Coin_IsValid (ValidateDenom k) c); [|done]. cbn [negb].
  by destruct (Amount c =? 0).
Qed.

Lemma initBalances_nil k addr s : initBalances k addr [] s = Ret () s.
Proof. done. Qed.

Lemma initBalances_valid k addr coins s :
  Forall (λ c, Coin_IsValid (ValidateDenom k) c = true) coins →
  ∃ s',
    initBalances k addr coins s = Ret () s'
    ∧ OnlyBalances s s'
    ∧ (∀ addr' denom, addr' ≠ addr ∨ denom ∉ Denom <$> coins →
         balances s' !! (addr', denom) = balances s !! (addr', denom))
    ∧ (NoDup (Denom <$> coins) →
       ∀ c, c ∈ coins →
         balances s' !! (addr, Denom c)
         = if Amount c =? 0 then balances s !! (addr, Denom c)
           else Some (Amount c)).
Proof.
  revert s. induction coins as [|c0 coins IH]; intros s Hall.
  - exists s. split; [done|]. split; [reflexivity|]. split; [done|].
    by intros _ ? ?%elem_of_nil.
  - apply Forall_cons in Hall as [Hv Hall].
    rewrite initBalances_cons, Hv.
    destruct (IH (if Amount c0 =? 0 then s
                  else with_balances
                         (<[(addr, Denom c0) := Amount c0]> (balances s)) s)
                Hall) as (s'&Hrun&Hob&Hframe&Hcoins).
    exists s'. split; [done|]. split; [|split].
    + etrans; [|exact Hob]. by destruct (Amount c0 =? 0).
    + intros addr' denom Hout. rewrite Hframe.
      * destruct (Amount c0 =? 0); [done|]. simpl.
        apply lookup_insert_ne. intros [= <- <-].
        destruct Hout as [Hout|Hout]; [done|]. apply Hout.
        rewrite fmap_cons. by left.
      * destruct Hout as [Hout|Hout]; [by left|right].
        intros Hin. apply Hout. rewrite fmap_cons. by right.
    + rewrite fmap_cons, NoDup_cons. intros [Hnin Hnd] c Hc.
      apply elem_of_cons in Hc as [->|Hc].
      * rewrite Hframe by (by right).
        destruct (Amount c0 =? 0); [done|]. simpl. apply lookup_insert_eq.
      * rewrite (Hcoins Hnd c Hc). destruct (Amount c =? 0); [|done].
        destruct (Amount c0 =? 0); [done|]. simpl.
        apply lookup_insert_ne. intros [= Heq]. apply Hnin. rewrite Heq.
        by apply list_elem_of_fmap_2.
Qed.

(** X18. [initBalances] writes valid coins one by one: a coin that is not
    zero becomes the entry of its denomination, and a zero coin is skipped,
    so an entry the store already has for that denomination stays (where
    [setBalance] would remove it).  The first invalid coin ends the loop
    with the error naming it, and the coins written before it stay
    written. *)
Theorem initBalances_writes_until_invalid (k : Collaborators)
    (addr : AccAddress) (coins : Coins) (s : State) :
  (Forall (λ c, Coin_IsValid (ValidateDenom k) c = true) coins →
   ∃ s',
     initBalances k addr coins s = Ret () s'
     ∧ OnlyBalances s s'
     ∧ (∀ addr' denom, addr' ≠ addr ∨ denom ∉ Denom <$> coins →
          balances s' !! (addr', denom) = balances s !! (addr', denom))
     ∧ (NoDup (Denom <$> coins) →
        ∀ c, c ∈ coins →
          balances s' !! (addr, Denom c)
          = if Amount c =? 0 then balances s !! (addr, Denom c)
            else Some (Amount c)))
  ∧ (∀ before bad after,
       coins = before ++ bad :: after →
       Forall (λ c, Coin_IsValid (ValidateDenom k) c = true) before →
       Coin_IsValid (ValidateDenom k) bad = false →
       initBalances k addr coins s
       = Fail (ErrInvalidCoins [bad])
           (storeAfter (initBalances k addr before s))).
Proof.
  split; [apply initBalances_valid|].
  intros before bad after -> Hbefore Hbad. revert s.
  induction before as [|c before IH]; intros s.
  - simpl app. by rewrite initBalances_cons, Hbad.
  - apply Forall_cons in Hbefore as [Hv Hbefore].
    rewrite <- app_comm_cons, !initBalances_cons, Hv. by apply IH.
Qed.

Lemma initBalances_writes_until_invalid_witness :
  initBalances Scenario.collaborators "addr1"
    [Scenario.foo 7; Scenario.foo (-1); Scenario.bar 3] Scenario.emptyStore
  = Fail (ErrInvalidCoins [Scenario.foo (-1)])
      (storeAfter (initBalances Scenario.collaborators "addr1"
                     [Scenario.foo 7] Scenario.emptyStore)).
Proof.
  destruct (initBalances_writes_until_invalid Scenario.collaborators "addr1"
              [Scenario.foo 7; Scenario.foo (-1); Scenario.bar 3]
              Scenario.emptyStore) as [_ Hfail].
  apply (Hfail [Scenario.foo 7] (Scenario.foo (-1)) [Scenario.bar 3]).
  - reflexivity.
  - by repeat constructor.
  - reflexivity.
Defined.

(** ** The pool-spend proposal *)

Import ProposalHandler.

(** X20. [HandleDeflationaryPoolSpendProposal] reaches the distribution
    only with two recipients that parse and are not blocked, and hands it
    the two amounts of the proposal; the liquidity recipient is settled
    before the fee-tax recipient is looked at.  Every refusal for a
    recipient leaves the store as it was. *)
Theorem handler_distributes_only_to_unblocked (k : Collaborators)
    (blockedAddrs : gmap string bool)
    (distribute : AccAddress → AccAddress → Coins → Coins → Keeper unit)
    (p : DeflationaryPoolSpendProposal) (s : State) :
  (∀ s', HandleDeflationaryPoolSpendProposal k blockedAddrs distribute p s
         = Handled s' →
     ∃ liquidityRecipient feeTaxRecipient,
       AccAddressFromBech32 k (LiquidityRecipient p)
       = Some liquidityRecipient
       ∧ AccAddressFromBech32 k (FeeTaxRecipient p) = Some feeTaxRecipient
       ∧ BlockedAddr blockedAddrs liquidityRecipient = false
       ∧ BlockedAddr blockedAddrs feeTaxRecipient = false
       ∧ distribute liquidityRecipient feeTaxRecipient (LiquidityAmount p)
           (FeeTaxAmount p) s = Ret () s')
  ∧ (∀ addr s',
       HandleDeflationaryPoolSpendProposal k blockedAddrs distribute p s
       = Refused (HandlerUnauthorized addr) s' →
       s' = s ∧ BlockedAddr blockedAddrs addr = true)
  ∧ (∀ text s',
       HandleDeflationaryPoolSpendProposal k blockedAddrs distribute p s
       = Refused (HandlerInvalidAddress text) s' →
       s' = s ∧ AccAddressFromBech32 k text = None)
  ∧ (∀ liquidityRecipient,
       AccAddressFromBech32 k (LiquidityRecipient p)
       = Some liquidityRecipient →
       BlockedAddr blockedAddrs liquidityRecipient = true →
       HandleDeflationaryPoolSpendProposal k blockedAddrs distribute p s
       = Refused (HandlerUnauthorized liquidityRecipient) s).
Proof.
  unfold HandleDeflationaryPoolSpendProposal.
  destruct (AccAddressFromBech32 k (LiquidityRecipient p)) as [l|] eqn:Hl.
  2: { split; [done|]. split; [done|]. split; [|done].
       by intros text s' [= <- <-]. }
  destruct (BlockedAddr blockedAddrs l) eqn:Hbl.
  { split; [done|]. split; [by intros addr s' [= <- <-]|].
    split; [done|]. by intros ? [= <-] _. }
  destruct (AccAddressFromBech32 k (FeeTaxRecipient p)) as [f|] eqn:Hf.
  2: { split; [done|]. split; [done|].
       split; [|intros ? [= <-] ?; congruence].
       by intros text s' [= <- <-]. }
  destruct (BlockedAddr blockedAddrs f) eqn:Hbf.
  { split; [done|]. split; [by intros addr s' [= <- <-]|].
    split; [done|]. intros ? [= <-] ?; congruence. }
  destruct (distribute l f (LiquidityAmount p) (FeeTaxAmount p) s)
    as [[] s1|e s1|m s1] eqn:Hd.
  - split; [|split; [done|split; [done|intros ? [= <-] ?; congruence]]].
    intros s' [= <-]. by exists l, f.
  - split; [done|]. split; [done|]. split; [done|].
    intros ? [= <-] ?; congruence.
  - split; [done|]. split; [done|]. split; [done|].
    intros ? [= <-] ?; congruence.
Qed.

Lemma handler_distributes_only_to_unblocked_witness :
  HandleDeflationaryPoolSpendProposal Scenario.collaborators
    {[ "addr9" := true ]} (λ _ _ _ _, mret ())
    (mkProposal "title" "text" "addr9" "" [Scenario.foo 1] [])
    Scenario.emptyStore
  = Refused (HandlerUnauthorized "addr9") Scenario.emptyStore.
Proof.
  destruct (handler_distributes_only_to_unblocked Scenario.collaborators
              {[ "addr9" := true ]} (λ _ _ _ _, mret ())
              (mkProposal "title" "text" "addr9" "" [Scenario.foo 1] [])
              Scenario.emptyStore) as (_&_&_&Hblocked).
  apply (Hblocked "addr9"); reflexivity.
Defined.
(** ** The module account at genesis *)

Lemma forEach_modify_frame {A} (l : list A) (body : A → Keeper unit) s s' :
  (∀ x s0, ∃ s1, body x s0 = Ret () s1 ∧ balances s1 = balances s0
                 ∧ accounts s1 = accounts s0) →
  forEach l body s = Ret () s' →
  balances s' = balances s ∧ accounts s' = accounts s.
Proof.
  intros Hbody. revert s. induction l as [|x l IH]; intros s H.
  - simpl in H. by injection H as <-.
  - apply forEach_Ret_cons in H as (s1&H1&H).
    destruct (Hbody x s) as (s1'&Hx&Hb&Ha).
    rewrite Hx in H1. injection H1 as <-.
    destruct (IH _ H) as [-> ->]. done.
Qed.

Lemma GetAllBalances_nil addr s :
  Coins_Sort
    (omap (λ e : AccAddress * string * Z,
             if decide (e.1.1 = addr)
             then Some (NewCoinRaw e.1.2 e.2) else None)
          (map_to_list (balances s))) = [] →
  ∀ denom, balances s !! (addr, denom) = None.
Proof.
  intros Hnil denom.
  destruct (balances s !! (addr, denom)) as [v|] eqn:Hv; [|done].
  exfalso.
  assert (NewCoinRaw denom v ∈
            omap (λ e : AccAddress * string * Z,
                    if decide (e.1.1 = addr)
                    then Some (NewCoinRaw e.1.2 e.2) else None)
                 (map_to_list (balances s))) as Hin.
  { apply list_elem_of_omap. exists ((addr, denom), v). split.
    - by apply elem_of_map_to_list.
    - simpl. by case_decide. }
  unfold Coins_Sort in Hnil.
  rewrite <- (merge_sort_Permutation
                (λ a b, String.le (Denom a) (Denom b))) in Hin.
  rewrite Hnil in Hin. by apply elem_of_nil in Hin.
Qed.

Lemma Coins_IsEqual_nil coins : Coins_IsEqual coins [] = true → coins = [].
Proof.
  unfold Coins_IsEqual. rewrite andb_true_iff. intros [Hlen _].
  apply Nat.eqb_eq in Hlen. by destruct coins.
Qed.

(** X19. [InitGenesis] returns only when the module account exists and,
    after the balances of the genesis state are loaded, holds no balance
    in any denomination; it then has registered the module account.  The
    module holdings that its balance is compared with are always empty,
    whatever the two pools of the genesis state contain. *)
Theorem InitGenesis_module_account_holds_nothing (k : Collaborators)
    (genState : GenesisState.t) (s s' : State) :
  InitGenesis k genState s = Ret () s' →
  ∃ moduleAcc,
    GetModuleAccount k ModuleName = Some moduleAcc
    ∧ (∀ denom, balances s' !! (ModuleAccount.Address moduleAcc, denom)
                = None)
    ∧ ModuleAccount.Address moduleAcc ∈ accounts s'.
Proof.
  unfold InitGenesis. intros H.
  apply bind_Ret_inv in H as ([]&s1&_&H).
  apply bind_Ret_inv in H as (total&s2&_&H). cbv zeta in H.
  destruct (negb (Coins_Empty (GenesisState.Supply genState))
            && negb (Coins_IsEqual (GenesisState.Supply genState)
                       (Coins_Add total []))); [done|].
  apply bind_Ret_inv in H as ([]&s3&_&H).
  apply bind_Ret_inv in H as ([]&s4&_&H).
  apply bind_Ret_inv in H as ([]&s5&_&H).
  apply bind_Ret_inv in H as ([]&s6&_&H).
  destruct (GetModuleAccount k ModuleName) as [moduleAcc|]; [|done].
  exists moduleAcc. split; [done|].
  apply bind_Ret_inv in H as (bs&s7&Hbs&H).
  unfold GetAllBalances, gets in Hbs. injection Hbs as <- <-.
  apply bind_Ret_inv in H as ([]&s8&Hset&H).
  destruct (Coins_IsEqual _ []) eqn:Heq; [|done].
  simpl in H. injection H as <-.
  apply Coins_IsEqual_nil in Heq. rewrite Heq in Hset. simpl in Hset.
  unfold SetAccount, modify in Hset. injection Hset as <-. simpl.
  split; [by apply GetAllBalances_nil|].
  apply elem_of_union. left. by apply elem_of_singleton.
Qed.

Lemma InitGenesis_module_account_holds_nothing_witness :
  ∃ moduleAcc,
    GetModuleAccount Scenario.collaborators ModuleName = Some moduleAcc
    ∧ ModuleAccount.Address moduleAcc ∈
        accounts (storeAfter (InitGenesis Scenario.collaborators
                                Scenario.genesisWithoutPools
                                Scenario.emptyStore)).
Proof.
  destruct (InitGenesis_module_account_holds_nothing Scenario.collaborators
              Scenario.genesisWithoutPools Scenario.emptyStore
              (storeAfter (InitGenesis Scenario.collaborators
                             Scenario.genesisWithoutPools
                             Scenario.emptyStore)))
    as (moduleAcc&Hacc&_&Hin).
  - vm_compute. reflexivity.
  - exists moduleAcc. exact (conj Hacc Hin).
Defined.


(** ** Which transfers are split *)

Lemma IsWhitelisted_elem_of (addrs : list string) (addr : string) :
  existsb (λ a, String.eqb a addr) addrs = true ↔ addr ∈ addrs.
Proof.
  rewrite existsb_exists. split.
  - intros (a&Hin&Heq). apply String.eqb_eq in Heq as ->.
    by apply list_elem_of_In.
  - intros Hin. exists addr. split; [by apply list_elem_of_In|].
    apply String.eqb_refl.
Qed.

Lemma ruleApplies_true rule from to denom :
  ruleApplies rule from to denom = true
  ↔ SupportDeflationary.Enabled rule = true
    ∧ SupportDeflationary.Denom rule = denom
    ∧ (from ∉ SupportDeflationary.WhitelistedFrom rule)
    ∧ to ∈ SupportDeflationary.WhitelistedTo rule.
Proof.
  unfold ruleApplies, SupportDeflationary.IsWhitelistedFrom,
    SupportDeflationary.IsWhitelistedTo.
  rewrite !andb_true_iff, negb_true_iff, String.eqb_eq,
    <- not_true_iff_false, !IsWhitelisted_elem_of. tauto.
Qed.

(** X21. A coin is split exactly when some rule is enabled, is the rule of
    the coin's denomination, does not list the sender in [WhitelistedFrom]
    and lists the recipient in [WhitelistedTo].  In particular a rule with
    an empty [WhitelistedTo] list splits no transfer. *)
Theorem coin_is_split_iff (rules : list SupportDeflationary.t)
    (from to : AccAddress) (coin : Coin) :
  is_Some (rulePortions rules from to coin)
  ↔ ∃ rule,
      rule ∈ rules
      ∧ SupportDeflationary.Enabled rule = true
      ∧ SupportDeflationary.Denom rule = Denom coin
      ∧ (from ∉ SupportDeflationary.WhitelistedFrom rule)
      ∧ to ∈ SupportDeflationary.WhitelistedTo rule.
Proof.
  rewrite <- not_eq_None_Some, rulePortions_None, not_false_iff_true.
  unfold applicable. rewrite existsb_exists. split.
  - intros (rule&Hin&Happ). exists rule.
    split; [by apply list_elem_of_In|]. by apply ruleApplies_true.
  - intros (rule&Hin&Happ). exists rule.
    split; [by apply list_elem_of_In|]. by apply ruleApplies_true.
Qed.

Lemma coin_is_split_iff_witness :
  is_Some (rulePortions [Scenario.specRule] "addr1" "addr2"
             (Scenario.foo 50)).
Proof.
  apply (proj2 (coin_is_split_iff [Scenario.specRule] "addr1" "addr2"
                  (Scenario.foo 50))).
  exists Scenario.specRule. split; [by left|].
  split; [reflexivity|]. split; [reflexivity|].
  split; [by intros ?%elem_of_nil|]. by left.
Defined.

Lemma SetSendEnabledParam_then_SendEnabledDenom_witness :
  Params.SendEnabledDenom
    (SetSendEnabledParam Params.DefaultParams "foo" false) "bar"
  = Params.SendEnabledDenom Params.DefaultParams "bar".
Proof.
  destruct (SetSendEnabledParam_then_SendEnabledDenom Params.DefaultParams
              "foo" false) as (_&Hother&_).
  apply (Hother "bar"). discriminate.
Defined.

(** ** One taxed coin, from end to end *)

Lemma splitLoop_single_Ret k params from to coin p s r s' :
  rulePortions (Params.SupportDeflationary params) from to coin = Some p →
  splitLoop k params from to [coin] s = Ret r s' →
  r = mkSplit
        [NewCoinRaw (Denom coin)
           (Amount coin - burnAmount p - liquidityAmount p - feeTarAmount p)]
        [NewCoinRaw (Denom coin) (burnAmount p)]
        [NewCoinRaw (Denom coin) (liquidityAmount p)]
        [NewCoinRaw (Denom coin) (feeTarAmount p)]
  ∧ 0 ≤ burnAmount p ∧ 0 ≤ liquidityAmount p ∧ 0 ≤ feeTarAmount p.
Proof.
  intros Hp Hr. cbn [splitLoop] in Hr. rewrite Hp in Hr.
  apply bind_Ret_inv in Hr as (bc&s1&Hbc&Hr).
  apply liftCoin_Ret_inv in Hbc as [Hbc _].
  apply NewCoin_inr in Hbc as (->&Hv&Hb0).
  apply bind_Ret_inv in Hr as (lc&s2&Hlc&Hr).
  apply liftCoin_Ret_inv in Hlc as [Hlc _].
  apply NewCoin_inr in Hlc as (->&_&Hl0).
  apply bind_Ret_inv in Hr as (fc&s3&Hfc&Hr).
  apply liftCoin_Ret_inv in Hfc as [Hfc _].
  apply NewCoin_inr in Hfc as (->&_&Hf0).
  apply bind_Ret_inv in Hr as (sc&s4&Hsc&Hr).
  apply liftCoin_Ret_inv in Hsc as [Hsc _].
  apply NewCoin_inr in Hsc as (->&_&Hs0).
  apply bind_Ret_inv in Hr as (?&s5&_&Hr).
  apply bind_Ret_inv in Hr as (?&s6&_&Hr).
  apply bind_Ret_inv in Hr as (r'&s7&Hrest&Hr).
  simpl in Hrest. injection Hrest as <- <-. injection Hr as <- <-.
  done.
Qed.

Lemma totalCoins_single denom b l f :
  0 ≤ b → 0 ≤ l → 0 ≤ f →
  Coins_Add (Coins_Add [NewCoinRaw denom b] [NewCoinRaw denom l])
    [NewCoinRaw denom f]
  = if b + l + f =? 0 then [] else [NewCoinRaw denom (b + l + f)].
Proof.
  intros Hb Hl Hf. unfold Coins_Add.
  rewrite (safeAdd_cons_cons (NewCoinRaw denom b) [] (NewCoinRaw denom l) []).
  cbn [Denom Amount]. rewrite String_compare_refl.
  unfold consNonZero at 1, Coin_IsZero at 1. cbn [Amount safeAdd].
  change (removeZeroCoins []) with (@nil Coin).
  destruct (Z.eqb_spec (b + l) 0) as [Hz|Hnz].
  - rewrite safeAdd_nil_l, removeZeroCoins_cons.
    change (removeZeroCoins []) with (@nil Coin).
    unfold Coin_IsZero. cbn [Amount].
    destruct (Z.eqb_spec f 0), (Z.eqb_spec (b + l + f) 0); try lia; [done|].
    do 2 f_equal. lia.
  - rewrite (safeAdd_cons_cons (NewCoinRaw denom (b + l)) []
               (NewCoinRaw denom f) []).
    cbn [Denom Amount]. rewrite String_compare_refl.
    unfold consNonZero, Coin_IsZero. cbn [Amount safeAdd].
    change (removeZeroCoins []) with (@nil Coin).
    done.
Qed.

Lemma NoDup_Denom_single (c : Coin) : NoDup (Denom <$> [c]).
Proof. apply NoDup_singleton. Qed.

Lemma addCoins_single_Ret k addr c s s' :
  addCoins k addr [c] s = Ret () s' →
  OnlyBalances s s'
  ∧ balanceOf s' addr (Denom c) = balanceOf s addr (Denom c) + Amount c
  ∧ ∀ addr', addr' ≠ addr →
      balanceOf s' addr' (Denom c) = balanceOf s addr' (Denom c).
Proof.
  intros H. apply addCoins_Ret_inv in H as [_ H].
  destruct (addLoop_Ret_spec k addr [c] s s' (NoDup_Denom_single c) H)
    as (Hob&Hc&Hframe).
  split; [done|]. split.
  - unfold balanceOf at 1. rewrite (Hc c) by (by left).
    apply default_entryFor.
  - intros addr' Hne. unfold balanceOf. by rewrite Hframe by (by left).
Qed.

Lemma subUnlockedCoins_single_Ret k addr c s s' :
  subUnlockedCoins k addr [c] s = Ret () s' →
  OnlyBalances s s'
  ∧ balanceOf s' addr (Denom c) = balanceOf s addr (Denom c) - Amount c
  ∧ ∀ addr', addr' ≠ addr →
      balanceOf s' addr' (Denom c) = balanceOf s addr' (Denom c).
Proof.
  intros H. apply subUnlockedCoins_Ret_inv in H as [_ H].
  destruct (subUnlockedLoop_Ret_spec k addr _ [c] s s'
              (NoDup_Denom_single c) H) as (Hob&Hc&Hframe).
  split; [done|]. split.
  - unfold balanceOf at 1. destruct (Hc c) as [-> _]; [by left|].
    apply default_entryFor.
  - intros addr' Hne. unfold balanceOf. by rewrite Hframe by (by left).
Qed.

(** The tail of the split for one taxed coin: the module account keeps the
    liquidity and fee-tax portions, the burn portion leaves the supply. *)
Lemma routeSplit_single k acc denom sendAmount b l f net s s' :
  GetModuleAccount k ModuleName = Some acc →
  0 ≤ b → 0 ≤ l → 0 ≤ f →
  routeSplit k
    (mkSplit [NewCoinRaw denom sendAmount] [NewCoinRaw denom b]
       [NewCoinRaw denom l] [NewCoinRaw denom f]) s = Ret net s' →
  net = [NewCoinRaw denom sendAmount]
  ∧ balanceOf s' (ModuleAccount.Address acc) denom
    = balanceOf s (ModuleAccount.Address acc) denom + l + f
  ∧ (∀ addr, addr ≠ ModuleAccount.Address acc →
       balanceOf s' addr denom = balanceOf s addr denom)
  ∧ supplyOf s' denom = supplyOf s denom - b.
Proof.
  intros Hacc Hb Hl Hf. unfold routeSplit. rewrite Hacc.
  cbn [burnCoinsOf liquidityCoins feeTarCoins sendCoins].
  rewrite totalCoins_single by done.
  destruct (Z.eqb_spec (b + l + f) 0) as [Hz|Hnz].
  { simpl. intros [= <- <-]. split; [done|].
    assert (b = 0 ∧ l = 0 ∧ f = 0) as (->&->&->) by lia.
    split; [lia|]. split; [done|lia]. }
  assert (Coins_IsZero [NewCoinRaw denom (b + l + f)] = false) as ->.
  { unfold Coins_IsZero, Coin_IsZero. simpl.
    by destruct (Z.eqb_spec (b + l + f) 0). }
  intros H. apply bind_Ret_inv in H as ([]&s1&Hadd&H).
  apply addCoins_single_Ret in Hadd as (Hob&Hm&Hothers).
  cbn [Denom Amount] in Hm, Hothers.
  destruct Hob as (_&Hsup1&_).
  unfold Coins_IsZero, Coin_IsZero in H. cbn [forallb Amount andb] in H.
  destruct (Z.eqb_spec b 0) as [->|Hbnz].
  - simpl in H. injection H as <- <-. split; [done|].
    split; [lia|]. split; [done|]. unfold supplyOf. rewrite Hsup1. lia.
  - rewrite andb_true_r in H. cbn [negb] in H.
    apply bind_Ret_inv in H as ([]&s2&Hburn&H). injection H as <- <-.
    apply burnCoins_Ret_inv in Hburn as (acc'&s1'&Hacc'&_&Hsub&Hloop).
    rewrite Hacc in Hacc'. injection Hacc' as <-.
    apply subUnlockedCoins_single_Ret in Hsub as (Hob2&Hm2&Hothers2).
    cbn [Denom Amount] in Hm2, Hothers2.
    destruct Hob2 as (_&Hsup2&_).
    apply forEach_Ret_cons in Hloop as (s3&Hstep&Hnil).
    simpl in Hnil. injection Hnil as <-.
    apply burnSupply_Ret_inv in Hstep as [_ ->]. cbn [Denom Amount].
    split; [done|]. split; [|split].
    + unfold balanceOf in *. simpl. lia.
    + intros addr Hne. specialize (Hothers addr Hne).
      specialize (Hothers2 addr Hne). unfold balanceOf in *. simpl. lia.
    + rewrite supplyOf_write. unfold supplyOf. rewrite Hsup2, Hsup1. done.
Qed.

(** X22. A successful [SendCoins] of one coin to which a rule applies,
    between a sender, a recipient and a module account that are three
    different addresses: the sender pays the whole coin, the recipient
    receives the coin less the three portions, the module account keeps the
    liquidity and the fee-tax portion, and the supply falls by the burn
    portion. *)
Theorem SendCoins_taxed_coin (k : Collaborators) (from to : AccAddress)
    (coin : Coin) (p : Portions) (acc : ModuleAccount.t) (s s' : State) :
  rulePortions (Params.SupportDeflationary (paramSpace s)) from to coin
  = Some p →
  GetModuleAccount k ModuleName = Some acc →
  from ≠ to →
  ModuleAccount.Address acc ≠ from →
  ModuleAccount.Address acc ≠ to →
  SendCoins k from to [coin] s = Ret () s' →
  balanceOf s' from (Denom coin)
  = balanceOf s from (Denom coin) - Amount coin
  ∧ balanceOf s' to (Denom coin)
    = balanceOf s to (Denom coin)
      + (Amount coin - burnAmount p - liquidityAmount p - feeTarAmount p)
  ∧ balanceOf s' (ModuleAccount.Address acc) (Denom coin)
    = balanceOf s (ModuleAccount.Address acc) (Denom coin)
      + liquidityAmount p + feeTarAmount p
  ∧ supplyOf s' (Denom coin) = supplyOf s (Denom coin) - burnAmount p.
Proof.
  intros Hp Hacc Hft Hmf Hmt H.
  apply SendCoins_Ret_inv in H as (s1&net&s2&s3&Hsub&Hdefl&Hadd&Hcreate).
  apply subUnlockedCoins_single_Ret in Hsub as (Hob1&Hfrom1&Hothers1).
  destruct Hob1 as (Hpar1&Hsup1&_).
  unfold deflationaryCoins, GetParams in Hdefl.
  apply bind_Ret_inv in Hdefl as (params&s1'&Hpar&Hdefl).
  unfold gets in Hpar. injection Hpar as <- <-. rewrite Hpar1 in Hdefl.
  apply bind_Ret_inv in Hdefl as (r&s1'&Hr&Hroute).
  pose proof (splitLoop_OnlyPools k (paramSpace s) from to [coin] s1)
    as Hpools.
  rewrite Hr in Hpools. simpl in Hpools.
  destruct Hpools as (_&Hbal1'&Hsup1'&_).
  apply (splitLoop_single_Ret _ _ _ _ _ p) in Hr as (->&Hb&Hl&Hf);
    [|done].
  apply (routeSplit_single _ acc) in Hroute
    as (->&Hmod2&Hothers2&Hsup2); [|done..].
  apply addCoins_single_Ret in Hadd as (Hob3&Hto3&Hothers3).
  cbn [Denom Amount] in Hto3, Hothers3.
  destruct Hob3 as (_&Hsup3&_).
  pose proof (createAccountIfAbsent_frame to s3) as Hfr.
  rewrite Hcreate in Hfr. simpl in Hfr. destruct Hfr as (_&Hbal4&Hsup4&_).
  assert (∀ addr, balanceOf s1' addr (Denom coin)
                  = balanceOf s1 addr (Denom coin)) as Hsame.
  { intros addr. unfold balanceOf. by rewrite Hbal1'. }
  assert (∀ addr, balanceOf s' addr (Denom coin)
                  = balanceOf s3 addr (Denom coin)) as Hlast.
  { intros addr. unfold balanceOf. by rewrite Hbal4. }
  rewrite !Hlast. split; [|split; [|split]].
  - rewrite Hothers3, Hothers2, Hsame by done. done.
  - rewrite Hto3, Hothers2, Hsame, Hothers1 by done. done.
  - rewrite Hothers3, Hmod2, Hsame, Hothers1 by done. done.
  - unfold supplyOf in *. rewrite Hsup4, Hsup3, Hsup2, Hsup1', Hsup1. done.
Qed.

Lemma SendCoins_taxed_coin_witness :
  let s' := storeAfter (SendCoins Scenario.collaborators "addr1" "addr2"
                          [Scenario.foo 50] Scenario.fundedWithPools) in
  balanceOf s' "addr2" "foo"
  = balanceOf Scenario.fundedWithPools "addr2" "foo" + (50 - 2 - 2 - 2)
  ∧ balanceOf s' "bankmodule" "foo"
    = balanceOf Scenario.fundedWithPools "bankmodule" "foo" + 2 + 2
  ∧ supplyOf s' "foo" = supplyOf Scenario.fundedWithPools "foo" - 2.
Proof.
  cbv zeta.
  destruct (SendCoins_taxed_coin Scenario.collaborators "addr1" "addr2"
              (Scenario.foo 50) (mkPortions 2 2 2) Scenario.bankAccount
              Scenario.fundedWithPools
              (storeAfter (SendCoins Scenario.collaborators "addr1" "addr2"
                             [Scenario.foo 50] Scenario.fundedWithPools)))
    as (_&Hto&Hmod&Hsup).
  - vm_compute. reflexivity.
  - reflexivity.
  - discriminate.
  - discriminate.
  - discriminate.
  - vm_compute. reflexivity.
  - exact (conj Hto (conj Hmod Hsup)).
Defined.

(** ** What a transfer credits to its recipient *)

Lemma forEach_app_Ret_inv {A} (l1 l2 : list A) (body : A → Keeper unit)
    s s' :
  forEach (l1 ++ l2) body s = Ret () s' →
  ∃ s1, forEach l1 body s = Ret () s1 ∧ forEach l2 body s1 = Ret () s'.
Proof.
  revert s. induction l1 as [|x l1 IH]; intros s H.
  - by exists s.
  - rewrite <- app_comm_cons in H.
    apply forEach_Ret_cons in H as (s0&Hx&H).
    destruct (IH _ H) as (s1&H1&H2). exists s1. split; [|done].
    cbn [forEach]. by rewrite (bind_Ret _ _ _ _ _ Hx).
Qed.

Lemma InputOutputCoins_Ret_inv k inputs outputs s s' :
  InputOutputCoins k inputs outputs s = Ret () s' →
  ValidateInputsOutputs inputs outputs = None
  ∧ ∃ s1, forEach inputs (inputLeg k) s = Ret () s1
          ∧ forEach outputs (outputLeg k) s1 = Ret () s'.
Proof.
  unfold InputOutputCoins.
  destruct (ValidateInputsOutputs inputs outputs); [done|].
  intros H. apply bind_Ret_inv in H as ([]&s1&H1&H2). eauto.
Qed.

Lemma outputLeg_Ret_inv k out outAddress s s' :
  AccAddressFromBech32 k (Output.Address out) = Some outAddress →
  outputLeg k out s = Ret () s' →
  ∃ net s2 s3,
    deflationaryCoins k emptyAccAddress outAddress (Output.Coins out) s
    = Ret net s2
    ∧ addCoins k outAddress net s2 = Ret () s3
    ∧ createAccountIfAbsent outAddress s3 = Ret () s'.
Proof.
  unfold outputLeg. intros ->. intros H.
  apply bind_Ret_inv in H as (net&s2&H1&H).
  apply bind_Ret_inv in H as ([]&s3&H2&H).
  by exists net, s2, s3.
Qed.

(** The run of a successful multi-send around one of its outputs. *)
Lemma InputOutputCoins_around_output k inputs before out after s s' :
  InputOutputCoins k inputs (before ++ out :: after) s = Ret () s' →
  ∃ sa sb,
    (forEach inputs (inputLeg k) ;; forEach before (outputLeg k)) s
    = Ret () sa
    ∧ outputLeg k out sa = Ret () sb
    ∧ forEach after (outputLeg k) sb = Ret () s'.
Proof.
  intros H. apply InputOutputCoins_Ret_inv in H as (_&s1&Hin&Hout).
  apply forEach_app_Ret_inv in Hout as (sa&Hbefore&Hout).
  apply forEach_Ret_cons in Hout as (sb&Hleg&Hafter).
  exists sa, sb. split; [|done]. by rewrite (bind_Ret _ _ _ _ _ Hin).
Qed.

(** The split touches the balances of the module account only. *)
Lemma routeSplit_balances_outside k r net s s' :
  routeSplit k r s = Ret net s' →
  ∃ acc,
    GetModuleAccount k ModuleName = Some acc
    ∧ ∀ addr denom, addr ≠ ModuleAccount.Address acc →
        balances s' !! (addr, denom) = balances s !! (addr, denom).
Proof.
  unfold routeSplit.
  destruct (GetModuleAccount k ModuleName) as [acc|] eqn:Hacc; [|done].
  intros H. exists acc. split; [done|]. intros addr denom Hne.
  cbv zeta in H. destruct (Coins_IsZero _) eqn:Hz.
  { by injection H as <- <-. }
  apply bind_Ret_inv in H as ([]&s1&Hadd&H).
  apply addCoins_Ret_inv in Hadd as [Hvalid Hadd].
  apply Coins_IsValid_spec in Hvalid as [Hnd _].
  destruct (addLoop_Ret_spec k _ _ s s1 Hnd Hadd) as (_&_&Hframe1).
  destruct (Coins_IsZero (burnCoinsOf r)) eqn:Hb.
  { injection H as <- <-. apply Hframe1. by left. }
  apply bind_Ret_inv in H as ([]&s2&Hburn&H). injection H as <- <-.
  apply burnCoins_Ret_inv in Hburn as (acc'&s1'&Hacc'&_&Hsub&Hloop).
  rewrite Hacc in Hacc'. injection Hacc' as <-.
  apply subUnlockedCoins_Ret_inv in Hsub as [Hvalid2 Hsub].
  apply Coins_IsValid_spec in Hvalid2 as [Hnd2 _].
  destruct (subUnlockedLoop_Ret_spec k _ _ _ s1 s1' Hnd2 Hsub)
    as (_&_&Hframe2).
  destruct (burnSupplyLoop_frame _ _ _ Hloop) as (_&->&_).
  rewrite Hframe2 by (by left). apply Hframe1. by left.
Qed.

Lemma deflationaryCoins_balances_outside k from to amt net s s' :
  deflationaryCoins k from to amt s = Ret net s' →
  ∃ acc,
    GetModuleAccount k ModuleName = Some acc
    ∧ ∀ addr denom, addr ≠ ModuleAccount.Address acc →
        balances s' !! (addr, denom) = balances s !! (addr, denom).
Proof.
  intros H. unfold deflationaryCoins, GetParams in H.
  apply bind_Ret_inv in H as (params&s0&Hp&H).
  unfold gets in Hp. injection Hp as <- <-.
  apply bind_Ret_inv in H as (r&s1&Hr&H).
  pose proof (splitLoop_OnlyPools k (paramSpace s) from to amt s) as Hpools.
  rewrite Hr in Hpools. simpl in Hpools. destruct Hpools as (_&Hbal&_).
  apply routeSplit_balances_outside in H as (acc&Hacc&Hout).
  exists acc. split; [done|]. intros addr denom Hne.
  rewrite Hout by done. by rewrite Hbal.
Qed.

(** The tail shared by [SendCoins] and by every output of
    [InputOutputCoins]: the split, the credit of its net coins and the
    account of the recipient.  The recipient's balance of a coin's
    denomination rises by the net coin that the split left at the coin's
    position. *)
Lemma credit_leg k from to amt net s s2 s3 s' :
  deflationaryCoins k from to amt s = Ret net s2 →
  addCoins k to net s2 = Ret () s3 →
  createAccountIfAbsent to s3 = Ret () s' →
  ∀ i coin, amt !! i = Some coin →
    ∃ netCoin,
      net !! i = Some netCoin ∧ Denom netCoin = Denom coin
      ∧ match rulePortions (Params.SupportDeflationary (paramSpace s))
                from to coin with
        | None => netCoin = coin
        | Some p =>
            burnAmount p + liquidityAmount p + feeTarAmount p
            + Amount netCoin = Amount coin
        end
      ∧ balanceOf s' to (Denom coin)
        = balanceOf s2 to (Denom coin) + Amount netCoin
      ∧ (∀ acc, GetModuleAccount k ModuleName = Some acc →
           to ≠ ModuleAccount.Address acc →
           balanceOf s' to (Denom coin)
           = balanceOf s to (Denom coin) + Amount netCoin).
Proof.
  intros Hd Ha Hc i coin Hi.
  pose proof Hd as Hout.
  apply deflationaryCoins_balances_outside in Hout as (acc0&Hacc0&Hout).
  apply deflationaryCoins_Ret_inv in Hd as (r&s1&Hr&->).
  apply splitLoop_sendCoins in Hr as [_ Hr].
  destruct (Hr i coin Hi) as (c&Hc'&Hden&Hsum).
  exists c. split; [done|]. split; [done|]. split; [done|].
  apply addCoins_Ret_inv in Ha as [Hvalid Ha].
  apply Coins_IsValid_spec in Hvalid as [Hnd _].
  destruct (addLoop_Ret_spec k to _ s2 s3 Hnd Ha) as (_&Hcredit&_).
  pose proof (createAccountIfAbsent_frame to s3) as Hf.
  rewrite Hc in Hf. simpl in Hf. destruct Hf as (_&Hb&_).
  assert (c ∈ sendCoins r) as Hin by (by eapply list_elem_of_lookup_2).
  assert (balanceOf s' to (Denom coin)
          = balanceOf s2 to (Denom coin) + Amount c) as Hstep.
  { unfold balanceOf at 1. rewrite Hb, <- Hden, (Hcredit c Hin).
    apply default_entryFor. }
  split; [done|]. intros acc Hacc Hne. rewrite Hstep.
  unfold balanceOf. rewrite Hout; [done|]. congruence.
Qed.

Lemma rulePortions_applying rules rule from to coin :
  rule ∈ rules →
  SupportDeflationary.Enabled rule = true →
  SupportDeflationary.Denom rule = Denom coin →
  from ∉ SupportDeflationary.WhitelistedFrom rule →
  to ∈ SupportDeflationary.WhitelistedTo rule →
  ∃ p, rulePortions rules from to coin = Some p.
Proof.
  intros Hin He Hd Hf Ht.
  destruct (rulePortions rules from to coin) as [p|] eqn:Hp; [by exists p|].
  apply rulePortions_None in Hp. unfold applicable in Hp.
  assert (existsb (λ d, ruleApplies d from to (Denom coin)) rules = true)
    as Hex; [|congruence].
  apply existsb_exists. exists rule. split; [by apply list_elem_of_In|].
  by apply ruleApplies_true.
Qed.

#[local] Instance SameParams_preorder : PreOrder SameParams.
Proof.
  split.
  - by intros s.
  - intros s1 s2 s3 (?&?) (?&?). split; congruence.
Qed.

Lemma SameSetup_SameParams s s' : SameSetup s s' → SameParams s s'.
Proof. by intros (?&?&_). Qed.

Lemma subUnlockedCoins_SameParams k addr amt :
  Keeps SameParams (subUnlockedCoins k addr amt).
Proof.
  eapply Keeps_weaken; [apply SameSetup_SameParams|].
  apply subUnlockedCoins_SameSetup.
Qed.

Lemma addCoins_SameParams k addr amt : Keeps SameParams (addCoins k addr amt).
Proof.
  eapply Keeps_weaken; [apply SameSetup_SameParams|].
  apply addCoins_SameSetup.
Qed.

Lemma deflationaryCoins_SameParams k from to amt :
  Keeps SameParams (deflationaryCoins k from to amt).
Proof.
  eapply Keeps_weaken; [apply SameSetup_SameParams|].
  apply deflationaryCoins_SameSetup.
Qed.

Lemma createAccountIfAbsent_SameParams addr :
  Keeps SameParams (createAccountIfAbsent addr).
Proof.
  intros s. rewrite createAccountIfAbsent_eq. simpl. by case_decide.
Qed.

Create HintDb keeps_params discriminated.
#[local] Hint Resolve subUnlockedCoins_SameParams addCoins_SameParams
  deflationaryCoins_SameParams createAccountIfAbsent_SameParams
  : keeps_params.

Ltac keeps_params :=
  repeat first
    [ solve [auto 1 with keeps_params nocore]
    | keeps_step ].

Lemma SendCoins_SameParams k from to amt :
  Keeps SameParams (SendCoins k from to amt).
Proof. unfold SendCoins. keeps_params. Qed.

Lemma inputLeg_SameParams k i : Keeps SameParams (inputLeg k i).
Proof. unfold inputLeg. keeps_params. Qed.

Lemma outputLeg_SameParams k out : Keeps SameParams (outputLeg k out).
Proof. unfold outputLeg. keeps_params. Qed.
#[local] Hint Resolve inputLeg_SameParams outputLeg_SameParams
  : keeps_params.

Lemma InputOutputCoins_SameParams k inputs outputs :
  Keeps SameParams (InputOutputCoins k inputs outputs).
Proof. unfold InputOutputCoins. keeps_params. Qed.

Lemma multisend_prefix_params k inputs before s sa :
  (forEach inputs (inputLeg k) ;; forEach before (outputLeg k)) s
  = Ret () sa →
  paramSpace sa = paramSpace s.
Proof.
  intros H.
  assert (Keeps SameParams
            (forEach inputs (inputLeg k) ;; forEach before (outputLeg k)))
    as Hk by keeps_params.
  specialize (Hk s). rewrite H in Hk. apply Hk.
Qed.

(** C4. For every transfer with a rule for the coin's denomination that is
    enabled, does not list the sender in [WhitelistedFrom] and lists the
    recipient in [WhitelistedTo], the portions that the split computes and
    the net coin add up to the requested amount exactly, and the net coin is
    what the recipient's balance rises by.  This holds of a successful
    [SendCoins], and of every output of a successful [InputOutputCoins],
    where the sender handed to the split is the empty address. *)
Theorem split_portions_add_up (k : Collaborators) :
  (∀ from to amt s s' i coin rule,
     SendCoins k from to amt s = Ret () s' →
     amt !! i = Some coin →
     rule ∈ Params.SupportDeflationary (paramSpace s) →
     SupportDeflationary.Enabled rule = true →
     SupportDeflationary.Denom rule = Denom coin →
     (from ∉ SupportDeflationary.WhitelistedFrom rule) →
     to ∈ SupportDeflationary.WhitelistedTo rule →
     ∃ p netCoins netCoin s1 s2,
       subUnlockedCoins k from amt s = Ret () s1
       ∧ deflationaryCoins k from to amt s1 = Ret netCoins s2
       ∧ rulePortions (Params.SupportDeflationary (paramSpace s)) from to coin
         = Some p
       ∧ netCoins !! i = Some netCoin ∧ Denom netCoin = Denom coin
       ∧ burnAmount p + liquidityAmount p + feeTarAmount p + Amount netCoin
         = Amount coin
       ∧ balanceOf s' to (Denom coin)
         = balanceOf s2 to (Denom coin) + Amount netCoin
       ∧ (from ≠ to →
          ∀ acc, GetModuleAccount k ModuleName = Some acc →
            to ≠ ModuleAccount.Address acc →
            balanceOf s' to (Denom coin)
            = balanceOf s to (Denom coin) + Amount netCoin))
  ∧ (∀ inputs before out after outAddress s s' i coin rule,
       InputOutputCoins k inputs (before ++ out :: after) s = Ret () s' →
       AccAddressFromBech32 k (Output.Address out) = Some outAddress →
       Output.Coins out !! i = Some coin →
       rule ∈ Params.SupportDeflationary (paramSpace s) →
       SupportDeflationary.Enabled rule = true →
       SupportDeflationary.Denom rule = Denom coin →
       (emptyAccAddress ∉ SupportDeflationary.WhitelistedFrom rule) →
       outAddress ∈ SupportDeflationary.WhitelistedTo rule →
       ∃ p netCoins netCoin sa s2 sb,
         (forEach inputs (inputLeg k) ;; forEach before (outputLeg k)) s
         = Ret () sa
         ∧ deflationaryCoins k emptyAccAddress outAddress (Output.Coins out)
             sa = Ret netCoins s2
         ∧ outputLeg k out sa = Ret () sb
         ∧ forEach after (outputLeg k) sb = Ret () s'
         ∧ rulePortions (Params.SupportDeflationary (paramSpace s))
             emptyAccAddress outAddress coin = Some p
         ∧ netCoins !! i = Some netCoin ∧ Denom netCoin = Denom coin
         ∧ burnAmount p + liquidityAmount p + feeTarAmount p + Amount netCoin
           = Amount coin
         ∧ balanceOf sb outAddress (Denom coin)
           = balanceOf s2 outAddress (Denom coin) + Amount netCoin
         ∧ (∀ acc, GetModuleAccount k ModuleName = Some acc →
              outAddress ≠ ModuleAccount.Address acc →
              balanceOf sb outAddress (Denom coin)
              = balanceOf sa outAddress (Denom coin) + Amount netCoin)).
Proof.
  split.
  - intros from to amt s s' i coin rule H Hi Hin He Hd Hf Ht.
    destruct (rulePortions_applying _ rule from to coin Hin He Hd Hf Ht)
      as [p Hp].
    apply SendCoins_Ret_inv in H as (s1&net&s2&s3&Hsub&Hdefl&Hadd&Hacc).
    pose proof (subUnlockedCoins_OnlyBalances k from amt s) as Hob.
    rewrite Hsub in Hob. destruct Hob as (Hparams&_). simpl in Hparams.
    destruct (credit_leg k from to amt net s1 s2 s3 s' Hdefl Hadd Hacc
                i coin Hi) as (c&Hc&Hden&Hsum&Hstep&Hend).
    rewrite Hparams, Hp in Hsum.
    exists p, net, c, s1, s2. repeat (split; [done|]).
    intros Hne acc Hmod Hnm. rewrite (Hend acc Hmod Hnm). f_equal.
    apply subUnlockedCoins_Ret_inv in Hsub as [Hvalid Hsub].
    apply Coins_IsValid_spec in Hvalid as [Hnd _].
    destruct (subUnlockedLoop_Ret_spec k from _ amt s s1 Hnd Hsub)
      as (_&_&Hframe).
    unfold balanceOf. rewrite Hframe; [done|]. left. congruence.
  - intros inputs before out after outAddress s s' i coin rule
      H Haddr Hi Hin He Hd Hf Ht.
    destruct (rulePortions_applying _ rule emptyAccAddress outAddress coin
                Hin He Hd Hf Ht) as [p Hp].
    apply InputOutputCoins_around_output in H as (sa&sb&Hpre&Hleg&Hpost).
    pose proof (multisend_prefix_params _ _ _ _ _ Hpre) as Hparams.
    destruct (outputLeg_Ret_inv _ _ _ _ _ Haddr Hleg)
      as (net&s2&s3&Hdefl&Hadd&Hacc).
    destruct (credit_leg k emptyAccAddress outAddress (Output.Coins out) net
                sa s2 s3 sb Hdefl Hadd Hacc i coin Hi)
      as (c&Hc&Hden&Hsum&Hstep&Hend).
    rewrite Hparams, Hp in Hsum.
    exists p, net, c, sa, s2, sb. repeat (split; [done|]). done.
Qed.

Lemma split_portions_add_up_witness :
  (∃ net,
     2 + 2 + 2 + net = 50
     ∧ balanceOf
         (storeAfter (SendCoins Scenario.collaborators "addr1" "addr2"
                        [Scenario.foo 50] Scenario.fundedWithPools))
         "addr2" "foo"
       = balanceOf Scenario.fundedWithPools "addr2" "foo" + net)
  ∧ (∃ net sa sb,
       2 + 2 + 2 + net = 50
       ∧ outputLeg Scenario.collaborators
           (Output.mk "addr2" [Scenario.foo 50]) sa = Ret () sb
       ∧ balanceOf sb "addr2" "foo" = balanceOf sa "addr2" "foo" + net).
Proof.
  destruct (split_portions_add_up Scenario.collaborators)
    as [Hsend Hmulti].
  split.
  - destruct (Hsend "addr1" "addr2" [Scenario.foo 50]
                Scenario.fundedWithPools
                (storeAfter (SendCoins Scenario.collaborators "addr1" "addr2"
                               [Scenario.foo 50] Scenario.fundedWithPools))
                0%nat (Scenario.foo 50) Scenario.specRule)
      as (p&netCoins&netCoin&s1&s2&_&_&Hp&_&_&Hsum&_&Hend).
    + vm_compute. reflexivity.
    + reflexivity.
    + by left.
    + reflexivity.
    + reflexivity.
    + apply not_elem_of_nil.
    + by left.
    + vm_compute in Hp. injection Hp as <-.
      exists (Amount netCoin). split; [exact Hsum|].
      apply (Hend ltac:(discriminate) Scenario.bankAccount eq_refl
               ltac:(discriminate)).
  - destruct (Hmulti [Input.mk "addr1" [Scenario.foo 50]] []
                (Output.mk "addr2" [Scenario.foo 50]) [] "addr2"
                Scenario.fundedWithPools
                (storeAfter
                   (InputOutputCoins Scenario.collaborators
                      [Input.mk "addr1" [Scenario.foo 50]]
                      [Output.mk "addr2" [Scenario.foo 50]]
                      Scenario.fundedWithPools))
                0%nat (Scenario.foo 50) Scenario.specRule)
      as (p&netCoins&netCoin&sa&s2&sb&_&_&Hleg&_&Hp&_&_&Hsum&_&Hend).
    + vm_compute. reflexivity.
    + reflexivity.
    + reflexivity.
    + by left.
    + reflexivity.
    + reflexivity.
    + apply not_elem_of_nil.
    + by left.
    + vm_compute in Hp. injection Hp as <-.
      exists (Amount netCoin), sa, sb. split; [exact Hsum|].
      split; [exact Hleg|].
      apply (Hend Scenario.bankAccount eq_refl ltac:(discriminate)).
Defined.

(** ** Coins that no rule applies to *)





(** C8 refuted as stated: a rule that lists the sender [addr1] in
    [WhitelistedFrom] leaves a [SendCoins] of 50 foo from [addr1] whole, but
    the same transfer made through [InputOutputCoins] is split: [addr2]
    receives 35 foo and the supply falls from 100 to 95. *)
Lemma InputOutputCoins_taxes_exempt_sender :
  "addr1" ∈ SupportDeflationary.WhitelistedFrom Scenario.exemptSenderRule
  ∧ (∃ s',
       SendCoins Scenario.collaborators "addr1" "addr2" [Scenario.foo 50]
         (Scenario.funded (Params.mk [] true [Scenario.exemptSenderRule]))
       = Ret () s'
       ∧ balanceOf s' "addr2" "foo" = 50 ∧ supplyOf s' "foo" = 100)
  ∧ (∃ s',
       InputOutputCoins Scenario.collaborators
         [Input.mk "addr1" [Scenario.foo 50]]
         [Output.mk "addr2" [Scenario.foo 50]]
         (Scenario.funded (Params.mk [] true [Scenario.exemptSenderRule]))
       = Ret () s'
       ∧ balanceOf s' "addr2" "foo" = 35 ∧ supplyOf s' "foo" = 95).
Proof.
  split; [by left|]. split.
  - eexists. split; [vm_compute; reflexivity|].
    split; vm_compute; reflexivity.
  - eexists. split; [vm_compute; reflexivity|].
    split; vm_compute; reflexivity.
Qed.

(** ** Transfers without a bank module account *)

Lemma bind_Panicked_inv {A B} (m : Keeper A) (f : A → Keeper B) s p s' :
  (m ≫= f) s = Panicked p s' →
  m s = Panicked p s' ∨ ∃ a s1, m s = Ret a s1 ∧ f a s1 = Panicked p s'.
Proof.
  rewrite bind_unfold. destruct (m s) as [a s1|e s1|p1 s1]; [eauto|done|].
  intros [= <- <-]. by left.
Qed.

Lemma liftCoin_NewCoin_outcome (v : string → bool) denom amount s :
  (v denom = true ∧ 0 ≤ amount
   ∧ liftCoin (NewCoin v denom amount) s = Ret (NewCoinRaw denom amount) s)
  ∨ (v denom = false
     ∧ liftCoin (NewCoin v denom amount) s
       = Panicked (PanicCoin (InvalidDenomPanic denom)) s)
  ∨ (amount < 0
     ∧ liftCoin (NewCoin v denom amount) s
       = Panicked (PanicCoin (NegativeCoinAmount amount)) s).
Proof.
  unfold NewCoin. destruct (v denom); simpl; [|by right; left].
  destruct (Z.ltb_spec amount 0); simpl; [by right; right|by left].
Qed.

(** A panic of the loop of the split is the panic of [sdk.NewCoin] for one
    of the coins: its denomination is invalid, or an amount is negative. *)
Lemma splitLoop_Panicked_kind k params from to amt s p s' :
  splitLoop k params from to amt s = Panicked p s' →
  ∃ coin,
    coin ∈ amt
    ∧ ((p = PanicCoin (InvalidDenomPanic (Denom coin))
        ∧ ValidateDenom k (Denom coin) = false)
       ∨ ∃ a, p = PanicCoin (NegativeCoinAmount a) ∧ a < 0).
Proof.
  revert s. induction amt as [|coin rest IH]; intros s H; [done|].
  assert (∀ s0, splitLoop k params from to rest s0 = Panicked p s' →
            ∃ c, c ∈ coin :: rest
              ∧ ((p = PanicCoin (InvalidDenomPanic (Denom c))
                  ∧ ValidateDenom k (Denom c) = false)
                 ∨ ∃ a, p = PanicCoin (NegativeCoinAmount a) ∧ a < 0))
    as Hrest.
  { intros s0 H0. destruct (IH s0 H0) as (c&Hc&Hkind).
    exists c. split; [by right|done]. }
  assert (∀ amount (f : Coin → Keeper Split) s0,
            (liftCoin (NewCoin (ValidateDenom k) (Denom coin) amount) ≫= f)
              s0 = Panicked p s' →
            (∃ c, c ∈ coin :: rest
               ∧ ((p = PanicCoin (InvalidDenomPanic (Denom c))
                   ∧ ValidateDenom k (Denom c) = false)
                  ∨ ∃ a, p = PanicCoin (NegativeCoinAmount a) ∧ a < 0))
            ∨ f (NewCoinRaw (Denom coin) amount) s0 = Panicked p s')
    as Hnew.
  { intros amount f s0 H0. rewrite bind_unfold in H0.
    destruct (liftCoin_NewCoin_outcome (ValidateDenom k) (Denom coin)
                amount s0) as [(_&_&Heq)|[(Hv&Heq)|(Hneg&Heq)]];
      rewrite Heq in H0.
    - by right.
    - injection H0 as <- <-. left. exists coin. split; [by left|].
      by left.
    - injection H0 as <- <-. left. exists coin. split; [by left|].
      right. by exists amount. }
  cbn [splitLoop] in H.
  destruct (rulePortions _ from to coin) as [q|].
  - apply Hnew in H as [?|H]; [done|].
    apply Hnew in H as [?|H]; [done|].
    apply Hnew in H as [?|H]; [done|].
    cbv zeta in H. apply Hnew in H as [?|H]; [done|].
    apply bind_Panicked_inv in H as [H|(?&s1&_&H)].
    { exfalso. destruct (0 <? liquidityAmount q); [|done].
      cbn [Denom] in H.
      destruct (liquidityPool_writeback_Ret (Denom coin) s) as [s1 Hs1].
      cbv zeta in H. rewrite Hs1 in H. done. }
    apply bind_Panicked_inv in H as [H|(?&s2&_&H)].
    { exfalso. destruct (0 <? feeTarAmount q); [|done].
      cbn [Denom] in H.
      destruct (feeTaxPool_writeback_Ret (Denom coin) s1) as [s2 Hs2].
      cbv zeta in H. rewrite Hs2 in H. done. }
    apply bind_Panicked_inv in H as [H|(?&s3&_&H)]; [|done].
    by eapply Hrest.
  - apply bind_Panicked_inv in H as [H|(?&s1&_&H)]; [|done].
    by eapply Hrest.
Qed.

(** Without a bank module account the split ends in a panic: the
    unknown-address one when its loop returns, the loop's own otherwise. *)
Lemma deflationaryCoins_no_module_account_kind k from to amt s :
  GetModuleAccount k ModuleName = None →
  (Forall (splitFits k (Params.SupportDeflationary (paramSpace s)) from to)
     amt →
   ∃ s', deflationaryCoins k from to amt s
         = Panicked (PanicUnknownAddress ModuleName) s'
         ∧ OnlyPools s s')
  ∧ (¬ Forall (splitFits k (Params.SupportDeflationary (paramSpace s))
                 from to) amt →
     ∃ coin cp s',
       coin ∈ amt
       ∧ deflationaryCoins k from to amt s = Panicked (PanicCoin cp) s'
       ∧ ((cp = InvalidDenomPanic (Denom coin)
           ∧ ValidateDenom k (Denom coin) = false)
          ∨ ∃ a, cp = NegativeCoinAmount a ∧ a < 0)).
Proof.
  intros Hnone. unfold deflationaryCoins, GetParams.
  rewrite bind_unfold. simpl. rewrite bind_unfold.
  pose proof (splitLoop_OnlyPools k (paramSpace s) from to amt s) as Hpools.
  split.
  - intros Hfit.
    destruct (splitLoop_Returns k (paramSpace s) from to amt Hfit s)
      as (r&s'&Hr).
    rewrite Hr in Hpools |- *. simpl in Hpools.
    exists s'. split; [|done]. unfold routeSplit. by rewrite Hnone.
  - intros Hnofit.
    destruct (splitLoop k (paramSpace s) from to amt s)
      as [r s'|e s'|p s'] eqn:Hr.
    + exfalso. apply Hnofit. by eapply splitLoop_Ret_fits.
    + exfalso.
      destruct (splitLoop_outcome k (paramSpace s) from to amt s)
        as [(?&?&Hout)|(?&?&Hout)]; congruence.
    + destruct (splitLoop_Panicked_kind _ _ _ _ _ _ _ _ Hr)
        as (coin&Hcoin&[[-> Hv]|(a&->&Ha)]).
      * exists coin, (InvalidDenomPanic (Denom coin)), s'.
        split; [done|]. split; [done|]. by left.
      * exists coin, (NegativeCoinAmount a), s'.
        split; [done|]. split; [done|]. right. by exists a.
Qed.

(** C10, as the keeper has it.  When the bank module account does not
    exist, a [SendCoins] call whose debit succeeds panics, and so does an
    [InputOutputCoins] call that passes validation, debits all its inputs
    and has a first output whose address parses.  The panic is the
    unknown-address one when the loop of the split runs to its end, that is
    when every coin fits, and in particular when no rule applies to any of
    the coins; otherwise it is the panic of [sdk.NewCoin] inside that loop,
    before the lookup: a negative amount, or, for the coins of an output,
    which the keeper does not validate before the split, an invalid
    denomination.  An [InputOutputCoins] call without outputs that passes
    validation and debits its inputs returns without reaching the lookup. *)
Theorem missing_module_account_panics (k : Collaborators) :
  GetModuleAccount k ModuleName = None →
  (∀ from to amt s s1,
     subUnlockedCoins k from amt s = Ret () s1 →
     (Forall (splitFits k (Params.SupportDeflationary (paramSpace s))
                from to) amt →
      ∃ s2,
        SendCoins k from to amt s
        = Panicked (PanicUnknownAddress ModuleName) s2
        ∧ OnlyPools s1 s2)
     ∧ (¬ Forall (splitFits k (Params.SupportDeflationary (paramSpace s))
                    from to) amt →
        ∃ a s2,
          a < 0
          ∧ SendCoins k from to amt s
            = Panicked (PanicCoin (NegativeCoinAmount a)) s2)
     ∧ ((∀ coin, coin ∈ amt →
           applicable (Params.SupportDeflationary (paramSpace s)) from to
             (Denom coin) = false) →
        SendCoins k from to amt s
        = Panicked (PanicUnknownAddress ModuleName) s1))
  ∧ (∀ inputs out outputs outAddress s s1,
       ValidateInputsOutputs inputs (out :: outputs) = None →
       forEach inputs (inputLeg k) s = Ret () s1 →
       AccAddressFromBech32 k (Output.Address out) = Some outAddress →
       (Forall (splitFits k (Params.SupportDeflationary (paramSpace s1))
                  emptyAccAddress outAddress) (Output.Coins out) →
        ∃ s2,
          InputOutputCoins k inputs (out :: outputs) s
          = Panicked (PanicUnknownAddress ModuleName) s2
          ∧ OnlyPools s1 s2)
       ∧ (¬ Forall (splitFits k (Params.SupportDeflationary (paramSpace s1))
                      emptyAccAddress outAddress) (Output.Coins out) →
          ∃ coin cp s2,
            coin ∈ Output.Coins out
            ∧ InputOutputCoins k inputs (out :: outputs) s
              = Panicked (PanicCoin cp) s2
            ∧ ((cp = InvalidDenomPanic (Denom coin)
                ∧ ValidateDenom k (Denom coin) = false)
               ∨ ∃ a, cp = NegativeCoinAmount a ∧ a < 0))
       ∧ ((∀ coin, coin ∈ Output.Coins out →
             applicable (Params.SupportDeflationary (paramSpace s1))
               emptyAccAddress outAddress (Denom coin) = false) →
          InputOutputCoins k inputs (out :: outputs) s
          = Panicked (PanicUnknownAddress ModuleName) s1))
  ∧ (∀ inputs s s1,
       ValidateInputsOutputs inputs [] = None →
       forEach inputs (inputLeg k) s = Ret () s1 →
       InputOutputCoins k inputs [] s = Ret () s1).
Proof.
  intros Hnone. split; [|split].
  - intros from to amt s s1 Hsub.
    pose proof (subUnlockedCoins_OnlyBalances k from amt s) as Hob.
    rewrite Hsub in Hob. destruct Hob as (Hparams&_). simpl in Hparams.
    destruct (deflationaryCoins_no_module_account_kind k from to amt s1 Hnone)
      as [Hfit Hnofit].
    rewrite Hparams in Hfit, Hnofit.
    destruct (deflationaryCoins_no_module_account k from to amt s1 Hnone)
      as [_ Hna].
    unfold SendCoins. rewrite (bind_Ret _ _ _ _ _ Hsub).
    split; [|split].
    + intros Hall. destruct (Hfit Hall) as (s2&Hp&Hpools).
      exists s2. split; [|done]. by apply bind_Panicked.
    + intros Hnot. destruct (Hnofit Hnot) as (coin&cp&s2&Hcoin&Hp&Hkind).
      apply subUnlockedCoins_Ret_inv in Hsub as [Hvalid _].
      apply Coins_IsValid_spec in Hvalid as [_ Hvalid].
      rewrite Forall_forall in Hvalid.
      destruct (Hvalid coin Hcoin) as [Hv _].
      destruct Hkind as [[_ Hbad]|(a&->&Ha)]; [congruence|].
      exists a, s2. split; [done|]. by apply bind_Panicked.
    + intros Hnot. apply bind_Panicked, Hna. by rewrite Hparams.
  - intros inputs out outputs outAddress s s1 Hval Hin Haddr.
    destruct (deflationaryCoins_no_module_account_kind k emptyAccAddress
                outAddress (Output.Coins out) s1 Hnone) as [Hfit Hnofit].
    destruct (deflationaryCoins_no_module_account k emptyAccAddress outAddress
                (Output.Coins out) s1 Hnone) as [_ Hna].
    unfold InputOutputCoins. rewrite Hval, (bind_Ret _ _ _ _ _ Hin).
    cbn [forEach].
    assert (outputLeg k out
            = (sendCoins ← deflationaryCoins k emptyAccAddress outAddress
                             (Output.Coins out);
               addCoins k outAddress sendCoins ;;
               createAccountIfAbsent outAddress)) as ->.
    { unfold outputLeg. by rewrite Haddr. }
    split; [|split].
    + intros Hall. destruct (Hfit Hall) as (s2&Hp&Hpools).
      exists s2. split; [|done]. by do 2 apply bind_Panicked.
    + intros Hnot. destruct (Hnofit Hnot) as (coin&cp&s2&Hcoin&Hp&Hkind).
      exists coin, cp, s2. split; [done|]. split; [|done].
      by do 2 apply bind_Panicked.
    + intros Hnot. do 2 apply bind_Panicked. by apply Hna.
  - intros inputs s s1 Hval Hin. unfold InputOutputCoins.
    by rewrite Hval, (bind_Ret _ _ _ _ _ Hin).
Qed.

Lemma missing_module_account_panics_witness :
  ∃ s2,
    SendCoins Scenario.collaboratorsNoBank "addr1" "addr2" [Scenario.foo 50]
      (Scenario.funded (Params.mk [] true [Scenario.specRule]))
    = Panicked (PanicUnknownAddress ModuleName) s2.
Proof.
  destruct (missing_module_account_panics Scenario.collaboratorsNoBank)
    as (Hsend&_&_); [reflexivity|].
  destruct (Hsend "addr1" "addr2" [Scenario.foo 50]
              (Scenario.funded (Params.mk [] true [Scenario.specRule]))
              (storeAfter
                 (subUnlockedCoins Scenario.collaboratorsNoBank "addr1"
                    [Scenario.foo 50]
                    (Scenario.funded
                       (Params.mk [] true [Scenario.specRule])))))
    as (Hfit&_&_); [vm_compute; reflexivity|].
  destruct Hfit as (s2&Hp&_).
  - constructor; [|constructor]. vm_compute. repeat split; discriminate.
  - exists s2. exact Hp.
Defined.
